(** * Incremental extraction-and-ingestion engine: a shallow embedding

    The development follows the Python sources of the scraping verticals
    ([apprenticeship] and [job]): text helpers, the listing/detail merge,
    the label/value lookup, the card-boundary ancestor search, page
    iteration, the diff-based upsert and the per-run orchestration loop.

    Conventions of the embedding.
    - A Python [str] is a Rocq [string] (a sequence of bytes, UTF-8 for
      text outside ASCII).  [lower], [strip] and the regular-expression
      class [\s] act on the ASCII range; the typographic characters the
      sources mention (em dash, curly apostrophes) appear as their UTF-8
      byte sequences.  A slice [s[:n]] counts bytes, which is the count
      of characters on ASCII text.
    - A Python [dict] used as a map is a [gmap string _]; a [set] of
      identifiers is a [gset string]; a dict whose iteration order matters
      (the [new_vals] of the upsert) is an association list.
    - The database is a finite map from the external reference to the
      stored row; the audit table is a list that only grows at its end.
    - Calls that leave the process (HTTP fetches, the image service, the
      clock) are fields of an environment record; a call that raises is a
      result in [inl] carrying the text of the exception. *)

From Stdlib Require Import Ascii String.
From stdpp Require Import gmap strings list fin_maps.

(** ** Python string primitives *)

Module PyStr.

(** [str.isspace] on the ASCII range: TAB..CR, FS..US and SPACE. *)
Definition is_space (c : ascii) : bool :=
  let n := nat_of_ascii c in
  ((9 <=? n)%nat && (n <=? 13)%nat) || ((28 <=? n)%nat && (n <=? 32)%nat).

Definition lower_char (c : ascii) : ascii :=
  let n := nat_of_ascii c in
  if ((65 <=? n)%nat && (n <=? 90)%nat) then ascii_of_nat (n + 32) else c.

(** [s.lower()] *)
Fixpoint lower (s : string) : string :=
  match s with
  | EmptyString => EmptyString
  | String c s' => String (lower_char c) (lower s')
  end.

(** [s.lstrip()] *)
Fixpoint lstrip (s : string) : string :=
  match s with
  | EmptyString => EmptyString
  | String c s' => if is_space c then lstrip s' else s
  end.

(** [s.rstrip()] *)
Definition rstrip (s : string) : string :=
  String.rev (lstrip (String.rev s)).

(** [s.strip()] *)
Definition strip (s : string) : string := rstrip (lstrip s).

Fixpoint lstrip_char (x : ascii) (s : string) : string :=
  match s with
  | EmptyString => EmptyString
  | String c s' => if Ascii.eqb c x then lstrip_char x s' else s
  end.

(** [s.rstrip(x)] for a one-character argument *)
Definition rstrip_char (x : ascii) (s : string) : string :=
  String.rev (lstrip_char x (String.rev s)).

(** [s[:n]] *)
Fixpoint take (n : nat) (s : string) : string :=
  match n, s with
  | S n', String c s' => String c (take n' s')
  | _, _ => EmptyString
  end.

(** [s[n:]] *)
Fixpoint drop (n : nat) (s : string) : string :=
  match n, s with
  | S n', String _ s' => drop n' s'
  | _, _ => s
  end.

(** [s.startswith(p)] *)
Definition startswith (p s : string) : bool := String.prefix p s.

(** [p in s] *)
Fixpoint contains (p s : string) : bool :=
  String.prefix p s ||
  match s with
  | EmptyString => false
  | String _ s' => contains p s'
  end.

(** [re.sub(r"\s+", " ", s)]: every maximal run of white space becomes
    one space. *)
Fixpoint collapse_from (in_run : bool) (s : string) : string :=
  match s with
  | EmptyString => EmptyString
  | String c s' =>
      if is_space c
      then (if in_run then collapse_from true s'
            else String " " (collapse_from true s'))
      else String c (collapse_from false s')
  end.

Definition collapse (s : string) : string := collapse_from false s.

(** [s.replace(old, new)] for a non-empty [old]; [skip] counts the
    bytes of a matched occurrence still to be passed over. *)
Fixpoint replace_from (skip : nat) (old new s : string) : string :=
  match s with
  | EmptyString => EmptyString
  | String c s' =>
      match skip with
      | S k => replace_from k old new s'
      | O =>
          if String.prefix old s
          then new +:+ replace_from (String.length old - 1) old new s'
          else String c (replace_from 0 old new s')
      end
  end.

Definition replace (old new s : string) : string :=
  replace_from 0 old new s.

End PyStr.

(** [clean] of the scrapper modules:
    [re.sub(r"\s+", " ", (s or "").strip())]. *)
Definition clean (s : string) : string := PyStr.collapse (PyStr.strip s).

(** ** The document model

    A parsed page is a tree of tags and text nodes.  A handle on a tag, as
    BeautifulSoup gives one, knows where the tag sits: a [loc] pairs the
    node with its ancestors, nearest first, so that [node.parent] is the
    head of the second component. *)

Module Dom.

#[local] Set Warnings "-register-all".

Inductive node :=
| Text (s : string)
| Elem (name : string) (attrs : list (string * string)) (kids : list node).

Definition loc : Type := node * list node.

Definition name_of (n : node) : string :=
  match n with
  | Text _ => ""
  | Elem name _ _ => name
  end.

(** [tag.get(k)] *)
Definition attr (k : string) (n : node) : option string :=
  match n with
  | Text _ => None
  | Elem _ attrs _ =>
      snd <$> List.find (fun kv => String.eqb kv.1 k) attrs
  end.

(** [node.parent if isinstance(node.parent, Tag) else None] *)
Definition parent (l : loc) : option loc :=
  match l.2 with
  | [] => None
  | p :: rest => Some (p, rest)
  end.

(** The proper descendants of [n], in document order, each with its
    ancestors; [ctx] holds the ancestors of [n]. *)
Fixpoint under (ctx : list node) (n : node) : list loc :=
  match n with
  | Text _ => []
  | Elem _ _ kids =>
      flat_map (fun k => (k, n :: ctx) :: under (n :: ctx) k) kids
  end.

Definition descendants (l : loc) : list loc := under l.2 l.1.

Definition is_tag (name : string) (n : node) : bool :=
  match n with
  | Text _ => false
  | Elem name' _ _ => String.eqb name' name
  end.

(** [tag.find(name)] *)
Definition find (name : string) (l : loc) : option loc :=
  List.find (fun d => is_tag name d.1) (descendants l).

(** [tag.select("a[href]")] *)
Definition select_a_href (l : loc) : list loc :=
  List.filter (fun d => is_tag "a" d.1 && bool_decide (is_Some (attr "href" d.1)))
              (descendants l).

(** [a.find_parent(names)], as a truth value *)
Definition has_parent (names : list string) (l : loc) : bool :=
  existsb (fun p => bool_decide (name_of p ∈ names)) l.2.

(** The text nodes under [n], in document order. *)
Fixpoint strings (n : node) : list string :=
  match n with
  | Text s => [s]
  | Elem _ _ kids => flat_map strings kids
  end.

Fixpoint join (sep : string) (xs : list string) : string :=
  match xs with
  | [] => ""
  | [x] => x
  | x :: rest => x +:+ sep +:+ join sep rest
  end.

(** [tag.get_text(sep, strip=True)] *)
Definition get_text_strip (sep : string) (n : node) : string :=
  join sep (List.filter (fun t => negb (String.eqb t ""))
                        (map PyStr.strip (strings n))).

(** [tag.get_text()] *)
Definition get_text (n : node) : string := join "" (strings n).

End Dom.

(** [dedup]: the first item of every reference, in order. *)
Fixpoint dedupe {A : Type} (ref_of : A -> string) (seen : gset string)
    (xs : list A) : list A :=
  match xs with
  | [] => []
  | x :: rest =>
      if bool_decide (ref_of x ∈ seen) then dedupe ref_of seen rest
      else x :: dedupe ref_of ({[ ref_of x ]} ∪ seen) rest
  end.

(** ** [apprenticeship/scrapper/ncs.py] *)

Module ApprenticeshipNcs.
Import Dom.

Definition BASE : string := "https://www.findapprenticeship.service.gov.uk".

Definition is_digit (c : ascii) : bool :=
  let n := nat_of_ascii c in (48 <=? n)%nat && (n <=? 57)%nat.

(** [\w] on the ASCII range *)
Definition is_word (c : ascii) : bool :=
  let n := nat_of_ascii c in
  is_digit c || ((65 <=? n)%nat && (n <=? 90)%nat)
  || ((97 <=? n)%nat && (n <=? 122)%nat) || (n =? 95)%nat.

Fixpoint digits_of (s : string) : string :=
  match s with
  | String c s' => if is_digit c then String c (digits_of s') else ""
  | EmptyString => ""
  end.

Definition upper_char (c : ascii) : ascii :=
  let n := nat_of_ascii c in
  if ((97 <=? n)%nat && (n <=? 122)%nat) then ascii_of_nat (n - 32) else c.

Fixpoint upper (s : string) : string :=
  match s with
  | EmptyString => EmptyString
  | String c s' => String (upper_char c) (upper s')
  end.

(** [VACANCY_PATH_RE.match(href)], group 1, for
    [^/apprenticeship/(VAC\d+)\b] with [re.I]: the digits are taken
    greedily, and no shorter run ends at a word boundary. *)
Definition vacancy_path (href : string) : option string :=
  if String.prefix "/apprenticeship/" (PyStr.lower href) then
    let rest := PyStr.drop 16 href in
    if String.prefix "vac" (PyStr.lower rest) then
      let digits := digits_of (PyStr.drop 3 rest) in
      if String.eqb digits "" then None
      else
        match PyStr.drop (3 + String.length digits) rest with
        | EmptyString => Some (PyStr.take 3 rest +:+ digits)
        | String c _ =>
            if is_word c then None else Some (PyStr.take 3 rest +:+ digits)
        end
    else None
  else None.

Definition PUNCT : list string := [ ","; "."; ";"; ":"; "-" ].

(** [PUNCT_ONLY_RE.match(ln)] for [^[\s,.;:–—-]+$] on a stripped line;
    the two dashes are three bytes each. *)
Fixpoint punct_run (fuel : nat) (s : string) : bool :=
  match fuel with
  | O => false
  | S fuel' =>
      match s with
      | EmptyString => true
      | String c s' =>
          if PyStr.is_space c || bool_decide (String c "" ∈ PUNCT)
          then punct_run fuel' s'
          else if String.prefix "–" s || String.prefix "—" s
          then punct_run fuel' (PyStr.drop 3 s)
          else false
      end
  end.

Definition punct_only (s : string) : bool :=
  negb (String.eqb s "") && punct_run (S (String.length s)) s.

Definition UI_SKIP_LINES : list string :=
  [ "skip to main content"; "print"; "contents"; "summary"; "work";
    "training"; "requirements"; "about this employer";
    "after this apprenticeship"; "ask a question"; "apply now";
    "account"; "menu" ].

(** The line terminators of [str.splitlines] on the ASCII range. *)
Definition is_linebreak (c : ascii) : bool :=
  let n := nat_of_ascii c in
  ((10 <=? n)%nat && (n <=? 13)%nat) || ((28 <=? n)%nat && (n <=? 30)%nat).

(** The pieces of [s] between line terminators, [cur] being the piece
    under way, reversed.  (A carriage return before a line feed gives
    an empty piece, which every caller drops.) *)
Fixpoint split_lines (cur : string) (s : string) : list string :=
  match s with
  | EmptyString => [String.rev cur]
  | String c s' =>
      if is_linebreak c then String.rev cur :: split_lines "" s'
      else split_lines (String c cur) s'
  end.

Definition _lines (n : node) : list string :=
  let raw := get_text_strip (String "010" "") n in
  List.filter
    (fun ln =>
       negb (String.eqb ln "") && negb (punct_only ln)
       && negb (bool_decide (PyStr.strip (PyStr.lower ln) ∈ UI_SKIP_LINES)))
    (map PyStr.strip (split_lines "" raw)).

(** [_find_after_label(lines, label)] *)
Fixpoint _find_after_label (lines : list string) (label : string) : string :=
  let base := PyStr.lower (PyStr.rstrip_char ":" (PyStr.strip label)) in
  match lines with
  | [] => ""
  | ln :: rest =>
      let t := clean ln in
      let low := PyStr.lower t in
      if String.eqb low base then
        match rest with
        | nxt :: _ => clean nxt
        | [] => ""
        end
      else if PyStr.startswith (base +:+ " ") low then
        clean (PyStr.drop (String.length label) t)
      else _find_after_label rest label
  end.

Record ListedVacancy := {
  vacancy_ref : string;
  url : string;
  title : string;
  employer_name : string;
  location_summary : string;
  start_date : string;
  training_course : string;
  wage : string;
  closing_text : string;
  posted_text : string;
}.

(** [_vac_refs_in_node(node)] *)
Definition _vac_refs_in_node (n : node) : gset string :=
  list_to_set
    (omap (fun a =>
             let href := default "" (attr "href" a.1) in
             if String.prefix "/apprenticeship/" href
             then upper <$> vacancy_path href
             else None)
          (select_a_href (n, []))).

Definition LABELS : list string :=
  [ "Start date"; "Training course"; "Wage"; "Closes"; "Posted" ].

(** One round of the loop of [_find_result_card] and the rounds after
    it, [fuel] rounds in all. *)
Fixpoint climb (fuel : nat) (node : option loc) (vacancy_ref : string)
  : option loc :=
  match fuel with
  | O => None
  | S fuel' =>
      match node with
      | None => None
      | Some l =>
          let refs := _vac_refs_in_node l.1 in
          let txt := get_text_strip " " l.1 in
          let hits :=
            length (List.filter (fun lab => PyStr.contains lab txt) LABELS) in
          if bool_decide (refs ≠ ∅) && bool_decide (refs = {[ vacancy_ref ]})
             && ((2 <=? hits)%nat
                 || bool_decide (name_of l.1 ∈
                                   ["article"; "li"; "section"; "div"]))
          then Some l
          else climb fuel' (parent l) vacancy_ref
      end
  end.

Definition _find_result_card (link : loc) (vacancy_ref : string)
  : option loc :=
  climb 15 (Some link) vacancy_ref.

(** [lines[i + k]] for [i = lines.index(title)], or the empty string *)
Fixpoint after_title (k : nat) (title : string) (lines : list string)
  : string :=
  match lines with
  | [] => ""
  | ln :: rest =>
      if String.eqb ln title then default "" (rest !! (k - 1))
      else after_title k title rest
  end.

(** The last line that starts with [word], provided the command's
    [if ... elif] reaches the test. *)
Definition last_starting (word : string) (skip : option string)
    (lines : list string) : string :=
  foldl (fun acc ln =>
           let low := PyStr.strip (PyStr.lower ln) in
           match skip with
           | Some w => if PyStr.startswith w low then acc
                       else if PyStr.startswith word low then ln else acc
           | None => if PyStr.startswith word low then ln else acc
           end)
        "" lines.

Section Listing.
(** [urllib.parse.urljoin(base, href)] *)
Variable urljoin : string -> string -> string.

Definition abs_url (href base : string) : string := urljoin base href.

Definition main_of (soup : node) : loc :=
  default (soup, []) (find "main" (soup, [])).

(** [_next_url(soup, current=current)] *)
Definition _next_url (soup : node) (current : string) : option string :=
  let main := main_of soup in
  match List.find (fun a => bool_decide (attr "rel" a.1 = Some "next"))
                  (select_a_href main) with
  | Some rel_next =>
      Some (abs_url (default "" (attr "href" rel_next.1)) current)
  | None =>
      (fun a => abs_url (default "" (attr "href" a.1)) current) <$>
      List.find (fun a => PyStr.startswith "next"
                            (PyStr.lower (clean (get_text a.1))))
                (select_a_href main)
  end.

(** The loop body of [_extract_vacancies_from_list] for one anchor. *)
Definition vacancy_of_anchor (a : loc) : option ListedVacancy :=
  let href := default "" (attr "href" a.1) in
  if String.prefix "/apprenticeship/" href then
    match vacancy_path href with
    | None => None
    | Some m =>
        let vacancy_ref := upper m in
        let title := clean (get_text_strip " " a.1) in
        match _find_result_card a vacancy_ref with
        | None => None
        | Some card =>
            let lines := _lines card.1 in
            let found :=
              negb (String.eqb title "") && bool_decide (title ∈ lines) in
            Some {| vacancy_ref := vacancy_ref;
                    url := abs_url href BASE;
                    title := title;
                    employer_name :=
                      if found then after_title 1 title lines else "";
                    location_summary :=
                      if found then after_title 2 title lines else "";
                    start_date := _find_after_label lines "Start date";
                    training_course :=
                      _find_after_label lines "Training course";
                    wage := _find_after_label lines "Wage";
                    closing_text := last_starting "closes" None lines;
                    posted_text :=
                      last_starting "posted" (Some "closes") lines |}
        end
    end
  else None.

Definition _extract_vacancies_from_list (soup : node) : list ListedVacancy :=
  dedupe vacancy_ref ∅
         (omap vacancy_of_anchor (select_a_href (main_of soup))).

End Listing.

End ApprenticeshipNcs.

(** ** [job/scrapper/ncs.py] *)

Module JobNcs.
Import Dom.

Definition BASE : string := "https://findajob.dwp.gov.uk".

(** [DETAILS_RE.search(href)], group 1, for
    [(?:https?://findajob\.dwp\.gov\.uk)?/?details/(\d+)] with [re.I].
    The optional host and slash only move the start of the match: the
    group is the longest run of digits after the first [details/] that
    a digit follows. *)
Fixpoint details_id (href : string) : option string :=
  match href with
  | EmptyString => None
  | String _ rest =>
      let digits := ApprenticeshipNcs.digits_of (PyStr.drop 8 href) in
      if String.prefix "details/" (PyStr.lower href)
         && negb (String.eqb digits "")
      then Some digits
      else details_id rest
  end.

(** [_norm_apostrophes] *)
Definition _norm_apostrophes (s : string) : string :=
  if String.eqb s "" then ""
  else
    PyStr.replace "′" "'"
      (PyStr.replace "‛" "'"
         (PyStr.replace "‘" "'"
            (PyStr.replace "’" "'" s))).

Definition label_prefixes : list string :=
  [ "posting date"; "hours"; "closing date"; "location"; "company";
    "job type"; "job reference"; "salary"; "remote working";
    "additional salary information"; "disability confident" ].

(** [_is_label_line] *)
Definition _is_label_line (t : string) : bool :=
  let low := PyStr.lower (_norm_apostrophes (clean t)) in
  existsb (fun lab => PyStr.startswith lab low) label_prefixes.

Definition has_newline (s : string) : bool :=
  PyStr.contains (String "010" "") s.

(** Group 1 of the [re.match] in [_find_after_label], for a stripped
    [t]: the pattern is the escaped label, white space, an optional
    colon, white space, and a group that runs to the end of the text,
    matched case-insensitively.  After the label the white space, one
    colon if there is one, and the white space after it are consumed;
    the group is what is left, and it has to reach the end of [t]
    without a line feed. *)
Definition match_label (base t : string) : option string :=
  if String.prefix (PyStr.lower base) (PyStr.lower t) then
    let r := PyStr.lstrip (PyStr.drop (String.length base) t) in
    let r := match r with
             | String ":" r' => r'
             | _ => r
             end in
    let r := PyStr.lstrip r in
    if has_newline r then None else Some r
  else None.

(** The loop of [_find_after_label] over the lines from some index on. *)
Fixpoint find_after (base : string) (lines : list string) : string :=
  match lines with
  | [] => ""
  | ln :: rest =>
      let t := PyStr.strip (_norm_apostrophes ln) in
      if String.eqb t "" then find_after base rest
      else
        match match_label base t with
        | None => find_after base rest
        | Some g =>
            let inline_val := clean g in
            if negb (String.eqb inline_val "") then inline_val
            else
              match rest with
              | [] => ""
              | nxt_line :: _ =>
                  let nxt := PyStr.strip (_norm_apostrophes nxt_line) in
                  if negb (String.eqb nxt "") && negb (_is_label_line nxt)
                  then clean nxt
                  else ""
              end
        end
  end.

(** [_find_after_label(lines, label)] *)
Definition _find_after_label (lines : list string) (label : string) : string :=
  let base :=
    PyStr.lower (_norm_apostrophes (PyStr.rstrip_char ":" (PyStr.strip label))) in
  find_after base lines.

(** The listing stub, [ListedJob]; its flag [disability_confident]
    (default [False]) is carried under the name
    [disability_confident_stub]. *)
Record ListedJob := {
  job_id : string;
  url : string;
  title : string;
  posting_date : string;
  company : string;
  location : string;
  salary : string;
  remote_working : string;
  job_type : string;
  hours : string;
  listing_snippet : string;
  disability_confident_stub : bool;
}.

(** [_job_ids_in_node(node)] *)
Definition _job_ids_in_node (n : node) : gset string :=
  list_to_set
    (omap (fun a => details_id (default "" (attr "href" a.1)))
          (select_a_href (n, []))).

(** One round of the loop of [_find_result_card] and the rounds after
    it, [fuel] rounds in all. *)
Fixpoint climb (fuel : nat) (node : option loc) (job_id : string)
  : option loc :=
  match fuel with
  | O => None
  | S fuel' =>
      match node with
      | None => None
      | Some l =>
          let ids := _job_ids_in_node l.1 in
          if bool_decide (ids ≠ ∅) && bool_decide (ids = {[ job_id ]})
          then Some l
          else climb fuel' (parent l) job_id
      end
  end.

Definition _find_result_card (link : loc) (job_id : string) : option loc :=
  climb 15 (Some link) job_id.

(** What the pickers of the listing read off a card
    ([_first_match], [_pick_company_location], [_pick_salary],
    [_pick_from_set], [_pick_snippet_from_card], [_pick_snippet]). *)
Record CardFields := {
  picked_posting_date : string;
  picked_company : string;
  picked_location : string;
  picked_salary : string;
  picked_remote_working : string;
  picked_job_type : string;
  picked_hours : string;
  picked_snippet : string;
}.

Section Listing.
(** [urllib.parse.urljoin(base, href)] *)
Variable urljoin : string -> string -> string.
(** The pickers, applied to a card and the title of its link. *)
Variable read_card : node -> string -> CardFields.

Definition abs_url (href base : string) : string := urljoin base href.

Definition main_of (soup : node) : loc :=
  default (soup, []) (find "main" (soup, [])).

(** [_next_url(soup, current=current)] *)
Definition _next_url (soup : node) (current : string) : option string :=
  let main := main_of soup in
  match List.find (fun a => bool_decide (attr "rel" a.1 = Some "next"))
                  (select_a_href main) with
  | Some a =>
      if negb (String.eqb (default "" (attr "href" a.1)) "")
      then Some (abs_url (default "" (attr "href" a.1)) current)
      else
        (fun l => abs_url (default "" (attr "href" l.1)) current) <$>
        List.find (fun l => PyStr.startswith "next"
                              (PyStr.lower (clean (get_text_strip " " l.1))))
                  (select_a_href main)
  | None =>
      (fun l => abs_url (default "" (attr "href" l.1)) current) <$>
      List.find (fun l => PyStr.startswith "next"
                            (PyStr.lower (clean (get_text_strip " " l.1))))
                (select_a_href main)
  end.

(** The loop body of [_extract_jobs_from_list] for one anchor. *)
Definition job_of_anchor (a : loc) : option ListedJob :=
  let href := default "" (attr "href" a.1) in
  match details_id href with
  | None => None
  | Some job_id =>
      if negb (has_parent ["h2"; "h3"; "h4"] a) then None
      else
        let title := clean (get_text_strip " " a.1) in
        if String.eqb title "" then None
        else
          match _find_result_card a job_id with
          | None => None
          | Some card =>
              let f := read_card card.1 title in
              Some {| job_id := job_id;
                      url := abs_url href BASE;
                      title := title;
                      posting_date := picked_posting_date f;
                      company := picked_company f;
                      location := picked_location f;
                      salary := picked_salary f;
                      remote_working := picked_remote_working f;
                      job_type := picked_job_type f;
                      hours := picked_hours f;
                      listing_snippet := picked_snippet f;
                      disability_confident_stub := false |}
          end
  end.

Definition _extract_jobs_from_list (soup : node) : list ListedJob :=
  dedupe job_id ∅ (omap job_of_anchor (select_a_href (main_of soup))).

End Listing.

End JobNcs.

(** ** Page iteration, shared by the clients

    [fetch] is [self.soup(url)]; [next_url] is [self._next_url].  The
    generator is run with a bound on the number of pages it may request:
    the result is [None] when the bound is reached, and otherwise the
    pages yielded together with the exception that ended the iteration,
    if one did. *)

Section Pages.
Variable fetch : string -> string + Dom.node.
Variable next_url : Dom.node -> string -> option string.

Fixpoint iter_pages_from (fuel : nat) (seen : gset string)
    (url : option string) : option (list (string * Dom.node) * option string) :=
  match url with
  | None => Some ([], None)
  | Some u =>
      (* while url and url not in seen *)
      if String.eqb u "" || bool_decide (u ∈ seen) then Some ([], None)
      else
        match fuel with
        | O => None
        | S fuel' =>
            match fetch u with
            | inl e => Some ([], Some e)
            | inr s =>
                match iter_pages_from fuel' ({[ u ]} ∪ seen) (next_url s u) with
                | None => None
                | Some (pages, raised) => Some ((u, s) :: pages, raised)
                end
            end
        end
  end.

Definition iter_pages (fuel : nat) (start_url : string) :=
  iter_pages_from fuel ∅ (Some start_url).

(** [iter_all_*]: the items of every page, in page order. *)
Definition iter_all {A : Type} (extract : Dom.node -> list A)
    (fuel : nat) (start_url : string) : option (list A * option string) :=
  match iter_pages fuel start_url with
  | None => None
  | Some (pages, raised) => Some (flat_map (fun p => extract p.2) pages, raised)
  end.

End Pages.

(** ** Stored rows, the audit table and the world

    [ApprenticeshipVacancy] and [DwpJob] rows are keyed by their external
    reference.  The character columns of a row are a finite map from the
    column name; a column the map does not mention holds the model default
    (the empty string). *)

Record Row := {
  cols : gmap string string;
  disability_confident : bool;            (* [DwpJob] only *)
  scraped_at : Z;                         (* [auto_now] *)
  last_checked_at : option Z;
  last_scrape_status : string;
  last_scrape_message : string;
  last_scrape_run_id : option nat;
}.

(** [getattr(obj, k)] for a character column. *)
Definition col (r : Row) (k : string) : string := default "" (cols r !! k).

(** [setattr(obj, k, v)] for a character column. *)
Definition set_col (k v : string) (r : Row) : Row :=
  {| cols := <[k := v]> (cols r);
     disability_confident := disability_confident r;
     scraped_at := scraped_at r;
     last_checked_at := last_checked_at r;
     last_scrape_status := last_scrape_status r;
     last_scrape_message := last_scrape_message r;
     last_scrape_run_id := last_scrape_run_id r |}.

(** A row of [ApprenticeshipScrapeLog] / [JobScrapeLog]. *)
Record LogEntry := {
  log_run_id : nat;
  log_category : string;
  log_keyword : string;                   (* the subcategory *)
  log_start_url : string;
  log_ref : string;
  log_status : string;
  log_message : string;
}.

(** The state outside the command: the table of rows, the audit table,
    the number of clock reads so far, and the calls made to the detail
    fetcher and to the image service, in order. *)
Record World := {
  db : gmap string Row;
  log : list LogEntry;
  tick : nat;
  detail_fetches : list string;
  image_calls : list string;
}.

(** What the command calls outside itself. *)
Record Env := {
  clock : nat -> Z;
  (** [client.scrape_*_detail(url)]: the text columns and, for a job, the
      [disability_confident] flag; [inl] is a raised exception. *)
  scrape_detail : string -> string + (gmap string string * bool);
  (** [generate_*_image_and_upload]: reference, title, employer. *)
  generate_image : string -> string -> string -> string + string;
  (** [_build_search_url(subcategory)] / [build_search_url(subcategory)],
      which rests on [urllib.parse.urlencode]. *)
  build_search_url : string -> string;
}.

Definition set_db (d : gmap string Row) (w : World) : World :=
  {| db := d; log := log w; tick := tick w;
     detail_fetches := detail_fetches w; image_calls := image_calls w |}.

(** [ScrapeLog.objects.create(...)] *)
Definition append_log (e : LogEntry) (w : World) : World :=
  {| db := db w; log := log w ++ [e]; tick := tick w;
     detail_fetches := detail_fetches w; image_calls := image_calls w |}.

(** [timezone.now()] *)
Definition read_clock (env : Env) (w : World) : Z * World :=
  (clock env (tick w),
   {| db := db w; log := log w; tick := S (tick w);
      detail_fetches := detail_fetches w; image_calls := image_calls w |}).

Definition note_fetch (u : string) (w : World) : World :=
  {| db := db w; log := log w; tick := tick w;
     detail_fetches := detail_fetches w ++ [u]; image_calls := image_calls w |}.

Definition note_image_call (ref : string) (w : World) : World :=
  {| db := db w; log := log w; tick := tick w;
     detail_fetches := detail_fetches w; image_calls := image_calls w ++ [ref] |}.

(** The names of the ingestion metadata columns. *)
Definition meta_columns : list string :=
  [ "scraped_at"; "last_checked_at"; "last_scrape_run_id";
    "last_scrape_status"; "last_scrape_message"; "disability_confident" ].

(** [obj.save(update_fields=fields)]: the columns named in [fields] are
    copied from the in-memory object [obj] to the stored row [row]; a
    listed [scraped_at] is stamped with the time of the save. *)
Definition save_fields (fields : list string) (stamp : Z) (obj row : Row) : Row :=
  {| cols :=
       foldr (fun k c =>
                if bool_decide (k ∈ meta_columns) then c
                else <[k := col obj k]> c)
             (cols row) fields;
     disability_confident :=
       if bool_decide ("disability_confident" ∈ fields)
       then disability_confident obj else disability_confident row;
     scraped_at :=
       if bool_decide ("scraped_at" ∈ fields) then stamp else scraped_at row;
     last_checked_at :=
       if bool_decide ("last_checked_at" ∈ fields)
       then last_checked_at obj else last_checked_at row;
     last_scrape_status :=
       if bool_decide ("last_scrape_status" ∈ fields)
       then last_scrape_status obj else last_scrape_status row;
     last_scrape_message :=
       if bool_decide ("last_scrape_message" ∈ fields)
       then last_scrape_message obj else last_scrape_message row;
     last_scrape_run_id :=
       if bool_decide ("last_scrape_run_id" ∈ fields)
       then last_scrape_run_id obj else last_scrape_run_id row |}.

(** [obj.save()]: every column of the in-memory object is written. *)
Definition save_all (stamp : Z) (obj : Row) : Row :=
  {| cols := cols obj;
     disability_confident := disability_confident obj;
     scraped_at := stamp;
     last_checked_at := last_checked_at obj;
     last_scrape_status := last_scrape_status obj;
     last_scrape_message := last_scrape_message obj;
     last_scrape_run_id := last_scrape_run_id obj |}.

(** [",".join(xs)] *)
Fixpoint join_comma (xs : list string) : string :=
  match xs with
  | [] => ""
  | [x] => x
  | x :: rest => x +:+ "," +:+ join_comma rest
  end.

(** The four assignments [obj.last_checked_at = now],
    [obj.last_scrape_run_id = run_id], [obj.last_scrape_status = status],
    [obj.last_scrape_message = message]. *)
Definition stamp_meta (checked : Z) (run_id : nat) (status message : string)
    (r : Row) : Row :=
  {| cols := cols r;
     disability_confident := disability_confident r;
     scraped_at := scraped_at r;
     last_checked_at := Some checked;
     last_scrape_status := status;
     last_scrape_message := message;
     last_scrape_run_id := Some run_id |}.

(** [a or b] on strings. *)
Definition py_or (a b : string) : string := if String.eqb a "" then b else a.

Definition mk_log (run_id : nat) (category subcategory start_url ref
    status message : string) : LogEntry :=
  {| log_run_id := run_id; log_category := category;
     log_keyword := subcategory; log_start_url := start_url;
     log_ref := ref; log_status := status; log_message := message |}.

(** ** Apprenticeship vertical: merge and upsert *)

Module Apprenticeship.
Import ApprenticeshipNcs.

(** The placeholder vocabulary of [_is_emptyish]. *)
Definition placeholders : list string :=
  [ "-"; "—"; "n/a"; "na"; "not available"; "not applicable";
    "tbc"; "to be confirmed"; "competitive" ].

Definition _is_emptyish (val : string) : bool :=
  let v := PyStr.lower (PyStr.strip val) in
  if String.eqb v "" then true
  else bool_decide (v ∈ placeholders).

(** One line of the merge block of [_process_one]:
    [if _is_emptyish(details.get(k, "")) and v: details[k] = v]. *)
Definition fill (k v : string) (details : gmap string string)
  : gmap string string :=
  if _is_emptyish (default "" (details !! k)) && negb (String.eqb v "")
  then <[k := v]> details
  else details.

(** The merge block of [_process_one], in source order. *)
Definition merge (listed : ListedVacancy) (details : gmap string string)
  : gmap string string :=
  let d := fill "title" (title listed) details in
  let d := fill "employer_name" (employer_name listed) d in
  let d := fill "location_summary" (location_summary listed) d in
  let d := fill "closing_text" (closing_text listed) d in
  let d := fill "posted_text" (posted_text listed) d in
  let d := fill "start_date" (start_date listed) d in
  let d := fill "training_course" (training_course listed) d in
  fill "wage" (wage listed) d.

(** The fields a listing stub shares with a detail record. *)
Definition listed_field (listed : ListedVacancy) (k : string)
  : option string :=
  if String.eqb k "title" then Some (title listed)
  else if String.eqb k "employer_name" then Some (employer_name listed)
  else if String.eqb k "location_summary" then Some (location_summary listed)
  else if String.eqb k "closing_text" then Some (closing_text listed)
  else if String.eqb k "posted_text" then Some (posted_text listed)
  else if String.eqb k "start_date" then Some (start_date listed)
  else if String.eqb k "training_course" then Some (training_course listed)
  else if String.eqb k "wage" then Some (wage listed)
  else None.

(** The data columns of [new_vals] after [vacancy_url], in the order of
    the dict literal, each with the slice bound applied to it
    ([None]: a [TextField], stored whole). *)
Definition data_columns : list (string * option nat) :=
  [ ("title", Some 500); ("employer_name", Some 500);
    ("location_summary", Some 255); ("closing_text", Some 255);
    ("posted_text", Some 255);
    ("summary_text", None); ("wage", Some 255); ("wage_extra", None);
    ("training_course", Some 500); ("hours", Some 500);
    ("hours_per_week", Some 64); ("start_date", Some 255);
    ("duration", Some 255); ("positions_available", Some 64);
    ("work_intro", None); ("what_youll_do_heading", Some 255);
    ("what_youll_do_items", None); ("where_youll_work_name", Some 500);
    ("where_youll_work_address", None);
    ("training_intro", None); ("training_provider", Some 500);
    ("training_course_repeat", Some 500); ("what_youll_learn_items", None);
    ("training_schedule", None); ("more_training_information", None);
    ("essential_qualifications", None); ("skills_items", None);
    ("other_requirements_items", None);
    ("about_employer", None); ("employer_website", Some 1000);
    ("company_benefits_items", None);
    ("after_this_apprenticeship", None); ("contact_name", Some 500) ].

Definition cut (bound : option nat) (s : string) : string :=
  match bound with
  | Some n => PyStr.take n s
  | None => s
  end.

(** The character entries of [new_vals], in dict order.  The two
    entries [last_checked_at] and [last_scrape_run_id], which the
    comparison loop passes over, are the arguments [now] and [run_id]
    of the functions below. *)
Definition new_vals (vacancy_url : string) (data : gmap string string)
    (category subcategory : string) : list (string * string) :=
  ("vacancy_url", PyStr.take 1000 vacancy_url)
    :: map (fun kw => (kw.1, cut kw.2 (default "" (data !! kw.1))))
           data_columns
    ++ (if String.eqb category "" then []
        else [("category", PyStr.take 255 category)])
    ++ (if String.eqb subcategory "" then []
        else [("subcategory", PyStr.take 255 subcategory)]).

(** [if c and not (obj.<k> or "").strip(): obj.<k> = c[:255];
     changed_fields.append(k)] *)
Definition backfill (k c : string) (st : Row * list string)
  : Row * list string :=
  if negb (String.eqb c "") && String.eqb (PyStr.strip (col st.1 k)) ""
  then (set_col k (PyStr.take 255 c) st.1, st.2 ++ [k])
  else st.

(** One round of [for field, val in new_vals.items()]. *)
Definition compare_field (st : Row * list string) (fv : string * string)
  : Row * list string :=
  if String.eqb (col st.1 fv.1) fv.2 then st
  else (set_col fv.1 fv.2 st.1, st.2 ++ [fv.1]).

(** The in-memory object and [changed_fields] after the back-fills and
    the comparison loop. *)
Definition diff_row (nv : list (string * string))
    (category subcategory : string) (obj : Row) : Row * list string :=
  foldl compare_field
        (backfill "subcategory" subcategory
           (backfill "category" category (obj, [])))
        nv.

(** [_upsert_smart]: the new world and the pair [(status, message)]. *)
Definition _upsert_smart (env : Env)
    (vacancy_ref vacancy_url : string) (data : gmap string string)
    (category subcategory : string) (run_id : nat) (w : World)
  : World * (string * string) :=
  let '(now, w) := read_clock env w in
  let nv := new_vals vacancy_url data category subcategory in
  match db w !! vacancy_ref with
  | None =>
      (* get_or_create inserts the defaults; scraped_at is auto_now *)
      let '(inserted_at, w) := read_clock env w in
      let obj :=
        {| cols := list_to_map nv;
           disability_confident := false;
           scraped_at := inserted_at;
           last_checked_at := Some now;
           last_scrape_status := "";
           last_scrape_message := "";
           last_scrape_run_id := Some run_id |} in
      let obj' := stamp_meta now run_id "created" "" obj in
      let row :=
        save_fields ["last_scrape_status"; "last_scrape_message"]
                    inserted_at obj' obj in
      (set_db (<[vacancy_ref := row]> (db w)) w, ("created", ""))
  | Some stored =>
      let '(obj, changed_fields) := diff_row nv category subcategory stored in
      match changed_fields with
      | [] =>
          let obj := stamp_meta now run_id "skipped" "" obj in
          let row :=
            save_fields ["last_checked_at"; "last_scrape_run_id";
                         "last_scrape_status"; "last_scrape_message"]
                        (scraped_at stored) obj stored in
          (set_db (<[vacancy_ref := row]> (db w)) w, ("skipped", ""))
      | _ :: _ =>
          let msg := "changed_fields=" +:+ join_comma changed_fields in
          let obj := stamp_meta now run_id "updated" msg obj in
          let '(saved_at, w) := read_clock env w in
          let row :=
            save_fields (changed_fields ++
                           ["scraped_at"; "last_checked_at";
                            "last_scrape_run_id"; "last_scrape_status";
                            "last_scrape_message"])
                        saved_at obj stored in
          (set_db (<[vacancy_ref := row]> (db w)) w, ("updated", msg))
      end
  end.

(** [_model_field_names(ApprenticeshipVacancy)] *)
Definition vacancy_fields : list string :=
  [ "id"; "vacancy_ref"; "vacancy_url"; "image_url"; "category";
    "subcategory" ] ++ map fst data_columns ++
  [ "scraped_at"; "last_checked_at"; "last_scrape_status";
    "last_scrape_message"; "last_scrape_run_id" ].

(** [image_field = "image_url" if "image_url" in vacancy_fields else None] *)
Definition image_field : option string :=
  if bool_decide ("image_url" ∈ vacancy_fields) then Some "image_url"
  else None.

(** The image block of [_process_one], entered when images are enabled
    and the model has an image column [f]. *)
Definition image_step (env : Env) (listed : ListedVacancy) (run_id : nat)
    (category subcategory start_url : string) (refresh_images : bool)
    (f : string) (w : World) : World :=
  let image_error msg :=
    mk_log run_id category subcategory start_url (vacancy_ref listed)
           "image_error" msg in
  match db w !! vacancy_ref listed with
  | None =>
      append_log
        (image_error "ApprenticeshipVacancy matching query does not exist.") w
  | Some obj =>
      let existing_url := PyStr.strip (col obj f) in
      if refresh_images || String.eqb existing_url "" then
        let title_for_img :=
          PyStr.strip (py_or (col obj "title") (title listed)) in
        let employer_for_img :=
          PyStr.strip (py_or (col obj "employer_name") (employer_name listed)) in
        if String.eqb title_for_img "" then w
        else
          let w := note_image_call (vacancy_ref listed) w in
          match generate_image env (vacancy_ref listed)
                               title_for_img employer_for_img with
          | inl e => append_log (image_error e) w
          | inr cloud_url =>
              let cloud_url := PyStr.strip cloud_url in
              if negb (String.eqb cloud_url "")
                 && negb (String.eqb cloud_url existing_url)
              then
                let row := save_fields [f] (scraped_at obj)
                                       (set_col f cloud_url obj) obj in
                set_db (<[vacancy_ref listed := row]> (db w)) w
              else w
          end
      else w
  end.

(** [_process_one]: the new world and the returned status. *)
Definition _process_one (env : Env) (listed : ListedVacancy) (run_id : nat)
    (category subcategory start_url : string)
    (no_images refresh_images : bool) (image_field : option string)
    (w : World) : World * string :=
  let w := note_fetch (url listed) w in
  match scrape_detail env (url listed) with
  | inl e =>
      (append_log
         (mk_log run_id category subcategory start_url
                 (vacancy_ref listed) "error" e) w,
       "error")
  | inr (details, _) =>
      let details := merge listed details in
      let '(w, (status, msg)) :=
        _upsert_smart env (vacancy_ref listed) (url listed) details
                      category subcategory run_id w in
      let w :=
        match image_field with
        | Some f =>
            if negb no_images
            then image_step env listed run_id category subcategory
                            start_url refresh_images f w
            else w
        | None => w
        end in
      (append_log
         (mk_log run_id category subcategory start_url
                 (vacancy_ref listed) status msg) w,
       status)
  end.

End Apprenticeship.

(** ** Job vertical: the body of the innermost loop of [Command.handle] *)

Module Job.
Import JobNcs.

(** [_model_field_names(DwpJob)] *)
Definition job_fields : list string :=
  [ "id"; "job_id"; "category"; "subcategory"; "job_url"; "apply_url";
    "image_url"; "title"; "company"; "location"; "posting_date";
    "closing_date"; "hours"; "job_type"; "job_reference"; "salary";
    "remote_working"; "additional_salary_information";
    "disability_confident"; "listing_snippet"; "summary_intro";
    "summary_bullets"; "what_youll_do"; "skills_youll_need"; "raw_text";
    "scraped_at"; "last_checked_at"; "last_scrape_status";
    "last_scrape_message"; "last_scrape_run_id" ].

(** [fill_if_empty(k, v)]:
    [if merged.get(k) in ("", None): merged[k] = v]. *)
Definition fill_if_empty (k v : string) (merged : gmap string string)
  : gmap string string :=
  match merged !! k with
  | None => <[k := v]> merged
  | Some d => if String.eqb d "" then <[k := v]> merged else merged
  end.

(** The merge block, from [merged = dict(details)] to
    [merged["subcategory"] = subcategory]. *)
Definition merge (listed : ListedJob) (category subcategory : string)
    (details : gmap string string) : gmap string string :=
  let m := fill_if_empty "title" (title listed) details in
  let m := fill_if_empty "posting_date" (posting_date listed) m in
  let m := fill_if_empty "company" (company listed) m in
  let m := fill_if_empty "location" (location listed) m in
  let m := fill_if_empty "salary" (salary listed) m in
  let m := fill_if_empty "remote_working" (remote_working listed) m in
  let m := fill_if_empty "job_type" (job_type listed) m in
  let m := fill_if_empty "hours" (hours listed) m in
  let m := if String.eqb (listing_snippet listed) "" then m
           else <["listing_snippet" := listing_snippet listed]> m in
  let m := <["job_url" := url listed]> m in
  let m := <["category" := category]> m in
  <["subcategory" := subcategory]> m.

(** [if c and not (obj.<k> or "").strip(): obj.<k> = c;
     changed_fields.append(k)] *)
Definition backfill (k c : string) (st : Row * list string)
  : Row * list string :=
  if negb (String.eqb c "") && String.eqb (PyStr.strip (col st.1 k)) ""
  then (set_col k c st.1, st.2 ++ [k])
  else st.

(** One round of [for k, v in safe_vals.items()]. *)
Definition compare_field (st : Row * list string) (kv : string * string)
  : Row * list string :=
  if String.eqb kv.1 "category" || String.eqb kv.1 "subcategory" then st
  else if String.eqb (col st.1 kv.1) kv.2 then st
  else (set_col kv.1 kv.2 st.1, st.2 ++ [kv.1]).

(** The round of that loop for the key [disability_confident]. *)
Definition compare_flag (flag : bool) (st : Row * list string)
  : Row * list string :=
  if eqb (disability_confident st.1) flag then st
  else ({| cols := cols st.1;
           disability_confident := flag;
           scraped_at := scraped_at st.1;
           last_checked_at := last_checked_at st.1;
           last_scrape_status := last_scrape_status st.1;
           last_scrape_message := last_scrape_message st.1;
           last_scrape_run_id := last_scrape_run_id st.1 |},
        st.2 ++ ["disability_confident"]).

(** The block under [if not was_created]: the in-memory object and
    [changed_fields].  The command uses [changed_fields] for its
    emptiness and as a set, so the order in which the keys of
    [safe_vals] are met is immaterial. *)
Definition diff_row (safe_vals : gmap string string) (flag : bool)
    (category subcategory : string) (obj : Row) : Row * list string :=
  compare_flag flag
    (foldl compare_field
           (backfill "subcategory" subcategory
              (backfill "category" category (obj, [])))
           (map_to_list safe_vals)).

(** The image block. *)
Definition image_step (env : Env) (listed : ListedJob) (run_id : nat)
    (category subcategory start_url : string)
    (safe_vals : gmap string string)
    (st : Row * list string) (w : World) : (Row * list string) * World :=
  let title_for_img :=
    PyStr.strip (py_or (default "" (safe_vals !! "title"))
                       (py_or (col st.1 "title") (title listed))) in
  if String.eqb title_for_img "" then (st, w)
  else
    let w := note_image_call (job_id listed) w in
    match generate_image env (job_id listed) title_for_img "" with
    | inl e =>
        (st, append_log (mk_log run_id category subcategory start_url
                                (job_id listed) "image_error" e) w)
    | inr img_url =>
        if negb (String.eqb img_url "")
           && negb (String.eqb (col st.1 "image_url") img_url)
        then ((set_col "image_url" img_url st.1, st.2 ++ ["image_url"]), w)
        else (st, w)
    end.

(** [DwpJob.objects.get_or_create(job_id=job_id, defaults=safe_vals)]:
    the row, [was_created], and the world after a possible insert. *)
Definition get_or_create (env : Env) (job_id : string)
    (safe_vals : gmap string string) (flag : bool) (w : World)
  : Row * bool * World :=
  match db w !! job_id with
  | Some row => (row, false, w)
  | None =>
      let '(inserted_at, w) := read_clock env w in
      let row :=
        {| cols := safe_vals;
           disability_confident := flag;
           scraped_at := inserted_at;
           last_checked_at := None;
           last_scrape_status := "";
           last_scrape_message := "";
           last_scrape_run_id := None |} in
      (row, true, set_db (<[job_id := row]> (db w)) w)
  end.

(** From [if was_created: status = "created"] to the terminal
    [log_row]: the status, the stamps, the save and the audit row. *)
Definition settle (env : Env) (run_id : nat)
    (category subcategory start_url job_id : string)
    (stored : Row) (was_created : bool) (st : Row * list string)
    (w : World) : World * string :=
  let status :=
    if was_created then "created"
    else match st.2 with
         | _ :: _ => "updated"
         | [] => "skipped"
         end in
  let '(now, w) := read_clock env w in
  let obj := stamp_meta now run_id status "" st.1 in
  let '(saved_at, w) := read_clock env w in
  let row :=
    if was_created
    then save_all saved_at obj
    else save_fields (st.2 ++ ["last_checked_at"; "last_scrape_run_id";
                               "last_scrape_status";
                               "last_scrape_message"; "scraped_at"])
                     saved_at obj stored in
  (append_log (mk_log run_id category subcategory start_url job_id status "")
              (set_db (<[job_id := row]> (db w)) w),
   status).

(** The body of [for listed in client.iter_all_jobs(...)] after the
    [seen_job_ids] test: the new world and the status counted. *)
Definition process_listed (env : Env) (no_images : bool) (run_id : nat)
    (category subcategory start_url : string) (listed : ListedJob)
    (w : World) : World * string :=
  let w := note_fetch (url listed) w in
  match scrape_detail env (url listed) with
  | inl e =>
      (append_log (mk_log run_id category subcategory start_url
                          (job_id listed) "error" e) w,
       "error")
  | inr (details, flag) =>
      let merged := merge listed category subcategory details in
      let safe_vals :=
        filter (fun kv => kv.1 ∈ job_fields) merged in
      let '(stored, was_created, w) :=
        get_or_create env (job_id listed) safe_vals flag w in
      let st :=
        if was_created then (stored, [])
        else diff_row safe_vals flag category subcategory stored in
      let '(st, w) :=
        if negb no_images && bool_decide ("image_url" ∈ job_fields)
        then image_step env listed run_id category subcategory start_url
                        safe_vals st w
        else (st, w) in
      settle env run_id category subcategory start_url (job_id listed)
             stored was_created st w
  end.

End Job.

(** ** The orchestration loop of [Command.handle]

    The two commands run the same nest of loops: categories, their
    subcategories, and the items the listing crawl yields for the start
    URL of a subcategory.  The loop is written once, over the item type
    [Item] of a vertical, its reference [ref_of] and the per-item
    processing [process] ([_process_one], or the inlined body of the job
    command).  [listing u] is [client.iter_all_*(start_url=u)] as the
    items it yields. *)

Record Run (Item : Type) := {
  world : World;
  seen : gset string;                       (* seen_refs / seen_job_ids *)
  created_count : nat;
  updated_count : nat;
  skipped_count : nat;
  error_count : nat;
  taken : list Item;     (* the items handed to [process], in order *)
}.
Arguments world {Item} _.
Arguments seen {Item} _.
Arguments created_count {Item} _.
Arguments updated_count {Item} _.
Arguments skipped_count {Item} _.
Arguments error_count {Item} _.
Arguments taken {Item} _.

Section Orchestrator.
Context {Item : Type}.
Variable ref_of : Item -> string.
(** category, subcategory, start URL, item *)
Variable process : string -> string -> string -> Item -> World -> World * string.
Variable listing : string -> list Item.
Variable search_url : string -> string.
Variable max_rows : Z.

(** [should_stop()] *)
Definition should_stop (r : Run Item) : bool :=
  (0 <? max_rows)%Z
  && (max_rows <=? Z.of_nat (created_count r + updated_count r))%Z.

(** The counter updates that follow the processing of one item. *)
Definition count (status : string) (w : World) (x : Item) (r : Run Item)
  : Run Item :=
  let c := created_count r in
  let u := updated_count r in
  let k := skipped_count r in
  let e := error_count r in
  let mk c u k e :=
    {| world := w; seen := {[ ref_of x ]} ∪ seen r;
       created_count := c; updated_count := u;
       skipped_count := k; error_count := e;
       taken := taken r ++ [x] |} in
  if String.eqb status "created" then mk (S c) u k e
  else if String.eqb status "updated" then mk c (S u) k e
  else if String.eqb status "skipped" then mk c u (S k) e
  else mk c u k (S e).

(** The body of the item loop after the [should_stop] test. *)
Definition visit (category subcategory start_url : string)
    (r : Run Item) (x : Item) : Run Item :=
  if bool_decide (ref_of x ∈ seen r) then r
  else
    let '(w, status) := process category subcategory start_url x (world r) in
    count status w x r.

(** [for listed in client.iter_all_*(start_url=start_url)] *)
Fixpoint each_item (category subcategory start_url : string)
    (items : list Item) (r : Run Item) : Run Item :=
  match items with
  | [] => r
  | x :: rest =>
      if should_stop r then r
      else each_item category subcategory start_url rest
                     (visit category subcategory start_url r x)
  end.

(** [for sub in subcats] *)
Fixpoint each_subcategory (category : string) (subcats : list string)
    (r : Run Item) : Run Item :=
  match subcats with
  | [] => r
  | sub :: rest =>
      if should_stop r then r
      else
        let start_url := search_url sub in
        each_subcategory category rest
          (each_item category sub start_url (listing start_url) r)
  end.

(** [for category_name, subcats in categories.items()] *)
Fixpoint each_category (categories : list (string * list string))
    (r : Run Item) : Run Item :=
  match categories with
  | [] => r
  | (category, subcats) :: rest =>
      if should_stop r then r
      else each_category rest (each_subcategory category subcats r)
  end.

(** The state in which [handle] enters its loops. *)
Definition start (w : World) : Run Item :=
  {| world := w; seen := ∅;
     created_count := 0; updated_count := 0;
     skipped_count := 0; error_count := 0; taken := [] |}.

End Orchestrator.

(** [Command.handle] of the apprenticeship command.  A non-empty
    [start_url] (mode A) replaces the category plan by one listing. *)
Definition apprenticeship_handle (env : Env)
    (listing : string -> list ApprenticeshipNcs.ListedVacancy)
    (max_rows : Z) (start_url : string) (no_images refresh_images : bool)
    (categories : list (string * list string)) (run_id : nat) (w : World)
  : Run ApprenticeshipNcs.ListedVacancy :=
  let start_url_override := PyStr.strip start_url in
  let process category subcategory start_url listed :=
    Apprenticeship._process_one env listed run_id category subcategory
      start_url no_images refresh_images Apprenticeship.image_field in
  if negb (String.eqb start_url_override "") then
    each_item ApprenticeshipNcs.vacancy_ref process max_rows
              "" "" start_url_override (listing start_url_override) (start w)
  else
    each_category ApprenticeshipNcs.vacancy_ref process listing
                  (build_search_url env) max_rows categories (start w).

(** [Command.handle] of the job command. *)
Definition job_handle (env : Env) (listing : string -> list JobNcs.ListedJob)
    (max_rows : Z) (no_images : bool)
    (categories : list (string * list string)) (run_id : nat) (w : World)
  : Run JobNcs.ListedJob :=
  each_category JobNcs.job_id (Job.process_listed env no_images run_id)
                listing (build_search_url env) max_rows categories (start w).

(** ** The chain of next-page links *)

Section PageChain.
Variable fetch : string -> string + Dom.node.
Variable next_url : Dom.node -> string -> option string.

(** The URL the next link of the page at [u] leads to; [None] when the
    page has no next link or cannot be fetched. *)
Definition turn (u : string) : option string :=
  match fetch u with
  | inr s => next_url s u
  | inl _ => None
  end.

(** The URL reached from [url] by following [n] next links, with no
    regard to the URLs passed on the way. *)
Fixpoint chain (n : nat) (url : option string) : option string :=
  match n with
  | O => url
  | S n' => chain n' (url ≫= turn)
  end.

(** The chain from [start] is finite: after some number of links there
    is no URL to turn to. *)
Definition chain_ends (start : string) : Prop :=
  ∃ n, chain n (Some start) = None ∨ chain n (Some start) = Some "".

(** The chain from [start] comes back to a URL it has passed. *)
Definition chain_revisits (start : string) : Prop :=
  ∃ i j u, i < j ∧ chain i (Some start) = Some u
           ∧ chain j (Some start) = Some u.

(** Why an iteration that yielded [pages] stopped, [k] links from
    [url]: the fetch of the next URL raised, or there was no next link,
    or the next URL was seen. *)
Definition stopped (seen : gset string) (url : option string)
    (pages : list (string * Dom.node)) (raised : option string) : Prop :=
  match raised with
  | Some e => ∃ u, chain (length pages) url = Some u ∧ fetch u = inl e
  | None =>
      chain (length pages) url = None
      ∨ chain (length pages) url = Some ""
      ∨ ∃ u, chain (length pages) url = Some u
             ∧ (u ∈ seen ∨ u ∈ pages.*1)
  end.

End PageChain.

(** ** Auxiliary definitions and fixtures for the properties *)

Module Fixtures.
Import ApprenticeshipNcs Apprenticeship.

(** The value the merge block leaves under a shared key. *)
Definition merged_value (d l : string) : string :=
  if _is_emptyish d && negb (String.eqb l "") then l else d.

(** A stub without a wage and a detail record whose wage is a
    placeholder. *)
Definition stub_without_wage : ListedVacancy :=
  {| vacancy_ref := "VAC1"; url := "/apprenticeship/VAC1";
     title := "Plumber"; employer_name := ""; location_summary := "";
     start_date := ""; training_course := ""; wage := "";
     closing_text := ""; posted_text := "" |}.

Definition stub_with_wage : ListedVacancy :=
  {| vacancy_ref := "VAC1"; url := "/apprenticeship/VAC1";
     title := "Plumber"; employer_name := ""; location_summary := "";
     start_date := ""; training_course := ""; wage := "£6.40 an hour";
     closing_text := ""; posted_text := "" |}.

(** What a line offers the label lookup of the job client: the text
    after the label, if the line (apostrophes normalised, stripped) is
    not blank and matches the label pattern. *)
Definition label_hit (base ln : string) : option string :=
  let t := PyStr.strip (JobNcs._norm_apostrophes ln) in
  if String.eqb t "" then None else JobNcs.match_label base t.

(** The value taken from the line after a label line. *)
Definition next_line_value (post : list string) : string :=
  match post with
  | [] => ""
  | nxt_line :: _ =>
      let nxt := PyStr.strip (JobNcs._norm_apostrophes nxt_line) in
      if String.eqb nxt "" then ""
      else if JobNcs._is_label_line nxt then ""
      else clean nxt
  end.

(** Two rows that agree outside their character columns. *)
Definition same_meta (a b : Row) : Prop :=
  disability_confident a = disability_confident b
  ∧ scraped_at a = scraped_at b
  ∧ last_checked_at a = last_checked_at b
  ∧ last_scrape_status a = last_scrape_status b
  ∧ last_scrape_message a = last_scrape_message b
  ∧ last_scrape_run_id a = last_scrape_run_id b.


(** A category or subcategory as it reaches the upsert: the empty
    string of the start-URL mode, or a key of the category plan, which
    [_load_categories_file] strips and drops when nothing is left. *)
Definition stripped (s : string) : Prop := PyStr.strip s = s.


(** An environment without network: the clock counts its reads, the
    detail fetcher and the image service raise. *)
Definition offline : Env :=
  {| clock := Z.of_nat;
     scrape_detail := fun _ => inl "no network";
     generate_image := fun _ _ _ => inl "no image service";
     build_search_url := fun sub => sub |}.

Definition empty_world : World :=
  {| db := ∅; log := []; tick := 0; detail_fetches := []; image_calls := [] |}.

Definition plumber : gmap string string :=
  {[ "title" := "Plumber"; "wage" := "£6.40 an hour" ]}.

(** A first and a second upsert of the same fields. *)
Definition first_upsert : World * (string * string) :=
  _upsert_smart offline "VAC1" "/apprenticeship/VAC1" plumber
                "Engineering" "Welding" 1 empty_world.


(** A second upsert of the same fields under another category. *)
Definition recategorised_upsert : World * (string * string) :=
  _upsert_smart offline "VAC1" "/apprenticeship/VAC1" plumber
                "Health" "Nursing" 2 first_upsert.1.


(** The statuses of a terminal audit row. *)
Definition terminal_statuses : list string :=
  [ "error"; "created"; "updated"; "skipped" ].

Definition is_terminal (ref : string) (e : LogEntry) : bool :=
  String.eqb (log_ref e) ref && bool_decide (log_status e ∈ terminal_statuses).

Definition is_image_error (ref : string) (e : LogEntry) : bool :=
  String.eqb (log_ref e) ref && String.eqb (log_status e) "image_error".

(** The audit rows one processed item adds: at most one [image_error]
    row, then one terminal row, all under the reference of the item. *)
Definition item_rows (ref status : string) (rows : list LogEntry) : Prop :=
  ∃ img last,
    rows = img ++ [last]
    ∧ (img = [] ∨ ∃ e, img = [e] ∧ log_ref e = ref
                        ∧ log_status e = "image_error")
    ∧ log_ref last = ref ∧ log_status last = status
    ∧ status ∈ terminal_statuses.

(** The status the job command settles on. *)
Definition settled_status (was_created : bool) (changed : list string)
  : string :=
  if was_created then "created"
  else match changed with
       | _ :: _ => "updated"
       | [] => "skipped"
       end.

Definition count_rows (p : LogEntry -> bool) (l : list LogEntry) : nat :=
  length (List.filter p l).

(** What holds of a run at every point of the loops, [w0] being the
    world in which [handle] started: the items handed to the
    processing step have pairwise distinct references, which are the
    seen set; each of them was fetched once; the audit table has only
    grown, by one terminal row and at most one [image_error] row for
    each of these references and by nothing for any other. *)
Definition run_inv {Item : Type} (ref_of url_of : Item -> string)
    (w0 : World) (r : Run Item) : Prop :=
  NoDup (ref_of <$> taken r)
  ∧ seen r = list_to_set (ref_of <$> taken r)
  ∧ detail_fetches (world r) = detail_fetches w0 ++ (url_of <$> taken r)
  ∧ ∃ new,
      log (world r) = log w0 ++ new
      ∧ ∀ ref,
          count_rows (is_terminal ref) new
          = (if bool_decide (ref ∈ seen r) then 1 else 0)
          ∧ count_rows (is_image_error ref) new
            ≤ (if bool_decide (ref ∈ seen r) then 1 else 0).

(** The audit rows a finished run has added, counted by reference: one
    terminal row and at most one [image_error] row for every item that
    was handed to the processing step, none for any other reference. *)
Definition audited_once {Item : Type} (ref_of : Item -> string)
    (w0 : World) (r : Run Item) : Prop :=
  ∃ new,
    log (world r) = log w0 ++ new
    ∧ (∀ x, x ∈ taken r →
         count_rows (is_terminal (ref_of x)) new = 1
         ∧ count_rows (is_image_error (ref_of x)) new ≤ 1)
    ∧ (∀ ref, ref ∉ ref_of <$> taken r →
         count_rows (is_terminal ref) new = 0
         ∧ count_rows (is_image_error ref) new = 0).

(** An environment whose detail pages can be fetched. *)
Definition online : Env :=
  {| clock := Z.of_nat;
     scrape_detail := fun _ => inr (plumber, false);
     generate_image := fun _ _ _ => inl "no image service";
     build_search_url := fun sub => sub |}.

Definition second_stub : ListedVacancy :=
  {| vacancy_ref := "VAC2"; url := "/apprenticeship/VAC2";
     title := "Joiner"; employer_name := ""; location_summary := "";
     start_date := ""; training_course := ""; wage := "";
     closing_text := ""; posted_text := "" |}.

(** A listing of two vacancies, and a run over it that stops at one
    created or updated row. *)
Definition two_vacancies (start_url : string) : list ListedVacancy :=
  [ stub_with_wage; second_stub ].

Definition capped_run : Run ListedVacancy :=
  apprenticeship_handle online two_vacancies 1 "https://listing" true false
                        [] 7 empty_world.

(** The items the category plan makes the listing crawl yield. *)
Definition yielded_by_plan {Item : Type} (listing : string -> list Item)
    (search_url : string -> string)
    (categories : list (string * list string)) (x : Item) : Prop :=
  ∃ c subcats s,
    (c, subcats) ∈ categories ∧ s ∈ subcats ∧ x ∈ listing (search_url s).

(** The items a run of the apprenticeship command is offered: those of
    the one listing of the start-URL mode, or those of the plan. *)
Definition apprenticeship_yielded (env : Env)
    (listing : string -> list ListedVacancy) (start_url : string)
    (categories : list (string * list string)) (x : ListedVacancy) : Prop :=
  if String.eqb (PyStr.strip start_url) ""
  then yielded_by_plan listing (build_search_url env) categories x
  else x ∈ listing (PyStr.strip start_url).

Definition uncapped_run : Run ListedVacancy :=
  apprenticeship_handle online two_vacancies 0 "https://listing" true false
                        [] 7 empty_world.

(** A job whose stored row already has an image. *)
Definition welder : JobNcs.ListedJob :=
  {| JobNcs.job_id := "1"; JobNcs.url := "/details/1";
     JobNcs.title := "Welder"; JobNcs.posting_date := "";
     JobNcs.company := ""; JobNcs.location := ""; JobNcs.salary := "";
     JobNcs.remote_working := ""; JobNcs.job_type := "";
     JobNcs.hours := ""; JobNcs.listing_snippet := "";
     JobNcs.disability_confident_stub := false |}.

(** The fields [fill_if_empty] is called on, with the listing value
    each call passes. *)
Definition job_listed_fields (listed : JobNcs.ListedJob)
  : list (string * string) :=
  [ ("title", JobNcs.title listed);
    ("posting_date", JobNcs.posting_date listed);
    ("company", JobNcs.company listed);
    ("location", JobNcs.location listed);
    ("salary", JobNcs.salary listed);
    ("remote_working", JobNcs.remote_working listed);
    ("job_type", JobNcs.job_type listed);
    ("hours", JobNcs.hours listed) ].

Definition paid_welder : JobNcs.ListedJob :=
  {| JobNcs.job_id := "1"; JobNcs.url := "/details/1";
     JobNcs.title := "Welder"; JobNcs.posting_date := "";
     JobNcs.company := ""; JobNcs.location := "";
     JobNcs.salary := "£30,000";
     JobNcs.remote_working := ""; JobNcs.job_type := "";
     JobNcs.hours := ""; JobNcs.listing_snippet := "";
     JobNcs.disability_confident_stub := false |}.





(** [urljoin] on the two shapes of reference the fixture below uses:
    an absolute URL, and a path joined to a bare host. *)
Definition host_join (base href : string) : string :=
  if String.prefix "http" href then href else base +:+ href.

Definition vacancy_card (ref title wage : string) : Dom.node :=
  Dom.Elem "li" []
    [ Dom.Elem "h2" []
        [ Dom.Elem "a" [("href", "/apprenticeship/" +:+ ref)]
                   [Dom.Text title] ];
      Dom.Elem "p" [] [Dom.Text "Acme Ltd"];
      Dom.Elem "p" [] [Dom.Text "Leeds"];
      Dom.Elem "p" [] [Dom.Text "Wage"];
      Dom.Elem "p" [] [Dom.Text wage] ].

Definition listing_page (cards : list Dom.node) (next : option string)
  : Dom.node :=
  Dom.Elem "[document]" []
    [ Dom.Elem "html" []
        [ Dom.Elem "body" []
            [ Dom.Elem "main" []
                [ Dom.Elem "ul" [] cards;
                  Dom.Elem "nav" []
                    match next with
                    | Some u =>
                        [ Dom.Elem "a" [("rel", "next"); ("href", u)]
                                   [Dom.Text "Next"] ]
                    | None => []
                    end ] ] ] ].

(** A listing of three pages, the last without a next link. *)
Definition page_one : Dom.node :=
  listing_page [ vacancy_card "VAC1" "Plumber" "£6.40 an hour";
                 vacancy_card "VAC2" "Joiner" "£7.00 an hour" ]
               (Some "https://site/p2").

Definition page_two : Dom.node :=
  listing_page [ vacancy_card "VAC3" "Welder" "£8.10 an hour" ]
               (Some "https://site/p3").

Definition page_three : Dom.node :=
  listing_page [ vacancy_card "VAC4" "Roofer" "£6.90 an hour" ] None.

Definition three_pages (u : string) : string + Dom.node :=
  if String.eqb u "https://site/p1" then inr page_one
  else if String.eqb u "https://site/p2" then inr page_two
  else if String.eqb u "https://site/p3" then inr page_three
  else inl "404 Client Error".

Definition three_page_crawl
  : option (list (string * Dom.node) * option string) :=
  iter_pages three_pages (ApprenticeshipNcs._next_url host_join)
             3 "https://site/p1".

Definition three_page_items
  : option (list ListedVacancy * option string) :=
  iter_all three_pages (ApprenticeshipNcs._next_url host_join)
           (ApprenticeshipNcs._extract_vacancies_from_list host_join)
           3 "https://site/p1".

(** The tag [k] parents above a tag. *)
Fixpoint ancestor_at (k : nat) (l : Dom.loc) : option Dom.loc :=
  match k with
  | O => Some l
  | S k' => Dom.parent l ≫= ancestor_at k'
  end.

(** The extra test of the apprenticeship client on a candidate card:
    two of the listing labels in its text, or a container tag. *)
Definition plausible_card (n : Dom.node) : bool :=
  (2 <=? length (List.filter
                   (fun lab => PyStr.contains lab (Dom.get_text_strip " " n))
                   ApprenticeshipNcs.LABELS))%nat
  || bool_decide (Dom.name_of n ∈ ["article"; "li"; "section"; "div"]).

(** The first vacancy of [page_one], as its card reads. *)
Definition listed_plumber : ListedVacancy :=
  {| vacancy_ref := "VAC1";
     url := "https://www.findapprenticeship.service.gov.uk/apprenticeship/VAC1";
     title := "Plumber";
     employer_name := "Acme Ltd";
     location_summary := "Leeds";
     start_date := "";
     training_course := "";
     wage := "£6.40 an hour";
     closing_text := "";
     posted_text := "" |}.

Definition listed_joiner : ListedVacancy :=
  {| vacancy_ref := "VAC2";
     url := "https://www.findapprenticeship.service.gov.uk/apprenticeship/VAC2";
     title := "Joiner";
     employer_name := "Acme Ltd";
     location_summary := "Leeds";
     start_date := "";
     training_course := "";
     wage := "£7.00 an hour";
     closing_text := "";
     posted_text := "" |}.

End Fixtures.
Import Fixtures.

(** * Further parts of the sources *)

(** ** The counters of [Command.handle] and the audit table *)



(** An environment whose detail fetcher raises on every URL. *)
Definition site_down (env : Env) : Prop :=
  ∀ u, ∃ e, scrape_detail env u = inl e.

(** The audit rows of one run and one query. *)
Definition row_of_query (run_id : nat) (category subcategory start_url : string)
    (e : LogEntry) : Prop :=
  log_run_id e = run_id ∧ log_category e = category
  ∧ log_keyword e = subcategory ∧ log_start_url e = start_url.

(** A run all of whose items failed at the detail fetch. *)
Definition all_failed {Item : Type} (w0 : World) (r : Run Item) : Prop :=
  db (world r) = db w0
  ∧ image_calls (world r) = image_calls w0
  ∧ created_count r = 0 ∧ updated_count r = 0 ∧ skipped_count r = 0
  ∧ error_count r = length (taken r)
  ∧ ∃ new, log (world r) = log w0 ++ new
           ∧ length new = length (taken r)
           ∧ Forall (fun e => log_status e = "error") new.

(** The table of rows of [w'] against that of [w]: only the row of
    [ref] may differ, and no row is missing. *)
Definition touches_only (ref : string) (w w' : World) : Prop :=
  (∀ k, k ≠ ref → db w' !! k = db w !! k)
  ∧ (∀ k, is_Some (db w !! k) → is_Some (db w' !! k)).

(** [rows_kept] below, with the seen set in place of the items taken. *)
Definition rows_held {Item : Type} (w0 : World) (r : Run Item) : Prop :=
  (∀ k, k ∉ seen r → db (world r) !! k = db w0 !! k)
  ∧ (∀ k, is_Some (db w0 !! k) → is_Some (db (world r) !! k)).

(** The table of rows at the end of a run against the table at its
    start: a row whose reference the run did not process is as it was,
    and no row is missing. *)
Definition rows_kept {Item : Type} (ref_of : Item -> string)
    (w0 : World) (r : Run Item) : Prop :=
  (∀ k, k ∉ ref_of <$> taken r → db (world r) !! k = db w0 !! k)
  ∧ (∀ k, is_Some (db w0 !! k) → is_Some (db (world r) !! k)).

(** The audit table of [w'] is that of [w] with rows that satisfy [R]
    added at its end. *)
Definition grows_by (R : LogEntry -> Prop) (w w' : World) : Prop :=
  ∃ new, log w' = log w ++ new ∧ Forall R new.

(** A row written for a query of the category plan. *)
Definition row_of_plan (run_id : nat) (search_url : string -> string)
    (categories : list (string * list string)) (e : LogEntry) : Prop :=
  ∃ c subcats s,
    (c, subcats) ∈ categories ∧ s ∈ subcats
    ∧ row_of_query run_id c s (search_url s) e.

(** ** Fixtures for the listing page *)

(** The first link of [page_one]. *)
Definition first_anchor : Dom.loc :=
  default (page_one, [])
          (head (Dom.select_a_href (ApprenticeshipNcs.main_of page_one))).

(** The first item of [xs] whose reference is [ref]. *)
Definition first_with {A : Type} (ref_of : A -> string) (ref : string)
    (xs : list A) : option A :=
  List.find (fun y => String.eqb (ref_of y) ref) xs.

(** ** Strings as lists of characters

    Used to reason on [strip], whose right half goes through
    [String.rev]. *)

Fixpoint drop_spaces (l : list ascii) : list ascii :=
  match l with
  | [] => []
  | c :: l' => if PyStr.is_space c then drop_spaces l' else l
  end.

Definition strip_chars (l : list ascii) : list ascii :=
  rev (drop_spaces (rev (drop_spaces l))).

(** No white space at the head. *)
Definition head_ok (l : list ascii) : bool :=
  match l with
  | [] => true
  | c :: _ => negb (PyStr.is_space c)
  end.

(** ** [_load_categories_file]

    The loader of the category plan, from the value [json.loads] returns
    on; the apprenticeship command and the job command have the same
    loader.  The items of a parsed object are kept in the order of the
    file, as a Python [dict] keeps them. *)

Module Categories.

#[local] Set Warnings "-register-all".

(** A parsed JSON value; a number is kept as an integer, the loader
    only asks whether a value is a string or a list. *)
Inductive json :=
| JNull
| JBool (b : bool)
| JNum (n : Z)
| JStr (s : string)
| JList (xs : list json)
| JDict (kvs : list (string * json)).

(** The two [ValueError]s of the loader; the second carries the
    category named in its message. *)
Inductive load_error :=
| NotAnObject
| BadValue (category : string)
| NothingUsable.

(** [isinstance(subcats, list) and all(isinstance(x, str) for x in
    subcats)], with the strings. *)
Fixpoint all_str (xs : list json) : option (list string) :=
  match xs with
  | [] => Some []
  | JStr s :: rest => cons s <$> all_str rest
  | _ :: _ => None
  end.

Definition string_list (v : json) : option (list string) :=
  match v with
  | JList xs => all_str xs
  | _ => None
  end.

(** [[s.strip() for s in subcats if s and s.strip()]] *)
Definition clean_subcats (subcats : list string) : list string :=
  PyStr.strip <$>
    List.filter (fun s => negb (String.eqb s "")
                          && negb (String.eqb (PyStr.strip s) ""))
                subcats.

(** [out[k] = v] on a dict: a key that is present keeps its place. *)
Fixpoint set_item (k : string) (v : list string)
    (out : list (string * list string)) : list (string * list string) :=
  match out with
  | [] => [(k, v)]
  | (k', v') :: rest =>
      if String.eqb k' k then (k, v) :: rest
      else (k', v') :: set_item k v rest
  end.

(** The loop [for category, subcats in data.items()]. *)
Fixpoint load_items (kvs : list (string * json))
    (out : list (string * list string))
  : load_error + list (string * list string) :=
  match kvs with
  | [] => inr out
  | (category, subcats) :: rest =>
      if String.eqb (PyStr.strip category) "" then load_items rest out
      else
        match string_list subcats with
        | None => inl (BadValue category)
        | Some subs =>
            match clean_subcats subs with
            | [] => load_items rest out
            | c :: cs => load_items rest (set_item (PyStr.strip category)
                                                   (c :: cs) out)
            end
        end
  end.

Definition _load_categories_file (data : json)
  : load_error + list (string * list string) :=
  match data with
  | JDict kvs =>
      match load_items kvs [] with
      | inl e => inl e
      | inr [] => inl NothingUsable
      | inr (kv :: out) => inr (kv :: out)
      end
  | _ => inl NotAnObject
  end.

(** A plan as the commands expect it: keys and subcategories stripped
    and not empty, no key without a subcategory, no key twice. *)
Definition clean_plan (plan : list (string * list string)) : Prop :=
  NoDup plan.*1
  ∧ Forall (fun kv =>
              stripped kv.1 ∧ kv.1 ≠ ""
              ∧ kv.2 ≠ []
              ∧ Forall (fun s => stripped s ∧ s ≠ "") kv.2)
           plan.



Definition sample_file : json :=
  JDict [ (" Engineering ", JList [JStr "Welding "; JStr " "; JStr ""]);
          (" ", JNum 3);
          ("Health", JList [JStr "Nursing"]);
          ("Retail", JList []) ].

End Categories.

(** ** The search URLs

    [_build_search_url] of the apprenticeship command and
    [build_search_url] of the job client format a query with
    [urllib.parse.urlencode], which quotes every key and value with
    [quote_plus]: a byte of the UTF-8 text that is a letter, a digit or
    one of [_.-~] stands for itself, a space becomes [+], and any other
    byte becomes [%XX] with two upper-case hexadecimal digits. *)

Module UrlEncode.

Definition is_alnum (c : ascii) : bool :=
  let n := nat_of_ascii c in
  ((48 <=? n)%nat && (n <=? 57)%nat)
  || ((65 <=? n)%nat && (n <=? 90)%nat)
  || ((97 <=? n)%nat && (n <=? 122)%nat).

(** [_ALWAYS_SAFE] *)
Definition always_safe (c : ascii) : bool :=
  is_alnum c || bool_decide (c ∈ ["_"; "."; "-"; "~"]%char).

Definition hex_digit (n : nat) : ascii :=
  if (n <? 10)%nat then ascii_of_nat (48 + n) else ascii_of_nat (55 + n).

(** ['%{:02X}'.format(byte)] *)
Definition percent (c : ascii) : string :=
  let n := nat_of_ascii c in
  String "%" (String (hex_digit (n / 16)) (String (hex_digit (n mod 16)) "")).

Definition quote_char (c : ascii) : string :=
  if Ascii.eqb c " " then "+"
  else if always_safe c then String c ""
  else percent c.

(** [quote_plus(s)] with the default [safe=''] *)
Fixpoint quote_plus (s : string) : string :=
  match s with
  | EmptyString => ""
  | String c rest => quote_char c +:+ quote_plus rest
  end.

(** [urlencode({"searchTerm": subcategory, "pageNumber": 1,
    "sort": "AgeAsc"})] after [BASE_SEARCH_URL] and [?] *)
Definition _build_search_url (subcategory : string) : string :=
  "https://www.findapprenticeship.service.gov.uk/apprenticeships"
  +:+ "?" +:+ "searchTerm=" +:+ quote_plus subcategory
  +:+ "&pageNumber=1&sort=AgeAsc".

(** [urlencode({"q": subcategory, "w": ""})] after [BASE_SEARCH_URL]
    and [?] *)
Definition build_search_url (subcategory : string) : string :=
  "https://findajob.dwp.gov.uk/search"
  +:+ "?" +:+ "q=" +:+ quote_plus subcategory +:+ "&w=".

(** The value of a hexadecimal digit, and the reading of a quoted
    text: these are not in the sources, they serve to state that
    quoting loses nothing. *)
Definition hex_value (c : ascii) : nat :=
  let n := nat_of_ascii c in
  if (n <=? 57)%nat then n - 48 else n - 55.

Fixpoint unquote_plus (s : string) : string :=
  match s with
  | EmptyString => ""
  | String "+" rest => String " " (unquote_plus rest)
  | String "%" (String h (String l rest)) =>
      String (ascii_of_nat (16 * hex_value h + hex_value l))
             (unquote_plus rest)
  | String c rest => String c (unquote_plus rest)
  end.

(** The characters that delimit the parts of a URL and of a query. *)
Definition delimiters : list ascii := ["&"; "="; "#"; "?"; "/"; " "]%char.

End UrlEncode.

(** ** Shapes of text *)

(** Every white-space character of [s] is a space that follows a
    character that is not white space ([after_space] tells whether the
    character before [s] was white space). *)
Fixpoint tidy_from (after_space : bool) (s : string) : bool :=
  match s with
  | EmptyString => true
  | String c rest =>
      if PyStr.is_space c
      then Ascii.eqb c " " && negb after_space && tidy_from true rest
      else tidy_from false rest
  end.

Definition single_spaced (s : string) : bool := tidy_from false s.

(** [s] is white space only. *)
Definition blank (s : string) : bool :=
  forallb PyStr.is_space (list_ascii_of_string s).

Fixpoint collapse_chars (in_run : bool) (l : list ascii) : list ascii :=
  match l with
  | [] => []
  | c :: l' =>
      if PyStr.is_space c
      then (if in_run then collapse_chars true l'
            else " "%char :: collapse_chars true l')
      else c :: collapse_chars false l'
  end.

(** ** The state of a job row after it was processed *)









(** A job stored under a category, met again under another one. *)
Definition filed_welder_row : Row :=
  {| cols := {[ "title" := "Welder"; "category" := "Engineering";
                "subcategory" := "Welding" ]};
     disability_confident := false;
     scraped_at := 0;
     last_checked_at := None;
     last_scrape_status := "created";
     last_scrape_message := "";
     last_scrape_run_id := None |}.

Definition world_with_filed_welder : World :=
  {| db := {[ "1" := filed_welder_row ]}; log := []; tick := 0;
     detail_fetches := []; image_calls := [] |}.

(** ** Shapes of references *)


(** ** The items a category plan offers *)

(** The items of all listings of the plan, in the order the loops of
    [handle] meet them. *)
Definition plan_items {Item : Type} (listing : string -> list Item)
    (search_url : string -> string)
    (categories : list (string * list string)) : list Item :=
  flat_map (fun kv => flat_map (fun s => listing (search_url s)) kv.2)
           categories.

(** A world whose table holds one vacancy. *)
Definition world_with_vacancy : World :=
  {| db := {[ "VAC1" := filed_welder_row ]}; log := []; tick := 0;
     detail_fetches := []; image_calls := [] |}.

(** ** [cleanup_lines]

    Both scrapper modules have a [cleanup_lines] with the same loop and
    a filter of their own.  [splitlines] is [str.splitlines] with the
    line terminators of the ASCII range, a carriage return before a
    line feed counting as one terminator, and no empty piece after a
    final terminator. *)

Module Lines.

Definition LF : string := String "010" "".

Fixpoint splitlines (s : string) : list string :=
  match s with
  | EmptyString => []
  | String c rest =>
      if Ascii.eqb c "013" then
        match rest with
        | String c' rest' =>
            if Ascii.eqb c' "010" then "" :: splitlines rest'
            else "" :: splitlines rest
        | EmptyString => [""]
        end
      else if ApprenticeshipNcs.is_linebreak c then "" :: splitlines rest
      else
        match splitlines rest with
        | [] => [String c ""]
        | l :: ls => String c l :: ls
        end
  end.

(** [out] ends with a line that is not empty. *)
Definition ends_line (out : list string) : bool :=
  match last out with
  | Some l => negb (String.eqb l "")
  | None => false
  end.

(** [if out and out[-1] != "": out.append("")] *)
Definition push_blank (out : list string) : list string :=
  match last out with
  | Some l => if String.eqb l "" then out else out ++ [""]
  | None => out
  end.

Section Cleanup.
(** The line is kept by the filter of the module. *)
Variable keep : string -> bool.

Fixpoint cleanup_loop (lines out : list string) : list string :=
  match lines with
  | [] => out
  | ln :: rest =>
      if String.eqb ln "" then cleanup_loop rest (push_blank out)
      else if keep ln then cleanup_loop rest (out ++ [ln])
      else cleanup_loop rest out
  end.

Definition cleanup_with (text : string) : string :=
  PyStr.strip
    (Dom.join LF (cleanup_loop (PyStr.strip <$> splitlines text) [])).

(** The lines the loop adds to [out], [after_line] telling whether
    [out] ends with a line that is not empty. *)
Fixpoint squeeze (after_line : bool) (lines : list string) : list string :=
  match lines with
  | [] => []
  | ln :: rest =>
      if String.eqb ln ""
      then (if after_line then "" :: squeeze false rest
            else squeeze false rest)
      else if keep ln then ln :: squeeze true rest
      else squeeze after_line rest
  end.

Definition no_breaks (l : string) : bool :=
  forallb (fun c => negb (ApprenticeshipNcs.is_linebreak c))
          (list_ascii_of_string l).

(** A line that the filter keeps, with no white space at its ends and
    no line terminator. *)
Definition kept_line (l : string) : bool :=
  negb (String.eqb l "") && keep l
  && String.eqb (PyStr.strip l) l && no_breaks l.

(** Kept lines, an empty line only between two of them or at the
    end. *)
Fixpoint shaped (after_line : bool) (ls : list string) : bool :=
  match ls with
  | [] => true
  | l :: rest =>
      if String.eqb l "" then after_line && shaped false rest
      else kept_line l && shaped true rest
  end.

(** Kept lines, an empty line only between two of them. *)
Definition tight (ls : list string) : bool :=
  shaped false ls
  && match last ls with
     | Some l => negb (String.eqb l "")
     | None => true
     end.

End Cleanup.

End Lines.

Module ApprenticeshipText.

(** [PUNCT_ONLY_RE.match(ln)] fails and [ln.lower().strip()] is not in
    [UI_SKIP_LINES]. *)
Definition keep (ln : string) : bool :=
  negb (ApprenticeshipNcs.punct_only ln)
  && negb (bool_decide (PyStr.strip (PyStr.lower ln)
                          ∈ ApprenticeshipNcs.UI_SKIP_LINES)).

(** [cleanup_lines(text)] of [apprenticeship/scrapper/ncs.py] *)
Definition cleanup_lines (text : string) : string :=
  Lines.cleanup_with keep text.

End ApprenticeshipText.

Module JobText.

Definition UI_SKIP_EXACT : list string :=
  [ "hide"; "show"; "skip to main content"; "skip to results";
    "skip to results page nav"; "menu"; "continue" ].

Definition UI_SKIP_PREFIXES : list string :=
  [ "save "; "print this job"; "share this job";
    "share this job via email"; "report this job";
    "you will be signed out soon" ].

Definition UI_ACTION_LINES : list string :=
  [ "save to favourites"; "print this job"; "share this job";
    "share this job via email"; "report this job"; "save"; "print";
    "share"; "report" ].

(** The three tests of the loop on
    [low = _norm_apostrophes(ln).strip().lower()] all fail. *)
Definition keep (ln : string) : bool :=
  let low := PyStr.lower (PyStr.strip (JobNcs._norm_apostrophes ln)) in
  negb (bool_decide (low ∈ UI_SKIP_EXACT))
  && negb (existsb (fun p => PyStr.startswith p low) UI_SKIP_PREFIXES)
  && negb (bool_decide (low ∈ UI_ACTION_LINES)).

(** [cleanup_lines(text)] of [job/scrapper/ncs.py] *)
Definition cleanup_lines (text : string) : string :=
  Lines.cleanup_with keep text.

End JobText.

Module Urls.

(** [_normalize_url(u)] of [apprenticeship/scrapper/ncs.py] *)
Definition _normalize_url (u : string) : string :=
  let u := PyStr.strip u in
  if String.eqb u "" then ""
  else if PyStr.startswith "//" u then "https:" +:+ u
  else if PyStr.startswith "www." (PyStr.lower u) then "https://" +:+ u
  else u.

End Urls.
(** * Properties *)

#[local] Set Warnings "-clear-no-such-hyp".

(** ** The merge of a detail record with its listing stub *)

(** Case analysis on a chain of [if String.eqb k c then _ else _] in
    the hypothesis [H]. *)
Ltac split_key H :=
  repeat match type of H with
  | context [String.eqb ?k ?c] =>
      let E := fresh "E" in
      destruct (String.eqb k c) eqn:E;
      [ apply String.eqb_eq in E; subst k | apply String.eqb_neq in E ]
  end.

Section MergeFacts.
Import ApprenticeshipNcs Apprenticeship.

Lemma fill_lookup_ne k k' v (details : gmap string string) :
  k ≠ k' → fill k' v details !! k = details !! k.
Proof.
  intros Hne. unfold fill.
  destruct (_ && _); [by rewrite lookup_insert_ne|done].
Qed.

Lemma fill_lookup_eq k v (details : gmap string string) :
  fill k v details !! k =
  if _is_emptyish (default "" (details !! k)) && negb (String.eqb v "")
  then Some v else details !! k.
Proof.
  unfold fill. destruct (_ && _); [by rewrite lookup_insert_eq|done].
Qed.

Lemma merge_lookup_shared listed (details : gmap string string) k l d :
  listed_field listed k = Some l →
  details !! k = Some d →
  merge listed details !! k = Some (merged_value d l).
Proof.
  unfold listed_field, merge, merged_value. intros Hl Hd.
  split_key Hl; try discriminate; injection Hl as <-;
    repeat first
      [ rewrite fill_lookup_eq
      | rewrite fill_lookup_ne by (intros ?; discriminate) ];
    rewrite Hd; simpl; by destruct (_ && _).
Qed.

Lemma merge_lookup_other listed (details : gmap string string) k :
  listed_field listed k = None →
  merge listed details !! k = details !! k.
Proof.
  unfold listed_field, merge. intros Hl.
  split_key Hl; try discriminate.
  by rewrite !fill_lookup_ne by done.
Qed.

End MergeFacts.

(** The job command fills a field from the listing only when the detail
    value is missing or the empty string: a placeholder stays. *)
Lemma job_fill_if_empty_lookup k v (merged : gmap string string) :
  Job.fill_if_empty k v merged !! k =
    match merged !! k with
    | None => Some v
    | Some d => if String.eqb d "" then Some v else Some d
    end.
Proof.
  unfold Job.fill_if_empty. destruct (merged !! k) as [d|] eqn:E.
  - destruct (String.eqb d ""); [by rewrite lookup_insert_eq|done].
  - by rewrite lookup_insert_eq.
Qed.

Lemma job_fill_if_empty_lookup_ne k k' v (merged : gmap string string) :
  k ≠ k' → Job.fill_if_empty k v merged !! k' = merged !! k'.
Proof.
  intros Hne. unfold Job.fill_if_empty.
  destruct (merged !! k) as [d|]; [destruct (String.eqb d "")|];
    by rewrite ?lookup_insert_ne.
Qed.

Example job_fill_keeps_placeholder :
  Job.fill_if_empty "salary" "£30,000" {[ "salary" := "n/a" ]} !! "salary"
  = Some "n/a".
Proof. reflexivity. Qed.

Lemma job_merge_lookup listed cat sub (details : gmap string string) k l :
  (k, l) ∈ job_listed_fields listed →
  Job.merge listed cat sub details !! k =
    match details !! k with
    | None => Some l
    | Some d => if String.eqb d "" then Some l else Some d
    end.
Proof.
  intros Hin. unfold Job.merge. cbn zeta.
  unfold job_listed_fields in Hin.
  repeat (apply elem_of_cons in Hin as [[= -> ->]|Hin];
          [ rewrite !lookup_insert_ne by done;
            (destruct (String.eqb (JobNcs.listing_snippet listed) "");
             [|rewrite lookup_insert_ne by done]);
            rewrite ?job_fill_if_empty_lookup_ne by done;
            rewrite job_fill_if_empty_lookup;
            by rewrite ?job_fill_if_empty_lookup_ne by done
          |]).
  by apply elem_of_nil in Hin.
Qed.

Section MergeClaims.
Import ApprenticeshipNcs Apprenticeship.

(** C2, as the specification words it, fails: with a placeholder wage
    on the detail page and no wage on the listing, the merged wage of
    the apprenticeship command is the placeholder of the detail record,
    not the (empty) value of the listing; and the job command keeps a
    placeholder salary of the detail page although the listing has a
    salary. *)
Lemma merge_keeps_placeholder_without_listing_value :
  listed_field stub_without_wage "wage" = Some ""
  ∧ ({[ "wage" := "n/a" ]} : gmap string string) !! "wage" = Some "n/a"
  ∧ _is_emptyish "n/a" = true
  ∧ merge stub_without_wage {[ "wage" := "n/a" ]} !! "wage" = Some "n/a"
  ∧ merge stub_without_wage {[ "wage" := "n/a" ]} !! "wage" ≠ Some ""
  ∧ JobNcs.salary paid_welder = "£30,000"
  ∧ Job.merge paid_welder "Engineering" "Welding" {[ "salary" := "n/a" ]}
      !! "salary" = Some "n/a".
Proof. vm_compute. repeat split; discriminate. Qed.

(** C2 (amended): for every field present in both records, the merged
    value of the apprenticeship command is the detail value when that is
    not emptyish; when it is emptyish, the merged value is the listing
    value if the listing value is non-empty, and the detail value
    otherwise.  The job command takes the listing value only when the
    detail value is the empty string.  Both merges are total functions
    of their arguments. *)
Theorem merge_detail_unless_emptyish :
  (∀ listed (details : gmap string string) k l d,
     listed_field listed k = Some l →
     details !! k = Some d →
     merge listed details !! k =
       Some (if _is_emptyish d
             then (if String.eqb l "" then d else l)
             else d))
  ∧ (∀ listed cat sub (details : gmap string string) k l d,
       (k, l) ∈ job_listed_fields listed →
       details !! k = Some d →
       Job.merge listed cat sub details !! k =
         Some (if String.eqb d "" then l else d)).
Proof.
  split.
  - intros listed details k l d Hl Hd.
    rewrite (merge_lookup_shared _ _ _ _ _ Hl Hd).
    unfold merged_value. by destruct (_is_emptyish d), (String.eqb l "").
  - intros listed cat sub details k l d Hin Hd.
    rewrite (job_merge_lookup _ _ _ _ _ _ Hin), Hd.
    by destruct (String.eqb d "").
Qed.

Lemma merge_detail_unless_emptyish_witness :
  listed_field stub_with_wage "wage" = Some "£6.40 an hour"
  ∧ ({[ "wage" := " TBC " ]} : gmap string string) !! "wage" = Some " TBC "
  ∧ merge stub_with_wage {[ "wage" := " TBC " ]} !! "wage"
    = Some "£6.40 an hour".
Proof.
  split; [reflexivity|]. split; [reflexivity|].
  exact (proj1 merge_detail_unless_emptyish stub_with_wage
           {[ "wage" := " TBC " ]} "wage" "£6.40 an hour" " TBC "
           eq_refl eq_refl).
Defined.

(** The emptyish examples of the specification. *)
Example emptyish_examples :
  _is_emptyish "-" = true ∧ _is_emptyish " " = true
  ∧ _is_emptyish "n/a" = true ∧ _is_emptyish "TBC" = true
  ∧ _is_emptyish "N/A fee" = false.
Proof. by vm_compute. Qed.

End MergeClaims.

(** ** The label/value lookup *)

Section LabelLookup.
Import JobNcs.

Lemma find_after_miss base ln rest :
  label_hit base ln = None → find_after base (ln :: rest) = find_after base rest.
Proof.
  unfold label_hit. cbn [find_after]. intros H.
  destruct (String.eqb _ ""); [done|]. by rewrite H.
Qed.

Lemma find_after_hit base ln rest g :
  label_hit base ln = Some g →
  find_after base (ln :: rest) =
    if String.eqb (clean g) "" then next_line_value rest else clean g.
Proof.
  unfold label_hit, next_line_value. cbn [find_after]. intros H.
  destruct (String.eqb (PyStr.strip (_norm_apostrophes ln)) ""); [done|].
  rewrite H. destruct (String.eqb (clean g) ""); [|done]. simpl.
  destruct rest as [|nxt_line rest']; [done|].
  destruct (String.eqb _ ""); [done|]. simpl.
  by destruct (_is_label_line _).
Qed.

(** X15: the lookup of the job client: no matching line gives the empty
    string; otherwise the first matching line decides, by its inline
    remainder if that is non-empty, and else by the following line,
    which is passed over when it is missing, blank or itself a label
    line. *)
Lemma job_find_after_label_spec (lines : list string) (label : string) :
  let base :=
    PyStr.lower (_norm_apostrophes (PyStr.rstrip_char ":" (PyStr.strip label))) in
  (Forall (fun ln => label_hit base ln = None) lines →
     _find_after_label lines label = "")
  ∧ (∀ pre ln post g,
       lines = pre ++ ln :: post →
       Forall (fun l => label_hit base l = None) pre →
       label_hit base ln = Some g →
       (clean g ≠ "" → _find_after_label lines label = clean g)
       ∧ (clean g = "" →
            _find_after_label lines label = next_line_value post)).
Proof.
  intros base. unfold _find_after_label. fold base. split.
  - induction 1 as [|ln rest Hln _ IH]; [done|].
    by rewrite find_after_miss.
  - intros pre ln post g -> Hpre Hln.
    assert (find_after base (pre ++ ln :: post) = find_after base (ln :: post))
      as ->.
    { induction Hpre as [|l pre Hl _ IH]; [done|].
      simpl app. by rewrite find_after_miss. }
    rewrite (find_after_hit _ _ _ _ Hln).
    destruct (String.eqb_spec (clean g) ""); split; congruence.
Qed.

Example job_inline_value :
  _find_after_label ["Salary: £6.40 an hour"] "Salary" = "£6.40 an hour".
Proof. reflexivity. Qed.

Example job_next_line_value :
  _find_after_label ["Salary:"; "£6.40 an hour"] "Salary" = "£6.40 an hour".
Proof. reflexivity. Qed.

Example job_next_line_is_label :
  _find_after_label ["Salary"; "Location"; "Leeds"] "Salary" = "".
Proof. reflexivity. Qed.

(** C9: the lookup of the apprenticeship client has no guard on the
    following line: with the value of [Wage] missing, it returns the
    next label, [Training course], where the specification asks for the
    empty string; the lookup of the job client returns the empty string on
    lines of the same shape.  The same lookup does not see a
    colon-suffixed label with its value on the same line. *)
Theorem apprenticeship_label_lookup_absorbs_next_label :
  ApprenticeshipNcs._find_after_label
    ["Wage"; "Training course"; "Plumbing"] "Wage" = "Training course"
  ∧ _find_after_label ["Salary"; "Job type"; "Permanent"] "Salary" = ""
  ∧ ApprenticeshipNcs._find_after_label ["Wage: £6.40 an hour"] "Wage" = ""
  ∧ _find_after_label ["Wage: £6.40 an hour"] "Wage" = "£6.40 an hour".
Proof. repeat split; reflexivity. Qed.

End LabelLookup.

(** ** Rows and [save] *)

Section RowFacts.

Lemma col_set_col_eq k v r : col (set_col k v r) k = v.
Proof. unfold col, set_col. simpl. by rewrite lookup_insert_eq. Qed.

Lemma col_set_col_ne k k' v r : k ≠ k' → col (set_col k v r) k' = col r k'.
Proof. intros. unfold col, set_col. simpl. by rewrite lookup_insert_ne. Qed.

Lemma same_meta_refl r : same_meta r r.
Proof. by repeat split. Qed.



Lemma save_fields_col fields stamp obj row f :
  col (save_fields fields stamp obj row) f =
    if bool_decide (f ∈ fields) && negb (bool_decide (f ∈ meta_columns))
    then col obj f else col row f.
Proof.
  unfold col at 1. unfold save_fields. cbn [cols].
  induction fields as [|k fields IH]; simpl.
  - done.
  - destruct (decide (f = k)) as [->|Hne].
    + rewrite (bool_decide_eq_true_2 (k ∈ k :: fields)) by (apply elem_of_cons; by left).
      destruct (bool_decide (k ∈ meta_columns)) eqn:Hm; simpl.
      * rewrite IH. by destruct (bool_decide (k ∈ fields)).
      * by rewrite lookup_insert_eq.
    + assert (bool_decide (f ∈ k :: fields) = bool_decide (f ∈ fields)) as ->.
      { apply bool_decide_ext. rewrite elem_of_cons.
        split; [by intros [?|?]|by right]. }
      destruct (bool_decide (k ∈ meta_columns)); [done|].
      by rewrite lookup_insert_ne.
Qed.

End RowFacts.

(** ** Stripped strings *)

Section StripFacts.
Import PyStr.









Lemma stripped_empty : stripped "".
Proof. reflexivity. Qed.

End StripFacts.

(** ** The comparison loop of the upsert *)

Section DiffFacts.
Import ApprenticeshipNcs Apprenticeship.





End DiffFacts.

Section UpsertFacts.
Import ApprenticeshipNcs Apprenticeship.









End UpsertFacts.

Section SaveFacts.




End SaveFacts.

(** ** The upsert of the apprenticeship command *)

Section UpsertClaims.
Import ApprenticeshipNcs Apprenticeship.









(** C5: the comparison loop of [_upsert_smart] runs over [category] and
    [subcategory] as over any other entry of [new_vals]: a row stored
    under [Engineering] / [Welding] and met again under [Health] /
    [Nursing] has both columns overwritten, and the upsert reports them
    as changed. *)
Theorem upsert_overwrites_category :
  flip col "category" <$> db first_upsert.1 !! "VAC1" = Some "Engineering"
  ∧ flip col "subcategory" <$> db first_upsert.1 !! "VAC1" = Some "Welding"
  ∧ recategorised_upsert.2
    = ("updated", "changed_fields=category,subcategory")
  ∧ flip col "category" <$> db recategorised_upsert.1 !! "VAC1"
    = Some "Health"
  ∧ flip col "subcategory" <$> db recategorised_upsert.1 !! "VAC1"
    = Some "Nursing".
Proof. by vm_compute. Qed.

End UpsertClaims.

(** ** Processing one item: the apprenticeship command *)

Section ProcessOneFacts.
Import ApprenticeshipNcs Apprenticeship.

Lemma upsert_smart_traces env ref u data cat sub run w :
  let r := _upsert_smart env ref u data cat sub run w in
  log r.1 = log w
  ∧ detail_fetches r.1 = detail_fetches w
  ∧ image_calls r.1 = image_calls w
  ∧ r.2.1 ∈ ["created"; "updated"; "skipped"].
Proof.
  unfold _upsert_smart, read_clock. cbn [db tick].
  destruct (db w !! ref) as [stored|].
  - destruct (diff_row _ cat sub stored) as [o' [|c changed]]; cbn;
      split_and!; try done; apply (bool_decide_unpack _); by vm_compute.
  - cbn. split_and!; try done. apply (bool_decide_unpack _); by vm_compute.
Qed.

(** The image block: the calls it makes and the audit rows it adds. *)
Lemma image_step_effects env listed run cat sub start_url refresh f w :
  let w' := image_step env listed run cat sub start_url refresh f w in
  detail_fetches w' = detail_fetches w
  ∧ ((image_calls w' = image_calls w ∧ log w' = log w)
     ∨ (image_calls w' = image_calls w ∧ db w !! vacancy_ref listed = None
        ∧ ∃ e, log w' = log w ++ [mk_log run cat sub start_url
                                         (vacancy_ref listed) "image_error" e])
     ∨ (image_calls w' = image_calls w ++ [vacancy_ref listed]
        ∧ (refresh = true
           ∨ ∃ obj, db w !! vacancy_ref listed = Some obj
                    ∧ PyStr.strip (col obj f) = "")
        ∧ ∃ title employer,
            match generate_image env (vacancy_ref listed) title employer with
            | inl e =>
                log w' = log w ++ [mk_log run cat sub start_url
                                          (vacancy_ref listed) "image_error" e]
            | inr _ => log w' = log w
            end)).
Proof.
  unfold image_step.
  destruct (db w !! vacancy_ref listed) as [obj|] eqn:Hdb.
  - destruct (refresh || String.eqb (PyStr.strip (col obj f)) "") eqn:Hgate;
      [|split; [done|by left]].
    destruct (String.eqb (PyStr.strip (py_or (col obj "title") (title listed))) "");
      [split; [done|by left]|].
    set (t := PyStr.strip (py_or (col obj "title") (title listed))).
    set (e := PyStr.strip (py_or (col obj "employer_name") (employer_name listed))).
    assert (refresh = true
            ∨ ∃ obj0, Some obj = Some obj0 ∧ PyStr.strip (col obj0 f) = "")
      as Hwhy.
    { apply orb_true_iff in Hgate as [->|Hblank]; [by left|right].
      exists obj. split; [done|]. by apply String.eqb_eq. }
    destruct (generate_image env (vacancy_ref listed) t e) as [msg|cloud] eqn:Hgen.
    + split; [done|]. right. right. split_and!; try done.
      exists t, e. by rewrite Hgen.
    + split; [by destruct (_ && _)|]. right. right. split_and!; try done.
      * by destruct (_ && _).
      * exists t, e. rewrite Hgen. by destruct (_ && _).
  - split; [done|]. right. left. split_and!; try done. by eexists.
Qed.

(** The audit rows of one call of [_process_one]. *)
Lemma process_one_rows env listed run cat sub start_url no_images refresh
    imf w :
  let r := _process_one env listed run cat sub start_url no_images refresh
                        imf w in
  ∃ rows, log r.1 = log w ++ rows
          ∧ item_rows (vacancy_ref listed) r.2 rows.
Proof.
  unfold _process_one.
  destruct (scrape_detail env (url listed)) as [e|[details flag]].
  - cbn. eexists. split; [done|]. exists [], (mk_log run cat sub start_url
      (vacancy_ref listed) "error" e).
    split_and!; try done; [by left|]. apply (bool_decide_unpack _); by vm_compute.
  - pose proof (upsert_smart_traces env (vacancy_ref listed) (url listed)
                  (merge listed details) cat sub run
                  (note_fetch (url listed) w)) as Hup.
    destruct (_upsert_smart _ _ _ _ _ _ _ _) as [w1 [status msg]].
    cbn [fst snd] in Hup. destruct Hup as (Hlog & _ & _ & Hstatus).
    assert (status ∈ terminal_statuses) as Hterm.
    { unfold terminal_statuses. apply elem_of_cons. by right. }
    cbn [fst snd append_log log].
    assert (∀ wi, (log wi = log w1
                   ∨ ∃ e, log wi = log w1 ++ [mk_log run cat sub start_url
                              (vacancy_ref listed) "image_error" e]) →
              ∃ rows, log wi ++ [mk_log run cat sub start_url
                          (vacancy_ref listed) status msg] = log w ++ rows
                      ∧ item_rows (vacancy_ref listed) status rows) as Hfin.
    { intros wi [Hwi|[e Hwi]]; rewrite Hwi, Hlog; cbn [note_fetch log].
      - eexists. split; [done|]. eexists [], _. split_and!; try done. by left.
      - rewrite <-app_assoc. eexists. split; [done|].
        eexists [_], _. split_and!; try done. right. eexists. split_and!; done. }
    destruct imf as [f|]; [|apply Hfin; by left].
    destruct (negb no_images); [|apply Hfin; by left].
    apply Hfin.
    destruct (image_step_effects env listed run cat sub start_url refresh f w1)
      as (_ & [[_ H]|[(_ & _ & e & H)|(_ & _ & t & e & H)]]).
    + by left.
    + right. by exists e.
    + destruct (generate_image _ _ _ _) as [msg'|]; [right; by exists msg'|by left].
Qed.

End ProcessOneFacts.

(** ** Processing one item: the job command *)

Section JobProcessFacts.
Import JobNcs Job.

Lemma settled_status_terminal was_created changed :
  settled_status was_created changed ∈ terminal_statuses.
Proof.
  unfold settled_status.
  destruct was_created, changed; apply (bool_decide_unpack _); by vm_compute.
Qed.

Lemma settle_effects env run cat sub start_url id stored was_created st w :
  let r := settle env run cat sub start_url id stored was_created st w in
  r.2 = settled_status was_created st.2
  ∧ log r.1 = log w ++ [mk_log run cat sub start_url id r.2 ""]
  ∧ image_calls r.1 = image_calls w
  ∧ detail_fetches r.1 = detail_fetches w.
Proof. by unfold settle, read_clock. Qed.

Lemma get_or_create_effects env id safe_vals flag w :
  let r := get_or_create env id safe_vals flag w in
  log r.2 = log w ∧ image_calls r.2 = image_calls w
  ∧ detail_fetches r.2 = detail_fetches w.
Proof.
  unfold get_or_create, read_clock. by destruct (db w !! id).
Qed.

(** The image block of the job command. *)
Lemma job_image_step_effects env listed run cat sub start_url safe_vals st w :
  let title_for_img :=
    PyStr.strip (py_or (default "" (safe_vals !! "title"))
                       (py_or (col st.1 "title") (title listed))) in
  let r := image_step env listed run cat sub start_url safe_vals st w in
  detail_fetches r.2 = detail_fetches w ∧ db r.2 = db w ∧ tick r.2 = tick w
  ∧ if String.eqb title_for_img "" then r = (st, w)
    else
      image_calls r.2 = image_calls w ++ [job_id listed]
      ∧ match generate_image env (job_id listed) title_for_img "" with
        | inl e =>
            r.1 = st
            ∧ log r.2 = log w ++ [mk_log run cat sub start_url
                                         (job_id listed) "image_error" e]
        | inr _ => log r.2 = log w
        end.
Proof.
  unfold image_step. cbn zeta.
  destruct (String.eqb _ ""); [done|].
  destruct (generate_image _ _ _ _) as [e|img]; [done|].
  by destruct (_ && _).
Qed.

(** The audit rows of one pass through the loop body. *)
Lemma job_process_rows env no_images run cat sub start_url listed w :
  let r := process_listed env no_images run cat sub start_url listed w in
  ∃ rows, log r.1 = log w ++ rows ∧ item_rows (job_id listed) r.2 rows.
Proof.
  unfold process_listed.
  destruct (scrape_detail env (url listed)) as [e|[details flag]].
  - cbn. eexists. split; [done|].
    exists [], (mk_log run cat sub start_url (job_id listed) "error" e).
    split_and!; try done; [by left|].
    apply (bool_decide_unpack _); by vm_compute.
  - set (safe_vals := filter _ _).
    pose proof (get_or_create_effects env (job_id listed) safe_vals flag
                  (note_fetch (url listed) w)) as Hgoc.
    destruct (get_or_create _ _ _ _ _) as [[stored was_created] w1].
    cbn [fst snd] in Hgoc. destruct Hgoc as (Hlog1 & _ & _).
    set (st0 := if was_created then _ else _).
    assert (∀ st wi,
              (log wi = log w1
               ∨ ∃ e, log wi = log w1 ++ [mk_log run cat sub start_url
                          (job_id listed) "image_error" e]) →
              let r := settle env run cat sub start_url (job_id listed)
                              stored was_created st wi in
              ∃ rows, log r.1 = log w ++ rows
                      ∧ item_rows (job_id listed) r.2 rows) as Hfin.
    { intros st wi Hwi r.
      destruct (settle_effects env run cat sub start_url (job_id listed)
                  stored was_created st wi) as (Hst & Hlog & _).
      fold r in Hst, Hlog. rewrite Hlog.
      pose proof (settled_status_terminal was_created st.2) as Hterm.
      rewrite <-Hst in Hterm.
      destruct Hwi as [->|[e ->]]; rewrite Hlog1; cbn [note_fetch log].
      - eexists. split; [done|]. eexists [], _. split_and!; try done. by left.
      - rewrite <-app_assoc. eexists. split; [done|].
        eexists [_], _. split_and!; try done. right. eexists. split_and!; done. }
    destruct (negb no_images && bool_decide ("image_url" ∈ job_fields));
      [|apply Hfin; by left].
    pose proof (job_image_step_effects env listed run cat sub start_url
                  safe_vals st0 w1) as Himg.
    destruct (image_step _ _ _ _ _ _ _ _ _) as [st wi].
    cbn zeta in Himg. cbn [fst snd] in Himg.
    destruct Himg as (_ & _ & _ & Himg). apply Hfin.
    destruct (String.eqb _ ""); [simplify_eq; by left|].
    destruct Himg as [_ Himg].
    destruct (generate_image _ _ _ _) as [e|];
      [right; exists e; by destruct Himg|by left].
Qed.

End JobProcessFacts.

(** ** The orchestration loop *)

Section OrchestratorLoops.
Context {Item : Type}.
Variable ref_of : Item -> string.
Variable process : string -> string -> string -> Item -> World -> World * string.
Variable listing : string -> list Item.
Variable search_url : string -> string.
Variable max_rows : Z.

Lemma count_fields status w x (r : Run Item) :
  world (count ref_of status w x r) = w
  ∧ seen (count ref_of status w x r) = {[ ref_of x ]} ∪ seen r
  ∧ taken (count ref_of status w x r) = taken r ++ [x].
Proof. unfold count. by repeat destruct (String.eqb status _). Qed.

(** An item whose reference was seen leaves the run as it is. *)
Lemma visit_seen c s u (r : Run Item) x :
  ref_of x ∈ seen r → visit ref_of process c s u r x = r.
Proof. intros Hin. unfold visit. by rewrite bool_decide_eq_true_2. Qed.

Lemma visit_fresh c s u (r : Run Item) x :
  ref_of x ∉ seen r →
  visit ref_of process c s u r x
  = count ref_of (process c s u x (world r)).2
          (process c s u x (world r)).1 x r.
Proof.
  intros Hin. unfold visit. rewrite bool_decide_eq_false_2 by done.
  by destruct (process c s u x (world r)).
Qed.

Lemma each_item_inv (P : Run Item → Prop) c s u items r :
  (∀ r x, P r → P (visit ref_of process c s u r x)) →
  P r → P (each_item ref_of process max_rows c s u items r).
Proof.
  intros Hstep. revert r.
  induction items as [|x items IH]; intros r Hr; simpl; [done|].
  destruct (should_stop max_rows r); [done|]. by apply IH, Hstep.
Qed.

Lemma each_subcategory_inv (P : Run Item → Prop) c subcats r :
  (∀ c s u r x, P r → P (visit ref_of process c s u r x)) →
  P r →
  P (each_subcategory ref_of process listing search_url max_rows c subcats r).
Proof.
  intros Hstep. revert r.
  induction subcats as [|s subcats IH]; intros r Hr; simpl; [done|].
  destruct (should_stop max_rows r); [done|].
  apply IH, each_item_inv; [apply Hstep|done].
Qed.

Lemma each_category_inv (P : Run Item → Prop) categories r :
  (∀ c s u r x, P r → P (visit ref_of process c s u r x)) →
  P r →
  P (each_category ref_of process listing search_url max_rows categories r).
Proof.
  intros Hstep. revert r.
  induction categories as [|[c subcats] categories IH]; intros r Hr; simpl;
    [done|].
  destruct (should_stop max_rows r); [done|].
  by apply IH, each_subcategory_inv.
Qed.

End OrchestratorLoops.

Section AuditCounts.

Lemma count_rows_app p l1 l2 :
  count_rows p (l1 ++ l2) = count_rows p l1 + count_rows p l2.
Proof. unfold count_rows. by rewrite List.filter_app, length_app. Qed.

Lemma item_rows_counts ref status rows :
  item_rows ref status rows →
  ∀ ref',
    count_rows (is_terminal ref') rows
    = (if bool_decide (ref' = ref) then 1 else 0)
    ∧ count_rows (is_image_error ref') rows
      ≤ (if bool_decide (ref' = ref) then 1 else 0).
Proof.
  intros (img & last & -> & Himg & Href & Hstatus & Hterm) ref'.
  rewrite !count_rows_app.
  assert (String.eqb (log_status last) "image_error" = false) as Hlast.
  { apply String.eqb_neq. rewrite Hstatus. intros Heq. rewrite Heq in Hterm.
    by apply (bool_decide_pack _) in Hterm. }
  assert (count_rows (is_terminal ref') [last]
          = if bool_decide (ref' = ref) then 1 else 0) as Hl1.
  { unfold count_rows, is_terminal. simpl. rewrite Href, Hstatus.
    rewrite (bool_decide_eq_true_2 _ Hterm), andb_true_r.
    case_bool_decide as Hr.
    - subst ref'. by rewrite String.eqb_refl.
    - assert (String.eqb ref ref' = false) as ->; [|done].
      apply String.eqb_neq. by intros ->. }
  assert (count_rows (is_image_error ref') [last] = 0) as Hl2.
  { unfold count_rows, is_image_error. simpl. by rewrite Hlast, andb_false_r. }
  rewrite Hl1, Hl2.
  destruct Himg as [->|(e & -> & He & Hse)]; [simpl; split; lia|].
  unfold count_rows, is_terminal, is_image_error. simpl.
  rewrite He, Hse. simpl. rewrite andb_false_r, andb_true_r. simpl.
  case_bool_decide as Hr.
  - subst ref'. rewrite String.eqb_refl. simpl. lia.
  - assert (String.eqb ref ref' = false) as ->; [|simpl; lia].
    apply String.eqb_neq. by intros ->.
Qed.

End AuditCounts.

Section OrchestratorInvariant.
Context {Item : Type}.
Variable ref_of : Item -> string.
Variable url_of : Item -> string.

Lemma start_inv w0 : run_inv ref_of url_of w0 (start w0).
Proof.
  unfold run_inv, start. simpl. split_and!.
  - apply NoDup_nil_2.
  - done.
  - by rewrite app_nil_r.
  - exists []. split; [by rewrite app_nil_r|]. intros ref.
    by rewrite bool_decide_eq_false_2 by set_solver.
Qed.


Variable process : string -> string -> string -> Item -> World -> World * string.

Hypothesis process_rows : ∀ c s u x w,
  ∃ rows, log (process c s u x w).1 = log w ++ rows
          ∧ item_rows (ref_of x) (process c s u x w).2 rows.
Hypothesis process_fetches : ∀ c s u x w,
  detail_fetches (process c s u x w).1 = detail_fetches w ++ [url_of x].

Lemma visit_inv w0 c s u (r : Run Item) x :
  run_inv ref_of url_of w0 r →
  run_inv ref_of url_of w0 (visit ref_of process c s u r x).
Proof.
  intros Hinv. destruct (decide (ref_of x ∈ seen r)) as [Hin|Hin].
  { by rewrite visit_seen. }
  rewrite visit_fresh by done.
  destruct Hinv as (Hnd & Hseen & Hfetch & new & Hlog & Hcount).
  destruct (count_fields ref_of (process c s u x (world r)).2
              (process c s u x (world r)).1 x r) as (Hw & Hs & Ht).
  unfold run_inv. rewrite Hw, Hs, Ht, !fmap_app. simpl.
  split_and!.
  - apply NoDup_app. split_and!; [done| |apply NoDup_singleton].
    intros y Hy ->%list_elem_of_singleton. apply Hin. rewrite Hseen.
    by apply elem_of_list_to_set.
  - rewrite Hseen, list_to_set_app_L. simpl. set_solver.
  - rewrite process_fetches, Hfetch. by rewrite <-app_assoc.
  - destruct (process_rows c s u x (world r)) as (rows & Hrows & Hitem).
    exists (new ++ rows). split; [by rewrite Hrows, Hlog, <-app_assoc|].
    intros ref. rewrite !count_rows_app.
    destruct (Hcount ref) as [Ht1 Hi1].
    destruct (item_rows_counts _ _ _ Hitem ref) as [Ht2 Hi2].
    rewrite Ht1, Ht2.
    destruct (decide (ref = ref_of x)) as [->|Hne].
    + rewrite (bool_decide_eq_false_2 (ref_of x ∈ seen r)) in * by done.
      rewrite (bool_decide_eq_true_2 (ref_of x = ref_of x)) in * by done.
      rewrite bool_decide_eq_true_2 by set_solver. lia.
    + rewrite (bool_decide_eq_false_2 (ref = ref_of x)) in * by done.
      assert (bool_decide (ref ∈ {[ref_of x]} ∪ seen r)
              = bool_decide (ref ∈ seen r)) as ->
        by (apply bool_decide_ext; set_solver).
      lia.
Qed.

End OrchestratorInvariant.

Section OrchestratorCoverage.
Context {Item : Type}.
Variable ref_of : Item -> string.
Variable process : string -> string -> string -> Item -> World -> World * string.
Variable listing : string -> list Item.
Variable search_url : string -> string.
Variable max_rows : Z.

Lemma visit_adds c s u (r : Run Item) x :
  ref_of x ∈ seen (visit ref_of process c s u r x).
Proof.
  destruct (decide (ref_of x ∈ seen r)) as [Hin|Hin].
  - by rewrite visit_seen.
  - rewrite visit_fresh by done.
    destruct (count_fields ref_of (process c s u x (world r)).2
                (process c s u x (world r)).1 x r) as (_ & -> & _).
    set_solver.
Qed.

Lemma visit_mono c s u (r : Run Item) x :
  seen r ⊆ seen (visit ref_of process c s u r x).
Proof.
  destruct (decide (ref_of x ∈ seen r)) as [Hin|Hin].
  - by rewrite visit_seen.
  - rewrite visit_fresh by done.
    destruct (count_fields ref_of (process c s u x (world r)).2
                (process c s u x (world r)).1 x r) as (_ & -> & _).
    set_solver.
Qed.

Lemma no_ceiling_never_stops (r : Run Item) :
  (max_rows ≤ 0)%Z → should_stop max_rows r = false.
Proof.
  intros Hle. unfold should_stop.
  by rewrite (proj2 (Z.ltb_ge 0 max_rows) Hle).
Qed.

Lemma each_item_mono c s u items (r0 r : Run Item) :
  seen r0 ⊆ seen r →
  seen r0 ⊆ seen (each_item ref_of process max_rows c s u items r).
Proof.
  intros H. apply (each_item_inv ref_of process max_rows
                     (fun r' => seen r0 ⊆ seen r')); [|done].
  intros r' x Hr'. etrans; [done|apply visit_mono].
Qed.

Lemma each_subcategory_mono c subcats (r0 r : Run Item) :
  seen r0 ⊆ seen r →
  seen r0 ⊆ seen (each_subcategory ref_of process listing search_url
                                   max_rows c subcats r).
Proof.
  intros H. apply (each_subcategory_inv ref_of process listing search_url
                     max_rows (fun r' => seen r0 ⊆ seen r')); [|done].
  intros c' s u r' x Hr'. etrans; [done|apply visit_mono].
Qed.

Lemma each_category_mono categories (r0 r : Run Item) :
  seen r0 ⊆ seen r →
  seen r0 ⊆ seen (each_category ref_of process listing search_url
                                max_rows categories r).
Proof.
  intros H. apply (each_category_inv ref_of process listing search_url
                     max_rows (fun r' => seen r0 ⊆ seen r')); [|done].
  intros c' s u r' x Hr'. etrans; [done|apply visit_mono].
Qed.

(** Without a row ceiling every item of a listing is taken up or was
    seen before. *)
Lemma each_item_covers c s u items (r : Run Item) x :
  (max_rows ≤ 0)%Z → x ∈ items →
  ref_of x ∈ seen (each_item ref_of process max_rows c s u items r).
Proof.
  intros Hle. revert r.
  induction items as [|y items IH]; intros r Hin; [by apply elem_of_nil in Hin|].
  simpl. rewrite no_ceiling_never_stops by done.
  apply elem_of_cons in Hin as [<-|Hin]; [|by apply IH].
  pose proof (each_item_mono c s u items (visit ref_of process c s u r x)
                (visit ref_of process c s u r x) (reflexivity _)) as Hm.
  apply Hm, visit_adds.
Qed.

Lemma each_subcategory_covers c subcats (r : Run Item) s x :
  (max_rows ≤ 0)%Z → s ∈ subcats → x ∈ listing (search_url s) →
  ref_of x ∈ seen (each_subcategory ref_of process listing search_url
                                    max_rows c subcats r).
Proof.
  intros Hle Hs Hx. revert r.
  induction subcats as [|s' subcats IH]; intros r; [by apply elem_of_nil in Hs|].
  simpl. rewrite no_ceiling_never_stops by done.
  apply elem_of_cons in Hs as [<-|Hs]; [|by apply IH].
  set (r1 := each_item _ _ _ _ _ _ _ r).
  pose proof (each_subcategory_mono c subcats r1 r1 (reflexivity _)) as Hm.
  apply Hm. by apply each_item_covers.
Qed.

Lemma each_category_covers categories (r : Run Item) c subcats s x :
  (max_rows ≤ 0)%Z → (c, subcats) ∈ categories → s ∈ subcats →
  x ∈ listing (search_url s) →
  ref_of x ∈ seen (each_category ref_of process listing search_url
                                 max_rows categories r).
Proof.
  intros Hle Hc Hs Hx. revert r.
  induction categories as [|[c' subcats'] categories IH]; intros r;
    [by apply elem_of_nil in Hc|].
  simpl. rewrite no_ceiling_never_stops by done.
  apply elem_of_cons in Hc as [[= <- <-]|Hc]; [|by apply IH].
  set (r1 := each_subcategory _ _ _ _ _ _ _ r).
  pose proof (each_category_mono categories r1 r1 (reflexivity _)) as Hm.
  apply Hm. by apply (each_subcategory_covers c subcats r s x).
Qed.

End OrchestratorCoverage.

(** ** Whole runs of the two commands *)

Section RunFacts.

Lemma process_one_fetches env listed run cat sub start_url no_images
    refresh imf w :
  detail_fetches
    (Apprenticeship._process_one env listed run cat sub start_url
       no_images refresh imf w).1
  = detail_fetches w ++ [ApprenticeshipNcs.url listed].
Proof.
  unfold Apprenticeship._process_one.
  destruct (scrape_detail env (ApprenticeshipNcs.url listed))
    as [e|[details flag]]; [done|].
  pose proof (upsert_smart_traces env (ApprenticeshipNcs.vacancy_ref listed)
                (ApprenticeshipNcs.url listed)
                (Apprenticeship.merge listed details) cat sub run
                (note_fetch (ApprenticeshipNcs.url listed) w)) as Hup.
  destruct (Apprenticeship._upsert_smart _ _ _ _ _ _ _ _) as [w1 [status msg]].
  cbn [fst snd] in *. destruct Hup as (_ & Hf & _).
  cbn [append_log detail_fetches]. cbn [note_fetch detail_fetches] in Hf.
  destruct imf as [f|]; [|done]. destruct (negb no_images); [|done].
  by destruct (image_step_effects env listed run cat sub start_url refresh
                 f w1) as [-> _].
Qed.

Lemma job_process_fetches env no_images run cat sub start_url listed w :
  detail_fetches
    (Job.process_listed env no_images run cat sub start_url listed w).1
  = detail_fetches w ++ [JobNcs.url listed].
Proof.
  unfold Job.process_listed.
  destruct (scrape_detail env (JobNcs.url listed)) as [e|[details flag]];
    [done|].
  set (safe_vals := filter _ _).
  pose proof (get_or_create_effects env (JobNcs.job_id listed) safe_vals flag
                (note_fetch (JobNcs.url listed) w)) as Hgoc.
  destruct (Job.get_or_create _ _ _ _ _) as [[stored was_created] w1].
  cbn [fst snd] in Hgoc. destruct Hgoc as (_ & _ & Hf1).
  cbn [note_fetch detail_fetches] in Hf1.
  set (st0 := if was_created then _ else _).
  assert (∀ st wi, detail_fetches wi = detail_fetches w1 →
            detail_fetches
              (Job.settle env run cat sub start_url (JobNcs.job_id listed)
                          stored was_created st wi).1
            = detail_fetches w ++ [JobNcs.url listed]) as Hfin.
  { intros st wi Hwi.
    destruct (settle_effects env run cat sub start_url (JobNcs.job_id listed)
                stored was_created st wi) as (_ & _ & _ & ->).
    by rewrite Hwi. }
  destruct (negb no_images && bool_decide ("image_url" ∈ Job.job_fields));
    [|by apply Hfin].
  pose proof (job_image_step_effects env listed run cat sub start_url
                safe_vals st0 w1) as Himg.
  destruct (Job.image_step _ _ _ _ _ _ _ _ _) as [st wi].
  cbn zeta in Himg. cbn [fst snd] in Himg. destruct Himg as (Hf & _).
  by apply Hfin.
Qed.

Lemma apprenticeship_run_inv env listing max_rows start_url no_images
    refresh categories run w :
  run_inv ApprenticeshipNcs.vacancy_ref ApprenticeshipNcs.url w
    (apprenticeship_handle env listing max_rows start_url no_images refresh
                           categories run w).
Proof.
  unfold apprenticeship_handle. cbn zeta.
  destruct (negb (String.eqb (PyStr.strip start_url) "")).
  - match goal with
    | |- ?P (each_item ?rf ?pr ?mx ?c ?s ?u ?items ?r) =>
        apply (each_item_inv rf pr mx P c s u items r); [|apply start_inv]
    end.
    intros r x. apply visit_inv.
    + intros. apply process_one_rows.
    + intros. apply process_one_fetches.
  - match goal with
    | |- ?P (each_category ?rf ?pr ?ls ?su ?mx ?cats ?r) =>
        apply (each_category_inv rf pr ls su mx P cats r); [|apply start_inv]
    end.
    intros c s u r x. apply visit_inv.
    + intros. apply process_one_rows.
    + intros. apply process_one_fetches.
Qed.

Lemma job_run_inv env listing max_rows no_images categories run w :
  run_inv JobNcs.job_id JobNcs.url w
    (job_handle env listing max_rows no_images categories run w).
Proof.
  unfold job_handle.
  match goal with
  | |- ?P (each_category ?rf ?pr ?ls ?su ?mx ?cats ?r) =>
      apply (each_category_inv rf pr ls su mx P cats r); [|apply start_inv]
  end.
  intros c s u r x. apply visit_inv.
  - intros. apply job_process_rows.
  - intros. apply job_process_fetches.
Qed.

Lemma run_inv_audited {Item : Type} (ref_of url_of : Item -> string) w
    (r : Run Item) :
  run_inv ref_of url_of w r → audited_once ref_of w r.
Proof.
  intros (_ & Hseen & _ & new & Hlog & Hcount).
  exists new. split_and!; [done| |].
  - intros x Hx. destruct (Hcount (ref_of x)) as [Ht Hi].
    rewrite bool_decide_eq_true_2 in Ht, Hi; [done| |].
    all: rewrite Hseen; apply elem_of_list_to_set;
      by apply list_elem_of_fmap_2.
  - intros ref Href. destruct (Hcount ref) as [Ht Hi].
    rewrite bool_decide_eq_false_2 in Ht, Hi; [split; lia| |].
    all: rewrite Hseen; by rewrite elem_of_list_to_set.
Qed.

End RunFacts.

Section RunClaims.

Lemma taken_refs {Item : Type} (ref_of url_of : Item -> string) w
    (r : Run Item) ref :
  run_inv ref_of url_of w r → ref ∈ seen r → ref ∈ ref_of <$> taken r.
Proof.
  intros (_ & -> & _). by rewrite elem_of_list_to_set.
Qed.

(** C7, as the specification words it, fails under a row ceiling: of
    the two vacancies the listing yields, the second is met when the
    ceiling of one created row is reached, and no audit row is written
    for it. *)
Lemma ceiling_leaves_yielded_item_unaudited :
  second_stub ∈ two_vacancies "https://listing"
  ∧ length (log (world capped_run)) = 1
  ∧ count_rows (is_terminal "VAC1") (log (world capped_run)) = 1
  ∧ count_rows (is_terminal "VAC2") (log (world capped_run)) = 0.
Proof.
  split; [apply elem_of_cons; right; apply elem_of_cons; by left|].
  by vm_compute.
Qed.

(** C7 (amended): in a run of either command the audit table only
    grows; every item the command takes up (it is met before the row
    ceiling stops the run, and its reference was not seen earlier in
    the run) gets exactly one terminal row and at most one
    [image_error] row; no other reference gets a row.  Without a row
    ceiling every item the listings yield is taken up, under its first
    occurrence. *)
Theorem audit_rows_per_item :
  (∀ env listing max_rows start_url no_images refresh categories run w,
     let r := apprenticeship_handle env listing max_rows start_url
                no_images refresh categories run w in
     audited_once ApprenticeshipNcs.vacancy_ref w r
     ∧ ((max_rows ≤ 0)%Z →
        ∀ x, apprenticeship_yielded env listing start_url categories x →
             ApprenticeshipNcs.vacancy_ref x
             ∈ ApprenticeshipNcs.vacancy_ref <$> taken r))
  ∧ (∀ env listing max_rows no_images categories run w,
       let r := job_handle env listing max_rows no_images categories run w in
       audited_once JobNcs.job_id w r
       ∧ ((max_rows ≤ 0)%Z →
          ∀ x, yielded_by_plan listing (build_search_url env) categories x →
               JobNcs.job_id x ∈ JobNcs.job_id <$> taken r)).
Proof.
  split.
  - intros env listing max_rows start_url no_images refresh categories run w r.
    pose proof (apprenticeship_run_inv env listing max_rows start_url
                  no_images refresh categories run w) as Hinv.
    fold r in Hinv. split; [by eapply run_inv_audited|].
    intros Hle x Hx. eapply taken_refs; [done|].
    subst r. unfold apprenticeship_handle, apprenticeship_yielded in *.
    cbn zeta. destruct (String.eqb (PyStr.strip start_url) ""); simpl.
    + destruct Hx as (c & subcats & s & Hc & Hs & Hx).
      by eapply each_category_covers.
    + by apply each_item_covers.
  - intros env listing max_rows no_images categories run w r.
    pose proof (job_run_inv env listing max_rows no_images categories run w)
      as Hinv.
    fold r in Hinv. split; [by eapply run_inv_audited|].
    intros Hle x (c & subcats & s & Hc & Hs & Hx).
    eapply taken_refs; [done|]. subst r. unfold job_handle.
    by eapply each_category_covers.
Qed.

Lemma audit_rows_per_item_witness :
  (0 ≤ 0)%Z
  ∧ apprenticeship_yielded online two_vacancies "https://listing" []
                           second_stub
  ∧ "VAC2" ∈ ApprenticeshipNcs.vacancy_ref <$> taken uncapped_run.
Proof.
  assert (apprenticeship_yielded online two_vacancies "https://listing" []
            second_stub) as Hy.
  { unfold apprenticeship_yielded. simpl.
    apply elem_of_cons. right. apply elem_of_cons. by left. }
  split; [lia|]. split; [exact Hy|].
  exact (proj2 (proj1 audit_rows_per_item online two_vacancies 0%Z
                  "https://listing" true false [] 7 empty_world)
               (Z.le_refl 0) second_stub Hy).
Defined.

(** C10: one seen set serves the whole run.  In a run of either
    command the items handed to the processing step have pairwise
    distinct references, these references are the seen set, and the
    detail pages fetched are those of these items, one fetch each; an
    item whose reference is in the seen set, from whichever query it
    was put there, leaves the run as it is: no fetch, no merge, no
    upsert, no audit row. *)
Theorem run_wide_dedup :
  (∀ env listing max_rows start_url no_images refresh categories run w,
     let r := apprenticeship_handle env listing max_rows start_url
                no_images refresh categories run w in
     NoDup (ApprenticeshipNcs.vacancy_ref <$> taken r)
     ∧ seen r = list_to_set (ApprenticeshipNcs.vacancy_ref <$> taken r)
     ∧ detail_fetches (world r)
       = detail_fetches w ++ (ApprenticeshipNcs.url <$> taken r))
  ∧ (∀ env listing max_rows no_images categories run w,
       let r := job_handle env listing max_rows no_images categories run w in
       NoDup (JobNcs.job_id <$> taken r)
       ∧ seen r = list_to_set (JobNcs.job_id <$> taken r)
       ∧ detail_fetches (world r)
         = detail_fetches w ++ (JobNcs.url <$> taken r))
  ∧ (∀ (Item : Type) (ref_of : Item -> string) process category subcategory
       start_url (r : Run Item) (x : Item),
       ref_of x ∈ seen r →
       visit ref_of process category subcategory start_url r x = r).
Proof.
  split_and!.
  - intros env listing max_rows start_url no_images refresh categories run w r.
    by destruct (apprenticeship_run_inv env listing max_rows start_url
                   no_images refresh categories run w) as (? & ? & ? & _).
  - intros env listing max_rows no_images categories run w r.
    by destruct (job_run_inv env listing max_rows no_images categories run w)
      as (? & ? & ? & _).
  - intros. by apply visit_seen.
Qed.

Lemma run_wide_dedup_witness :
  "VAC1" ∈ seen capped_run
  ∧ visit ApprenticeshipNcs.vacancy_ref
          (fun c s u x => Apprenticeship._process_one online x 7 c s u
                            true false Apprenticeship.image_field)
          "Health" "Nursing" "https://other-listing" capped_run
          stub_with_wage
    = capped_run.
Proof.
  assert ("VAC1" ∈ seen capped_run) as Hseen
    by (apply (bool_decide_unpack _); by vm_compute).
  split; [exact Hseen|].
  exact (proj2 (proj2 run_wide_dedup) _ ApprenticeshipNcs.vacancy_ref _
               "Health" "Nursing" "https://other-listing" capped_run
               stub_with_wage Hseen).
Defined.

End RunClaims.

(** ** The enrichment hook *)

Section HookFacts.
Import ApprenticeshipNcs Apprenticeship.










End HookFacts.

(** ** Page iteration *)

Section PageFacts.
Variable fetch : string -> string + Dom.node.
Variable next_url : Dom.node -> string -> option string.

Local Abbreviation chain := (chain fetch next_url).
Local Abbreviation iter_pages_from := (iter_pages_from fetch next_url).

Lemma chain_none n : chain n None = None.
Proof. induction n; simpl; done. Qed.

(** Enough fuel for the links up to the first URL the loop refuses. *)
Lemma iter_pages_from_terminates m :
  ∀ seen url,
    (chain m url = None ∨ chain m url = Some ""
     ∨ ∃ u, chain m url = Some u
            ∧ (u ∈ seen ∨ ∃ i, i < m ∧ chain i url = Some u)) →
    ∃ r, iter_pages_from m seen url = Some r.
Proof.
  induction m as [|m IH]; intros seen url Hstop.
  - simpl in *. destruct url as [u|]; [|by eexists].
    destruct Hstop as [?|[Hu|(v & Hv & [Hin|(i & Hi & _)])]];
      simplify_eq; simpl.
    + by eexists.
    + rewrite bool_decide_eq_true_2 by done. rewrite orb_true_r. by eexists.
    + lia.
  - destruct url as [u|]; [|by eexists]. simpl.
    destruct (String.eqb u "" || bool_decide (u ∈ seen)) eqn:Hguard;
      [by eexists|].
    apply orb_false_iff in Hguard as [Hne Hseen].
    apply bool_decide_eq_false_1 in Hseen.
    simpl in Hstop. unfold turn in Hstop at 1 2 3.
    destruct (fetch u) as [e|s] eqn:Hfetch; [by eexists|].
    destruct (IH ({[u]} ∪ seen) (next_url s u)) as [[pages raised] Hr].
    + destruct Hstop as [?|[?|(v & Hv & Hwhere)]]; [by left|right; by left|].
      right. right. exists v. split; [done|].
      destruct Hwhere as [Hin|(i & Hi & Hci)]; [left; set_solver|].
      destruct i as [|i].
      * simpl in Hci. simplify_eq. left. set_solver.
      * right. exists i. split; [lia|]. simpl in Hci.
        unfold turn in Hci at 1. by rewrite Hfetch in Hci.
    + rewrite Hr. by eexists.
Qed.

(** What a finished iteration has done. *)
Lemma iter_pages_from_sound fuel :
  ∀ seen url pages raised,
    iter_pages_from fuel seen url = Some (pages, raised) →
    NoDup pages.*1
    ∧ (∀ u, u ∈ pages.*1 → (u ∉ seen) ∧ (u ≠ ""))
    ∧ (∀ i u s, pages !! i = Some (u, s) →
         chain i url = Some u ∧ fetch u = inr s)
    ∧ stopped fetch next_url seen url pages raised.
Proof.
  induction fuel as [|fuel IH]; intros seen url pages raised Hrun.
  - simpl in Hrun. destruct url as [u|].
    + destruct (String.eqb u "" || bool_decide (u ∈ seen)) eqn:Hguard;
        [|done].
      simplify_eq. split_and!; [apply NoDup_nil_2|set_solver|done|].
      simpl. apply orb_true_iff in Hguard as [Hu|Hu].
      * apply String.eqb_eq in Hu as ->. right; by left.
      * apply bool_decide_eq_true_1 in Hu. right; right. eauto.
    + simplify_eq. split_and!; [apply NoDup_nil_2|set_solver|done|by left].
  - simpl in Hrun. destruct url as [u|].
    + destruct (String.eqb u "" || bool_decide (u ∈ seen)) eqn:Hguard.
      { simplify_eq. split_and!; [apply NoDup_nil_2|set_solver|done|].
        simpl. apply orb_true_iff in Hguard as [Hu|Hu].
        - apply String.eqb_eq in Hu as ->. right; by left.
        - apply bool_decide_eq_true_1 in Hu. right; right. eauto. }
      apply orb_false_iff in Hguard as [Hne Hseen].
      apply bool_decide_eq_false_1 in Hseen. apply String.eqb_neq in Hne.
      destruct (fetch u) as [e|s] eqn:Hfetch.
      { simplify_eq. split_and!; [apply NoDup_nil_2|set_solver|done|].
        simpl. eauto. }
      destruct (iter_pages_from fuel ({[u]} ∪ seen) (next_url s u))
        as [[pages' raised']|] eqn:Hrec; [|done].
      simplify_eq.
      destruct (IH _ _ _ _ Hrec) as (Hnd & Hfresh & Hchain & Hstop).
      split_and!.
      * simpl. apply NoDup_cons. split; [|done].
        intros Hin. destruct (Hfresh u Hin) as [Hu _]. set_solver.
      * intros v. simpl. intros [->|Hv]%elem_of_cons; [done|].
        destruct (Hfresh v Hv) as [Hv1 Hv2]. split; [set_solver|done].
      * intros [|i] v t Hi; simpl in Hi.
        -- by simplify_eq.
        -- simpl. unfold turn at 1. rewrite Hfetch. by apply Hchain.
      * unfold stopped in *. simpl. unfold turn. rewrite Hfetch.
        destruct raised as [e|]; [done|].
        destruct Hstop as [?|[?|(v & Hv & Hwhere)]];
          [by left|right; by left|].
        right; right. exists v. split; [done|]. simpl.
        destruct Hwhere as [[Hv1%elem_of_singleton|Hv1]%elem_of_union|Hv1].
        -- right. apply elem_of_cons. by left.
        -- by left.
        -- right. apply elem_of_cons. by right.
    + simplify_eq. split_and!; [apply NoDup_nil_2|set_solver|done|by left].
Qed.

End PageFacts.

Section PageClaims.

(** C4: page iteration ends whenever the chain of next links is finite
    or comes back to a URL; a finished iteration has fetched pairwise
    distinct URLs, each page it yields being the page the chain leads
    to, and it stopped because a fetch raised, or the last page had no
    next link, or the next URL had been visited.  On the listing of
    three pages whose last page has no next link, the crawl fetches the
    three pages, yields the four vacancies on them and ends. *)
Theorem page_iteration_terminates :
  (∀ fetch next_url start,
     chain_ends fetch next_url start ∨ chain_revisits fetch next_url start →
     ∃ fuel pages raised,
       iter_pages fetch next_url fuel start = Some (pages, raised))
  ∧ (∀ fetch next_url fuel start pages raised,
       iter_pages fetch next_url fuel start = Some (pages, raised) →
       NoDup pages.*1
       ∧ (∀ i u s, pages !! i = Some (u, s) →
            chain fetch next_url i (Some start) = Some u ∧ fetch u = inr s)
       ∧ stopped fetch next_url ∅ (Some start) pages raised)
  ∧ three_page_crawl
    = Some ([ ("https://site/p1", page_one); ("https://site/p2", page_two);
              ("https://site/p3", page_three) ], None)
  ∧ ∃ items,
      three_page_items = Some (items, None)
      ∧ items
        = flat_map (ApprenticeshipNcs._extract_vacancies_from_list host_join)
                   [page_one; page_two; page_three]
      ∧ ApprenticeshipNcs.vacancy_ref <$> items
        = ["VAC1"; "VAC2"; "VAC3"; "VAC4"].
Proof.
  split_and!.
  - intros fetch next_url start Hhalt.
    assert (∃ m, chain fetch next_url m (Some start) = None
                 ∨ chain fetch next_url m (Some start) = Some ""
                 ∨ ∃ u, chain fetch next_url m (Some start) = Some u
                        ∧ (u ∈ (∅ : gset string)
                           ∨ ∃ i, i < m
                                  ∧ chain fetch next_url i (Some start)
                                    = Some u)) as [m Hm].
    { destruct Hhalt as [[n [Hn|Hn]]|(i & j & u & Hij & Hi & Hj)].
      - exists n. by left.
      - exists n. right. by left.
      - exists j. right. right. exists u. split; [done|]. right. eauto. }
    destruct (iter_pages_from_terminates fetch next_url m ∅ (Some start) Hm)
      as [[pages raised] Hr].
    by exists m, pages, raised.
  - intros fetch next_url fuel start pages raised Hrun.
    destruct (iter_pages_from_sound fetch next_url fuel _ _ _ _ Hrun)
      as (? & _ & ? & ?).
    done.
  - by vm_compute.
  - eexists. split_and!; [by vm_compute|by vm_compute|by vm_compute].
Qed.

Lemma page_iteration_terminates_witness :
  (chain_ends three_pages (ApprenticeshipNcs._next_url host_join)
              "https://site/p1"
   ∨ chain_revisits three_pages (ApprenticeshipNcs._next_url host_join)
                    "https://site/p1")
  ∧ ∃ fuel pages raised,
      iter_pages three_pages (ApprenticeshipNcs._next_url host_join)
                 fuel "https://site/p1" = Some (pages, raised).
Proof.
  assert (chain_ends three_pages (ApprenticeshipNcs._next_url host_join)
                     "https://site/p1") as Hends.
  { exists 3. left. by vm_compute. }
  split; [by left|].
  exact (proj1 page_iteration_terminates three_pages
               (ApprenticeshipNcs._next_url host_join) "https://site/p1"
               (or_introl Hends)).
Defined.

End PageClaims.

(** ** The card-boundary search *)

Section CardFacts.
Import Dom.

Lemma dedupe_subset {A : Type} (ref_of : A -> string) xs :
  ∀ seen x, x ∈ dedupe ref_of seen xs → x ∈ xs.
Proof.
  induction xs as [|y xs IH]; intros seen x Hx; simpl in Hx; [done|].
  destruct (bool_decide (ref_of y ∈ seen)).
  - apply elem_of_cons. right. by eapply IH.
  - apply elem_of_cons in Hx as [->|Hx]; apply elem_of_cons; [by left|].
    right. by eapply IH.
Qed.

Lemma job_climb_sound fuel :
  ∀ l id c,
    JobNcs.climb fuel (Some l) id = Some c →
    ∃ k, k < fuel ∧ ancestor_at k l = Some c
         ∧ JobNcs._job_ids_in_node c.1 = {[ id ]}.
Proof.
  induction fuel as [|fuel IH]; intros l id c Hc; simpl in Hc; [done|].
  destruct (bool_decide (JobNcs._job_ids_in_node l.1 ≠ ∅)
            && bool_decide (JobNcs._job_ids_in_node l.1 = {[id]})) eqn:Hq.
  - simplify_eq. apply andb_true_iff in Hq as [_ Hq].
    apply bool_decide_eq_true_1 in Hq. exists 0. split_and!; [lia|done|done].
  - destruct (parent l) as [p|] eqn:Hp; [|by destruct fuel].
    destruct (IH p id c Hc) as (k & Hk & Hanc & Hids).
    exists (S k). split_and!; [lia| |done]. simpl. by rewrite Hp.
Qed.

Lemma job_climb_none fuel :
  ∀ l id,
    (∀ k c, k < fuel → ancestor_at k l = Some c →
            JobNcs._job_ids_in_node c.1 ≠ {[ id ]}) →
    JobNcs.climb fuel (Some l) id = None.
Proof.
  induction fuel as [|fuel IH]; intros l id Hno; simpl; [done|].
  assert (JobNcs._job_ids_in_node l.1 ≠ {[id]}) as Hl
    by (apply (Hno 0 l); [lia|done]).
  rewrite (bool_decide_eq_false_2 _ Hl), andb_false_r.
  destruct (parent l) as [p|] eqn:Hp; [|by destruct fuel].
  apply IH. intros k c Hk Hanc. apply (Hno (S k) c); [lia|].
  simpl. by rewrite Hp.
Qed.

Lemma apprenticeship_climb_step fuel l ref :
  ApprenticeshipNcs.climb (S fuel) (Some l) ref
  = if bool_decide (ApprenticeshipNcs._vac_refs_in_node l.1 ≠ ∅)
       && bool_decide (ApprenticeshipNcs._vac_refs_in_node l.1 = {[ref]})
       && plausible_card l.1
    then Some l
    else ApprenticeshipNcs.climb fuel (parent l) ref.
Proof. reflexivity. Qed.

Lemma apprenticeship_climb_top fuel ref :
  ApprenticeshipNcs.climb fuel None ref = None.
Proof. by destruct fuel. Qed.

Lemma apprenticeship_climb_sound fuel :
  ∀ l ref c,
    ApprenticeshipNcs.climb fuel (Some l) ref = Some c →
    ∃ k, k < fuel ∧ ancestor_at k l = Some c
         ∧ ApprenticeshipNcs._vac_refs_in_node c.1 = {[ ref ]}
         ∧ plausible_card c.1 = true.
Proof.
  induction fuel as [|fuel IH]; intros l ref c Hc; [done|].
  rewrite apprenticeship_climb_step in Hc.
  destruct (bool_decide (ApprenticeshipNcs._vac_refs_in_node l.1 ≠ ∅)
            && bool_decide (ApprenticeshipNcs._vac_refs_in_node l.1 = {[ref]})
            && plausible_card l.1) eqn:Hq.
  - simplify_eq. apply andb_true_iff in Hq as [Hq Hp].
    apply andb_true_iff in Hq as [_ Hq].
    apply bool_decide_eq_true_1 in Hq. exists 0.
    split_and!; [lia|done|done|done].
  - destruct (parent l) as [p|] eqn:Hp;
      [|by rewrite apprenticeship_climb_top in Hc].
    destruct (IH p ref c Hc) as (k & Hk & Hanc & Hids).
    exists (S k). split_and!; [lia| |apply Hids|apply Hids].
    simpl. by rewrite Hp.
Qed.

Lemma apprenticeship_climb_none fuel :
  ∀ l ref,
    (∀ k c, k < fuel → ancestor_at k l = Some c →
            ¬ (ApprenticeshipNcs._vac_refs_in_node c.1 = {[ ref ]}
               ∧ plausible_card c.1 = true)) →
    ApprenticeshipNcs.climb fuel (Some l) ref = None.
Proof.
  induction fuel as [|fuel IH]; intros l ref Hno; [done|].
  rewrite apprenticeship_climb_step.
  assert (bool_decide (ApprenticeshipNcs._vac_refs_in_node l.1 ≠ ∅)
          && bool_decide (ApprenticeshipNcs._vac_refs_in_node l.1 = {[ref]})
          && plausible_card l.1 = false) as ->.
  { apply not_true_is_false. intros Hq.
    apply andb_true_iff in Hq as [Hq Hp].
    apply andb_true_iff in Hq as [_ Hq].
    apply bool_decide_eq_true_1 in Hq. by apply (Hno 0 l); [lia|done|]. }
  destruct (parent l) as [p|] eqn:Hp; [|apply apprenticeship_climb_top].
  apply IH. intros k c Hk Hanc. apply (Hno (S k) c); [lia|].
  simpl. by rewrite Hp.
Qed.

End CardFacts.

Section CardClaims.
Import Dom.

(** C3: every item a listing page yields stems from an anchor whose
    card-boundary search succeeded: the card is the anchor or one of
    its first fourteen ancestors (the search looks at fifteen tags),
    and the identifiers reachable in the card are exactly the
    identifier of the item.  When none of these tags qualifies, the
    search returns nothing and the anchor yields no item; no error is
    raised.  This holds for the job client and for the apprenticeship
    client, whose search asks in addition for a plausible card. *)
Theorem card_boundary_is_exact :
  (∀ urljoin read_card soup x,
     x ∈ JobNcs._extract_jobs_from_list urljoin read_card soup →
     ∃ a card k,
       a ∈ select_a_href (JobNcs.main_of soup)
       ∧ JobNcs.details_id (default "" (attr "href" a.1))
         = Some (JobNcs.job_id x)
       ∧ JobNcs._find_result_card a (JobNcs.job_id x) = Some card
       ∧ k < 15 ∧ ancestor_at k a = Some card
       ∧ JobNcs._job_ids_in_node card.1 = {[ JobNcs.job_id x ]})
  ∧ (∀ urljoin read_card a id,
       JobNcs.details_id (default "" (attr "href" a.1)) = Some id →
       (∀ k c, k < 15 → ancestor_at k a = Some c →
               JobNcs._job_ids_in_node c.1 ≠ {[ id ]}) →
       JobNcs._find_result_card a id = None
       ∧ JobNcs.job_of_anchor urljoin read_card a = None)
  ∧ (∀ urljoin soup x,
       x ∈ ApprenticeshipNcs._extract_vacancies_from_list urljoin soup →
       ∃ a card k m,
         a ∈ select_a_href (ApprenticeshipNcs.main_of soup)
         ∧ ApprenticeshipNcs.vacancy_path (default "" (attr "href" a.1))
           = Some m
         ∧ ApprenticeshipNcs.vacancy_ref x = ApprenticeshipNcs.upper m
         ∧ ApprenticeshipNcs._find_result_card
             a (ApprenticeshipNcs.vacancy_ref x) = Some card
         ∧ k < 15 ∧ ancestor_at k a = Some card
         ∧ ApprenticeshipNcs._vac_refs_in_node card.1
           = {[ ApprenticeshipNcs.vacancy_ref x ]})
  ∧ (∀ urljoin a m,
       ApprenticeshipNcs.vacancy_path (default "" (attr "href" a.1))
       = Some m →
       (∀ k c, k < 15 → ancestor_at k a = Some c →
               ¬ (ApprenticeshipNcs._vac_refs_in_node c.1
                  = {[ ApprenticeshipNcs.upper m ]}
                  ∧ plausible_card c.1 = true)) →
       ApprenticeshipNcs._find_result_card a (ApprenticeshipNcs.upper m)
       = None
       ∧ ApprenticeshipNcs.vacancy_of_anchor urljoin a = None).
Proof.
  split_and!.
  - intros urljoin read_card soup x Hx.
    apply dedupe_subset, list_elem_of_omap in Hx as (a & Ha & Hx).
    unfold JobNcs.job_of_anchor in Hx.
    destruct (JobNcs.details_id (default "" (attr "href" a.1)))
      as [id|] eqn:Hid; [|done].
    destruct (negb (has_parent ["h2"; "h3"; "h4"] a)); [done|].
    destruct (String.eqb _ ""); [done|].
    destruct (JobNcs._find_result_card a id) as [card|] eqn:Hcard; [|done].
    injection Hx as <-. cbn [JobNcs.job_id].
    destruct (job_climb_sound 15 a id card Hcard) as (k & Hk & Hanc & Hids).
    by exists a, card, k.
  - intros urljoin read_card a id Hid Hno.
    assert (JobNcs._find_result_card a id = None) as Hnone
      by (by apply job_climb_none).
    split; [done|]. unfold JobNcs.job_of_anchor. rewrite Hid.
    destruct (negb _); [done|]. destruct (String.eqb _ ""); [done|].
    by rewrite Hnone.
  - intros urljoin soup x Hx.
    apply dedupe_subset, list_elem_of_omap in Hx as (a & Ha & Hx).
    unfold ApprenticeshipNcs.vacancy_of_anchor in Hx.
    destruct (String.prefix "/apprenticeship/" _); [|done].
    destruct (ApprenticeshipNcs.vacancy_path (default "" (attr "href" a.1)))
      as [m|] eqn:Hm; [|done].
    destruct (ApprenticeshipNcs._find_result_card
                a (ApprenticeshipNcs.upper m)) as [card|] eqn:Hcard; [|done].
    injection Hx as <-. cbn [ApprenticeshipNcs.vacancy_ref].
    destruct (apprenticeship_climb_sound 15 a _ card Hcard)
      as (k & Hk & Hanc & Hids & _).
    by exists a, card, k, m.
  - intros urljoin a m Hm Hno.
    assert (ApprenticeshipNcs._find_result_card a (ApprenticeshipNcs.upper m)
            = None) as Hnone by (by apply apprenticeship_climb_none).
    split; [done|]. unfold ApprenticeshipNcs.vacancy_of_anchor. rewrite Hm.
    destruct (String.prefix _ _); [|done]. by rewrite Hnone.
Qed.

Lemma card_boundary_is_exact_witness :
  listed_plumber
    ∈ ApprenticeshipNcs._extract_vacancies_from_list host_join page_one
  ∧ ∃ a card k m,
      a ∈ select_a_href (ApprenticeshipNcs.main_of page_one)
      ∧ ApprenticeshipNcs.vacancy_path (default "" (attr "href" a.1))
        = Some m
      ∧ "VAC1" = ApprenticeshipNcs.upper m
      ∧ ApprenticeshipNcs._find_result_card a "VAC1" = Some card
      ∧ k < 15 ∧ ancestor_at k a = Some card
      ∧ ApprenticeshipNcs._vac_refs_in_node card.1 = {[ "VAC1" ]}.
Proof.
  assert (listed_plumber
            ∈ ApprenticeshipNcs._extract_vacancies_from_list
                host_join page_one) as Hin.
  { replace (ApprenticeshipNcs._extract_vacancies_from_list
               host_join page_one)
      with [listed_plumber; listed_joiner] by (by vm_compute).
    apply elem_of_cons. by left. }
  split; [exact Hin|].
  exact (proj1 (proj2 (proj2 card_boundary_is_exact))
               host_join page_one listed_plumber Hin).
Defined.

End CardClaims.

(** ** The job command leaves a stored category alone *)

Section JobCategoryFacts.
Import JobNcs Job.

Lemma job_backfill_other k c st f :
  f ≠ k → col (backfill k c st).1 f = col st.1 f.
Proof.
  intros Hne. unfold backfill. destruct (_ && _); [|done].
  simpl. by rewrite col_set_col_ne.
Qed.

Lemma job_backfill_nonblank k c st :
  PyStr.strip (col st.1 k) ≠ "" → backfill k c st = st.
Proof.
  intros Hne. unfold backfill. apply String.eqb_neq in Hne.
  by rewrite Hne, andb_false_r.
Qed.

Lemma job_compare_keeps l :
  ∀ st f, (f = "category" ∨ f = "subcategory") →
          col (foldl compare_field st l).1 f = col st.1 f.
Proof.
  induction l as [|[k v] l IH]; intros st f Hf; simpl; [done|].
  rewrite IH by done. unfold compare_field. simpl.
  destruct (String.eqb k "category" || String.eqb k "subcategory") eqn:Hk;
    [done|].
  destruct (String.eqb (col st.1 k) v); [done|]. simpl.
  apply col_set_col_ne. intros ->. apply orb_false_iff in Hk as [H1 H2].
  destruct Hf as [->| ->]; by rewrite ?String.eqb_refl in *.
Qed.

Lemma job_compare_flag_cols flag st f :
  col (compare_flag flag st).1 f = col st.1 f.
Proof. unfold compare_flag. by destruct (eqb _ _). Qed.

Lemma job_image_step_cols env listed run cat sub start_url safe_vals st w f :
  f ≠ "image_url" →
  col (image_step env listed run cat sub start_url safe_vals st w).1.1 f
  = col st.1 f.
Proof.
  intros Hne. unfold image_step. destruct (String.eqb _ ""); [done|].
  destruct (generate_image _ _ _ _); [done|].
  destruct (_ && _); [|done]. simpl. by rewrite col_set_col_ne.
Qed.

(** X14: a job met again keeps the category and the subcategory it is
    stored under, once these are not blank, whatever category and
    subcategory the query at hand carries. *)
Lemma job_keeps_category env no_images run cat sub start_url listed w stored :
  db w !! job_id listed = Some stored →
  ∃ row,
    db (process_listed env no_images run cat sub start_url listed w).1
      !! job_id listed = Some row
    ∧ (PyStr.strip (col stored "category") ≠ "" →
       col row "category" = col stored "category")
    ∧ (PyStr.strip (col stored "subcategory") ≠ "" →
       col row "subcategory" = col stored "subcategory").
Proof.
  intros Hdb. unfold process_listed.
  destruct (scrape_detail env (url listed)) as [e|[details flag]].
  { exists stored. by split_and!. }
  set (safe_vals := filter _ _).
  unfold get_or_create. cbn [note_fetch db]. rewrite Hdb.
  set (st0 := diff_row safe_vals flag cat sub stored).
  set (w1 := note_fetch _ w).
  assert (∀ f, PyStr.strip (col stored f) ≠ "" →
               (f = "category" ∨ f = "subcategory") →
               col st0.1 f = col stored f) as Hst0.
  { intros f Hf Hwhich. subst st0. unfold diff_row.
    rewrite job_compare_flag_cols, job_compare_keeps by done.
    destruct Hwhich as [->| ->].
    - rewrite job_backfill_other by done.
      by rewrite job_backfill_nonblank.
    - rewrite job_backfill_nonblank; [by rewrite job_backfill_other|].
      by rewrite job_backfill_other. }
  assert (∀ st wi, (∀ f, PyStr.strip (col stored f) ≠ "" →
                         (f = "category" ∨ f = "subcategory") →
                         col st.1 f = col stored f) →
            ∃ row,
              db (settle env run cat sub start_url (job_id listed) stored
                         false st wi).1 !! job_id listed = Some row
              ∧ (PyStr.strip (col stored "category") ≠ "" →
                 col row "category" = col stored "category")
              ∧ (PyStr.strip (col stored "subcategory") ≠ "" →
                 col row "subcategory" = col stored "subcategory")) as Hfin.
  { intros st wi Hst. unfold settle, read_clock.
    cbn [fst snd append_log set_db db]. eexists.
    split; [apply lookup_insert_eq|].
    split; intros Hf; rewrite save_fields_col;
      (destruct (_ && _); [|done]); apply Hst; auto. }
  destruct (negb no_images && bool_decide ("image_url" ∈ job_fields));
    [|by apply Hfin].
  pose proof (fun f => job_image_step_cols env listed run cat sub start_url
                         safe_vals st0 w1 f) as Hcols.
  destruct (image_step _ _ _ _ _ _ _ _ _) as [st wi]. cbn [fst] in Hcols.
  apply Hfin. intros f Hf Hwhich. rewrite Hcols; [by apply Hst0|].
  by destruct Hwhich as [->| ->].
Qed.

End JobCategoryFacts.

(** * Further properties *)

(** ** The loops under the row ceiling *)

Section GuardedLoops.
Context {Item : Type}.
Variable ref_of : Item -> string.
Variable process : string -> string -> string -> Item -> World -> World * string.
Variable listing : string -> list Item.
Variable search_url : string -> string.
Variable max_rows : Z.

(** A property that every item taken while the ceiling is not reached
    preserves holds at the end of the loops. *)
Lemma each_item_guarded (P : Run Item → Prop) c s u items r :
  (∀ r x, P r → should_stop max_rows r = false →
          P (visit ref_of process c s u r x)) →
  P r → P (each_item ref_of process max_rows c s u items r).
Proof.
  intros Hstep. revert r.
  induction items as [|x items IH]; intros r Hr; simpl; [done|].
  destruct (should_stop max_rows r) eqn:Hs; [done|]. by apply IH, Hstep.
Qed.

Lemma each_subcategory_guarded (P : Run Item → Prop) c subcats r :
  (∀ c s u r x, P r → should_stop max_rows r = false →
                P (visit ref_of process c s u r x)) →
  P r →
  P (each_subcategory ref_of process listing search_url max_rows c subcats r).
Proof.
  intros Hstep. revert r.
  induction subcats as [|s subcats IH]; intros r Hr; simpl; [done|].
  destruct (should_stop max_rows r); [done|].
  apply IH, each_item_guarded; [apply Hstep|done].
Qed.

Lemma each_category_guarded (P : Run Item → Prop) categories r :
  (∀ c s u r x, P r → should_stop max_rows r = false →
                P (visit ref_of process c s u r x)) →
  P r →
  P (each_category ref_of process listing search_url max_rows categories r).
Proof.
  intros Hstep. revert r.
  induction categories as [|[c subcats] categories IH]; intros r Hr; simpl;
    [done|].
  destruct (should_stop max_rows r); [done|].
  by apply IH, each_subcategory_guarded.
Qed.

Lemma count_counters status w x (r : Run Item) :
  let r' := count ref_of status w x r in
  created_count r' + updated_count r' ≤ S (created_count r + updated_count r)
  ∧ created_count r' + updated_count r' + skipped_count r' + error_count r'
    = S (created_count r + updated_count r + skipped_count r + error_count r).
Proof.
  unfold count. repeat destruct (String.eqb status _); simpl; lia.
Qed.

Lemma visit_under_ceiling c s u (r : Run Item) x :
  (Z.of_nat (created_count r + updated_count r) ≤ max_rows)%Z →
  should_stop max_rows r = false →
  (0 < max_rows)%Z →
  (Z.of_nat (created_count (visit ref_of process c s u r x)
             + updated_count (visit ref_of process c s u r x)) ≤ max_rows)%Z.
Proof.
  intros Hle Hgo Hpos. unfold visit.
  destruct (bool_decide (ref_of x ∈ seen r)); [done|].
  destruct (process c s u x (world r)) as [w status].
  destruct (count_counters status w x r) as [Hc _].
  unfold should_stop in Hgo. apply andb_false_iff in Hgo as [Hgo|Hgo].
  - apply Z.ltb_ge in Hgo. lia.
  - apply Z.leb_gt in Hgo. lia.
Qed.

End GuardedLoops.

Section Tallies.
Context {Item : Type}.
Variable ref_of : Item -> string.
Variable process : string -> string -> string -> Item -> World -> World * string.



Hypothesis process_rows : ∀ c s u x w,
  ∃ rows, log (process c s u x w).1 = log w ++ rows
          ∧ item_rows (ref_of x) (process c s u x w).2 rows.


End Tallies.

Section RunCounters.

(** X1: with a positive row ceiling, a run of either command stops
    taking items once that many rows were created or updated: the sum of
    the two counters never exceeds [max_rows]. *)
Theorem row_ceiling_respected :
  (∀ env listing max_rows start_url no_images refresh categories run w,
     (0 < max_rows)%Z →
     let r := apprenticeship_handle env listing max_rows start_url
                no_images refresh categories run w in
     (Z.of_nat (created_count r + updated_count r) ≤ max_rows)%Z)
  ∧ (∀ env listing max_rows no_images categories run w,
       (0 < max_rows)%Z →
       let r := job_handle env listing max_rows no_images categories run w in
       (Z.of_nat (created_count r + updated_count r) ≤ max_rows)%Z).
Proof.
  split.
  - intros env listing max_rows start_url no_images refresh categories run w
           Hpos. unfold apprenticeship_handle. cbn zeta.
    destruct (negb (String.eqb (PyStr.strip start_url) "")).
    + match goal with
      | |- context [each_item ?rf ?pr ?mx ?c ?s ?u ?items ?r] =>
          apply (each_item_guarded rf pr mx
                   (fun q => (Z.of_nat (created_count q + updated_count q)
                              ≤ mx)%Z) c s u items r)
      end; [|simpl; lia].
      intros r x Hle Hgo. by apply visit_under_ceiling.
    + match goal with
      | |- context [each_category ?rf ?pr ?ls ?su ?mx ?cats ?r] =>
          apply (each_category_guarded rf pr ls su mx
                   (fun q => (Z.of_nat (created_count q + updated_count q)
                              ≤ mx)%Z) cats r)
      end; [|simpl; lia].
      intros c s u r x Hle Hgo. by apply visit_under_ceiling.
  - intros env listing max_rows no_images categories run w Hpos.
    unfold job_handle.
    match goal with
    | |- context [each_category ?rf ?pr ?ls ?su ?mx ?cats ?r] =>
        apply (each_category_guarded rf pr ls su mx
                 (fun q => (Z.of_nat (created_count q + updated_count q)
                            ≤ mx)%Z) cats r)
    end; [|simpl; lia].
    intros c s u r x Hle Hgo. by apply visit_under_ceiling.
Qed.

Lemma row_ceiling_respected_witness :
  (0 < 1)%Z
  ∧ (Z.of_nat (created_count capped_run + updated_count capped_run) ≤ 1)%Z.
Proof.
  split; [lia|].
  exact (proj1 row_ceiling_respected online two_vacancies 1%Z
               "https://listing" true false [] 7 empty_world
               (Z.lt_0_1)).
Defined.


End RunCounters.

(** ** A run against a site that is down *)

Section SiteDown.

Lemma process_one_detail_raises env listed run cat sub start_url no_images
    refresh imf w e :
  scrape_detail env (ApprenticeshipNcs.url listed) = inl e →
  Apprenticeship._process_one env listed run cat sub start_url no_images
                              refresh imf w
  = (append_log (mk_log run cat sub start_url
                        (ApprenticeshipNcs.vacancy_ref listed) "error" e)
                (note_fetch (ApprenticeshipNcs.url listed) w),
     "error").
Proof. intros He. unfold Apprenticeship._process_one. by rewrite He. Qed.

Lemma job_detail_raises env no_images run cat sub start_url listed w e :
  scrape_detail env (JobNcs.url listed) = inl e →
  Job.process_listed env no_images run cat sub start_url listed w
  = (append_log (mk_log run cat sub start_url (JobNcs.job_id listed)
                        "error" e)
                (note_fetch (JobNcs.url listed) w),
     "error").
Proof. intros He. unfold Job.process_listed. by rewrite He. Qed.

Lemma start_all_failed {Item : Type} (w0 : World) :
  all_failed w0 (start (Item:=Item) w0).
Proof.
  unfold all_failed. simpl. split_and!; try done.
  exists []. by rewrite app_nil_r.
Qed.

Lemma visit_all_failed {Item : Type} (ref_of : Item -> string) process w0
    c s u (r : Run Item) x :
  (∃ row fetched,
     process c s u x (world r)
     = (append_log row (note_fetch fetched (world r)), "error")
     ∧ log_status row = "error") →
  all_failed w0 r → all_failed w0 (visit ref_of process c s u r x).
Proof.
  intros (row & fetched & Hp & Hst)
         (Hdb & Himg & Hc & Hu & Hk & He & new & Hlog & Hlen & Hall).
  unfold visit. destruct (bool_decide (ref_of x ∈ seen r)).
  { unfold all_failed. split_and!; try done. by exists new. }
  rewrite Hp. unfold all_failed, count. simpl.
  rewrite Hc, Hu, Hk, He, length_app. simpl.
  split_and!; try done; [lia|].
  exists (new ++ [row]). rewrite Hlog, <-app_assoc, length_app. simpl.
  split_and!; [done|lia|]. apply Forall_app. split; [done|].
  by apply Forall_singleton.
Qed.

(** X3: when every detail fetch raises, a run of either command changes
    no stored row and calls no image service; every item it takes is
    counted as an error and gets one audit row, of status [error]. *)
Theorem site_down_changes_no_row :
  (∀ env listing max_rows start_url no_images refresh categories run w,
     site_down env →
     all_failed w (apprenticeship_handle env listing max_rows start_url
                     no_images refresh categories run w))
  ∧ (∀ env listing max_rows no_images categories run w,
       site_down env →
       all_failed w (job_handle env listing max_rows no_images categories
                                run w)).
Proof.
  split.
  - intros env listing max_rows start_url no_images refresh categories run w
           Hdown.
    assert (∀ c s u r x,
              all_failed w r →
              all_failed w
                (visit ApprenticeshipNcs.vacancy_ref
                   (fun c s u x =>
                      Apprenticeship._process_one env x run c s u no_images
                        refresh Apprenticeship.image_field)
                   c s u r x)) as Hstep.
    { intros c s u r x. apply visit_all_failed.
      destruct (Hdown (ApprenticeshipNcs.url x)) as [e He].
      rewrite (process_one_detail_raises _ _ _ _ _ _ _ _ _ _ _ He).
      by eexists _, _. }
    unfold apprenticeship_handle. cbn zeta.
    destruct (negb (String.eqb (PyStr.strip start_url) "")).
    + match goal with
      | |- ?P (each_item ?rf ?pr ?mx ?c ?s ?u ?items ?r) =>
          apply (each_item_inv rf pr mx P c s u items r);
            [|apply start_all_failed]
      end.
      intros r x. apply Hstep.
    + match goal with
      | |- ?P (each_category ?rf ?pr ?ls ?su ?mx ?cats ?r) =>
          apply (each_category_inv rf pr ls su mx P cats r);
            [|apply start_all_failed]
      end.
      apply Hstep.
  - intros env listing max_rows no_images categories run w Hdown.
    unfold job_handle.
    match goal with
    | |- ?P (each_category ?rf ?pr ?ls ?su ?mx ?cats ?r) =>
        apply (each_category_inv rf pr ls su mx P cats r);
          [|apply start_all_failed]
    end.
    intros c s u r x. apply visit_all_failed.
    destruct (Hdown (JobNcs.url x)) as [e He].
    rewrite (job_detail_raises _ _ _ _ _ _ _ _ _ He).
    by eexists _, _.
Qed.

Lemma site_down_changes_no_row_witness :
  site_down offline
  ∧ all_failed empty_world
      (apprenticeship_handle offline two_vacancies 0 "https://listing"
                             false false [] 7 empty_world).
Proof.
  assert (site_down offline) as Hdown by (intros u; by eexists).
  split; [exact Hdown|].
  exact (proj1 site_down_changes_no_row offline two_vacancies 0%Z
               "https://listing" false false [] 7 empty_world Hdown).
Defined.

End SiteDown.

(** ** The rows a run leaves alone *)

Section Frame.

Lemma touches_only_same ref w w' : db w' = db w → touches_only ref w w'.
Proof. intros Hdb. unfold touches_only. by rewrite Hdb. Qed.

Lemma touches_only_insert ref row w w' :
  db w' = <[ref := row]> (db w) → touches_only ref w w'.
Proof.
  intros Hdb. unfold touches_only. rewrite Hdb. split.
  - intros k Hne. by rewrite lookup_insert_ne.
  - intros k Hk. destruct (decide (k = ref)) as [->|Hne].
    + rewrite lookup_insert_eq. by eexists.
    + by rewrite lookup_insert_ne.
Qed.

Lemma touches_only_trans ref w1 w2 w3 :
  touches_only ref w1 w2 → touches_only ref w2 w3 → touches_only ref w1 w3.
Proof.
  intros [Ha1 Ha2] [Hb1 Hb2]. split.
  - intros k Hne. by rewrite Hb1, Ha1.
  - intros k Hk. by apply Hb2, Ha2.
Qed.

Lemma upsert_smart_db env ref url data cat sub run w :
  ∃ row, db (Apprenticeship._upsert_smart env ref url data cat sub run w).1
         = <[ref := row]> (db w).
Proof.
  unfold Apprenticeship._upsert_smart, read_clock. cbn [db tick].
  destruct (db w !! ref) as [stored|].
  - destruct (Apprenticeship.diff_row _ cat sub stored) as [o' [|c changed]];
      cbn [fst set_db db]; by eexists.
  - cbn [fst set_db db]. by eexists.
Qed.

Lemma image_step_db env listed run cat sub start_url refresh f w :
  touches_only (ApprenticeshipNcs.vacancy_ref listed) w
    (Apprenticeship.image_step env listed run cat sub start_url refresh f w).
Proof.
  unfold Apprenticeship.image_step.
  destruct (db w !! ApprenticeshipNcs.vacancy_ref listed) as [obj|];
    [|by apply touches_only_same].
  destruct (refresh || _); [|by apply touches_only_same].
  destruct (String.eqb _ ""); [by apply touches_only_same|].
  destruct (generate_image _ _ _ _) as [e|cloud];
    [by apply touches_only_same|].
  destruct (_ && _); [|by apply touches_only_same].
  by eapply touches_only_insert.
Qed.

Lemma process_one_db env listed run cat sub start_url no_images refresh
    imf w :
  touches_only (ApprenticeshipNcs.vacancy_ref listed) w
    (Apprenticeship._process_one env listed run cat sub start_url no_images
                                 refresh imf w).1.
Proof.
  unfold Apprenticeship._process_one.
  destruct (scrape_detail env (ApprenticeshipNcs.url listed))
    as [e|[details flag]]; [by apply touches_only_same|].
  destruct (upsert_smart_db env (ApprenticeshipNcs.vacancy_ref listed)
              (ApprenticeshipNcs.url listed)
              (Apprenticeship.merge listed details) cat sub run
              (note_fetch (ApprenticeshipNcs.url listed) w)) as [row Hrow].
  destruct (Apprenticeship._upsert_smart _ _ _ _ _ _ _ _)
    as [w1 [status msg]]. cbn [fst snd] in *.
  assert (touches_only (ApprenticeshipNcs.vacancy_ref listed) w w1) as H1
    by (by eapply touches_only_insert).
  eapply touches_only_trans; [exact H1|].
  destruct imf as [f|]; [|by apply touches_only_same].
  destruct (negb no_images); [|by apply touches_only_same].
  eapply touches_only_trans; [apply image_step_db|].
  by apply touches_only_same.
Qed.

Lemma job_process_db env no_images run cat sub start_url listed w :
  touches_only (JobNcs.job_id listed) w
    (Job.process_listed env no_images run cat sub start_url listed w).1.
Proof.
  unfold Job.process_listed.
  destruct (scrape_detail env (JobNcs.url listed)) as [e|[details flag]];
    [by apply touches_only_same|].
  set (safe_vals := filter _ _).
  assert (touches_only (JobNcs.job_id listed) w
            (Job.get_or_create env (JobNcs.job_id listed) safe_vals flag
               (note_fetch (JobNcs.url listed) w)).2) as H1.
  { unfold Job.get_or_create. cbn [note_fetch db].
    destruct (db w !! JobNcs.job_id listed); [by apply touches_only_same|].
    by eapply touches_only_insert. }
  destruct (Job.get_or_create _ _ _ _ _) as [[stored was_created] w1].
  cbn [snd] in H1.
  set (st0 := if was_created then _ else _).
  assert (∀ st wi, db wi = db w1 →
            touches_only (JobNcs.job_id listed) w
              (Job.settle env run cat sub start_url (JobNcs.job_id listed)
                          stored was_created st wi).1) as Hfin.
  { intros st wi Hwi. eapply touches_only_trans; [exact H1|].
    eapply touches_only_insert. unfold Job.settle, read_clock.
    cbn [fst append_log set_db db]. by rewrite Hwi. }
  destruct (negb no_images && bool_decide ("image_url" ∈ Job.job_fields));
    [|by apply Hfin].
  pose proof (job_image_step_effects env listed run cat sub start_url
                safe_vals st0 w1) as Himg.
  destruct (Job.image_step _ _ _ _ _ _ _ _ _) as [st wi].
  cbn zeta in Himg. cbn [fst snd] in Himg. destruct Himg as (_ & Hdb & _).
  by apply Hfin.
Qed.

Lemma visit_keeps {Item : Type} (ref_of : Item -> string) process w0
    c s u (r : Run Item) x :
  (∀ c s u x w, touches_only (ref_of x) w (process c s u x w).1) →
  rows_held w0 r → rows_held w0 (visit ref_of process c s u r x).
Proof.
  intros Hproc [Hout Hdom].
  destruct (decide (ref_of x ∈ seen r)) as [Hin|Hin].
  { by rewrite visit_seen. }
  rewrite visit_fresh by done. unfold rows_held.
  destruct (count_fields ref_of (process c s u x (world r)).2
              (process c s u x (world r)).1 x r) as (Hw & Hs & _).
  rewrite Hw, Hs. destruct (Hproc c s u x (world r)) as [Hp1 Hp2]. split.
  - intros k Hk. rewrite Hp1 by set_solver. apply Hout. set_solver.
  - intros k Hk. by apply Hp2, Hdom.
Qed.

Lemma rows_held_kept {Item : Type} (ref_of url_of : Item -> string) w0
    (r : Run Item) :
  run_inv ref_of url_of w0 r → rows_held w0 r → rows_kept ref_of w0 r.
Proof.
  intros (_ & Hseen & _) [Hout Hdom]. split; [|done].
  intros k Hk. apply Hout. rewrite Hseen. by rewrite elem_of_list_to_set.
Qed.

(** X4: a run of either command deletes no row, and leaves every row
    whose reference it did not process exactly as it was. *)
Theorem rows_outside_run_untouched :
  (∀ env listing max_rows start_url no_images refresh categories run w,
     rows_kept ApprenticeshipNcs.vacancy_ref w
       (apprenticeship_handle env listing max_rows start_url no_images
                              refresh categories run w))
  ∧ (∀ env listing max_rows no_images categories run w,
       rows_kept JobNcs.job_id w
         (job_handle env listing max_rows no_images categories run w)).
Proof.
  split.
  - intros env listing max_rows start_url no_images refresh categories run w.
    eapply rows_held_kept; [apply apprenticeship_run_inv|].
    unfold apprenticeship_handle. cbn zeta.
    destruct (negb (String.eqb (PyStr.strip start_url) "")).
    + match goal with
      | |- ?P (each_item ?rf ?pr ?mx ?c ?s ?u ?items ?r) =>
          apply (each_item_inv rf pr mx P c s u items r); [|by split]
      end.
      intros r x. apply visit_keeps. intros. apply process_one_db.
    + match goal with
      | |- ?P (each_category ?rf ?pr ?ls ?su ?mx ?cats ?r) =>
          apply (each_category_inv rf pr ls su mx P cats r); [|by split]
      end.
      intros c s u r x. apply visit_keeps. intros. apply process_one_db.
  - intros env listing max_rows no_images categories run w.
    eapply rows_held_kept; [apply job_run_inv|].
    unfold job_handle.
    match goal with
    | |- ?P (each_category ?rf ?pr ?ls ?su ?mx ?cats ?r) =>
        apply (each_category_inv rf pr ls su mx P cats r); [|by split]
    end.
    intros c s u r x. apply visit_keeps. intros. apply job_process_db.
Qed.

End Frame.

(** ** What the audit rows of a run say *)

Section QueryRows.

Lemma grows_by_refl R w : grows_by R w w.
Proof. exists []. by rewrite app_nil_r. Qed.

Lemma grows_by_trans R w1 w2 w3 :
  grows_by R w1 w2 → grows_by R w2 w3 → grows_by R w1 w3.
Proof.
  intros (n1 & H1 & F1) (n2 & H2 & F2). exists (n1 ++ n2).
  split; [by rewrite H2, H1, <-app_assoc|]. by apply Forall_app.
Qed.

Lemma grows_by_weaken (R R' : LogEntry → Prop) w w' :
  (∀ e, R e → R' e) → grows_by R w w' → grows_by R' w w'.
Proof.
  intros Himp (n & H & F). exists n. split; [done|].
  eapply Forall_impl; [exact F|exact Himp].
Qed.

Lemma process_one_query env listed run cat sub start_url no_images refresh
    imf w :
  grows_by (row_of_query run cat sub start_url) w
    (Apprenticeship._process_one env listed run cat sub start_url no_images
                                 refresh imf w).1.
Proof.
  unfold Apprenticeship._process_one.
  destruct (scrape_detail env (ApprenticeshipNcs.url listed))
    as [e|[details flag]].
  { eexists [_]. split; [done|]. by apply Forall_singleton. }
  pose proof (upsert_smart_traces env (ApprenticeshipNcs.vacancy_ref listed)
                (ApprenticeshipNcs.url listed)
                (Apprenticeship.merge listed details) cat sub run
                (note_fetch (ApprenticeshipNcs.url listed) w)) as Hup.
  destruct (Apprenticeship._upsert_smart _ _ _ _ _ _ _ _)
    as [w1 [status msg]].
  cbn [fst snd] in Hup. destruct Hup as (Hlog & _).
  cbn [note_fetch log] in Hlog. cbn [fst].
  assert (∀ wi, grows_by (row_of_query run cat sub start_url) w1 wi →
            grows_by (row_of_query run cat sub start_url) w
              (append_log (mk_log run cat sub start_url
                                  (ApprenticeshipNcs.vacancy_ref listed)
                                  status msg) wi)) as Hfin.
  { intros wi (n & Hn & Fn). exists (n ++ [mk_log run cat sub start_url
        (ApprenticeshipNcs.vacancy_ref listed) status msg]).
    cbn [append_log log]. rewrite Hn, Hlog, <-app_assoc. split; [done|].
    apply Forall_app. split; [done|]. by apply Forall_singleton. }
  destruct imf as [f|]; [|apply Hfin, grows_by_refl].
  destruct (negb no_images); [|apply Hfin, grows_by_refl].
  apply Hfin.
  destruct (image_step_effects env listed run cat sub start_url refresh f w1)
    as (_ & [[_ H]|[(_ & _ & e & H)|(_ & _ & t & e & H)]]).
  - exists []. by rewrite app_nil_r.
  - eexists [_]. split; [exact H|]. by apply Forall_singleton.
  - destruct (generate_image _ _ _ _) as [msg'|].
    + eexists [_]. split; [exact H|]. by apply Forall_singleton.
    + exists []. by rewrite app_nil_r.
Qed.

Lemma job_process_query env no_images run cat sub start_url listed w :
  grows_by (row_of_query run cat sub start_url) w
    (Job.process_listed env no_images run cat sub start_url listed w).1.
Proof.
  unfold Job.process_listed.
  destruct (scrape_detail env (JobNcs.url listed)) as [e|[details flag]].
  { eexists [_]. split; [done|]. by apply Forall_singleton. }
  set (safe_vals := filter _ _).
  pose proof (get_or_create_effects env (JobNcs.job_id listed) safe_vals flag
                (note_fetch (JobNcs.url listed) w)) as Hgoc.
  destruct (Job.get_or_create _ _ _ _ _) as [[stored was_created] w1].
  cbn [fst snd] in Hgoc. destruct Hgoc as (Hlog1 & _).
  cbn [note_fetch log] in Hlog1.
  set (st0 := if was_created then _ else _).
  assert (∀ st wi, grows_by (row_of_query run cat sub start_url) w1 wi →
            grows_by (row_of_query run cat sub start_url) w
              (Job.settle env run cat sub start_url (JobNcs.job_id listed)
                          stored was_created st wi).1) as Hfin.
  { intros st wi (n & Hn & Fn).
    destruct (settle_effects env run cat sub start_url (JobNcs.job_id listed)
                stored was_created st wi) as (_ & Hlog & _).
    eexists (n ++ [_]). rewrite Hlog, Hn, Hlog1, <-app_assoc.
    split; [done|]. apply Forall_app. split; [done|].
    by apply Forall_singleton. }
  destruct (negb no_images && bool_decide ("image_url" ∈ Job.job_fields));
    [|apply Hfin, grows_by_refl].
  pose proof (job_image_step_effects env listed run cat sub start_url
                safe_vals st0 w1) as Himg.
  destruct (Job.image_step _ _ _ _ _ _ _ _ _) as [st wi].
  cbn zeta in Himg. cbn [fst snd] in Himg.
  destruct Himg as (_ & _ & _ & Himg). apply Hfin.
  destruct (String.eqb _ ""); [simplify_eq; apply grows_by_refl|].
  destruct Himg as [_ Himg].
  destruct (generate_image _ _ _ _) as [e|].
  - destruct Himg as [_ Himg]. eexists [_]. split; [exact Himg|].
    by apply Forall_singleton.
  - exists []. by rewrite app_nil_r.
Qed.

Context {Item : Type}.
Variable ref_of : Item -> string.
Variable process : string -> string -> string -> Item -> World -> World * string.
Variable listing : string -> list Item.
Variable search_url : string -> string.
Variable max_rows : Z.
Variable run : nat.

Hypothesis process_query : ∀ c s u x w,
  grows_by (row_of_query run c s u) w (process c s u x w).1.

Lemma visit_grows c s u (r : Run Item) x :
  grows_by (row_of_query run c s u) (world r)
           (world (visit ref_of process c s u r x)).
Proof.
  destruct (decide (ref_of x ∈ seen r)) as [Hin|Hin].
  { rewrite visit_seen by done. apply grows_by_refl. }
  rewrite visit_fresh by done.
  destruct (count_fields ref_of (process c s u x (world r)).2
              (process c s u x (world r)).1 x r) as (-> & _).
  apply process_query.
Qed.

Lemma each_item_grows c s u items :
  ∀ r : Run Item,
    grows_by (row_of_query run c s u) (world r)
             (world (each_item ref_of process max_rows c s u items r)).
Proof.
  induction items as [|x items IH]; intros r; simpl; [apply grows_by_refl|].
  destruct (should_stop max_rows r); [apply grows_by_refl|].
  eapply grows_by_trans; [apply visit_grows|apply IH].
Qed.

Lemma each_subcategory_grows c subcats :
  ∀ r : Run Item,
    grows_by (fun e => ∃ s, s ∈ subcats
                            ∧ row_of_query run c s (search_url s) e)
             (world r)
             (world (each_subcategory ref_of process listing search_url
                                      max_rows c subcats r)).
Proof.
  induction subcats as [|s subcats IH]; intros r; simpl;
    [apply grows_by_refl|].
  destruct (should_stop max_rows r); [apply grows_by_refl|].
  eapply grows_by_trans.
  - eapply grows_by_weaken; [|apply each_item_grows].
    intros e He. exists s. split; [apply elem_of_cons; by left|done].
  - eapply grows_by_weaken; [|apply IH].
    intros e (s' & Hs' & He). exists s'.
    split; [apply elem_of_cons; by right|done].
Qed.

Lemma each_category_grows categories :
  ∀ r : Run Item,
    grows_by (row_of_plan run search_url categories) (world r)
             (world (each_category ref_of process listing search_url
                                   max_rows categories r)).
Proof.
  induction categories as [|[c subcats] categories IH]; intros r; simpl;
    [apply grows_by_refl|].
  destruct (should_stop max_rows r); [apply grows_by_refl|].
  eapply grows_by_trans.
  - eapply grows_by_weaken; [|apply each_subcategory_grows].
    intros e (s & Hs & He). exists c, subcats, s.
    split_and!; [apply elem_of_cons; by left|done|done].
  - eapply grows_by_weaken; [|apply IH].
    intros e (c' & subcats' & s & Hc & Hs & He). exists c', subcats', s.
    split_and!; [apply elem_of_cons; by right|done|done].
Qed.

End QueryRows.

Section QueryRowsOfRuns.

(** X5: every audit row a run appends carries the id of the run and the
    category, subcategory and start URL of the query under which the
    item was taken: a query of the category plan, or, when the
    apprenticeship command is given a start URL, that URL with an empty
    category and subcategory. *)
Theorem audit_rows_name_their_query :
  (∀ env listing max_rows start_url no_images refresh categories run w,
     let r := apprenticeship_handle env listing max_rows start_url
                no_images refresh categories run w in
     if String.eqb (PyStr.strip start_url) ""
     then grows_by (row_of_plan run (build_search_url env) categories)
                   w (world r)
     else grows_by (row_of_query run "" "" (PyStr.strip start_url))
                   w (world r))
  ∧ (∀ env listing max_rows no_images categories run w,
       grows_by (row_of_plan run (build_search_url env) categories) w
         (world (job_handle env listing max_rows no_images categories
                            run w))).
Proof.
  split.
  - intros env listing max_rows start_url no_images refresh categories run w.
    unfold apprenticeship_handle. cbn zeta.
    destruct (String.eqb (PyStr.strip start_url) ""); simpl.
    + apply (each_category_grows ApprenticeshipNcs.vacancy_ref _ listing
               (build_search_url env) max_rows run).
      intros. apply process_one_query.
    + apply (each_item_grows ApprenticeshipNcs.vacancy_ref _ max_rows run).
      intros. apply process_one_query.
  - intros env listing max_rows no_images categories run w.
    unfold job_handle.
    apply (each_category_grows JobNcs.job_id _ listing
             (build_search_url env) max_rows run).
    intros. apply job_process_query.
Qed.

End QueryRowsOfRuns.

(** ** The card a link belongs to *)

Section InnermostCard.
Import Dom.

Lemma job_climb_first fuel :
  ∀ l id c,
    JobNcs.climb fuel (Some l) id = Some c →
    ∃ k, k < fuel ∧ ancestor_at k l = Some c
         ∧ JobNcs._job_ids_in_node c.1 = {[ id ]}
         ∧ ∀ j c', j < k → ancestor_at j l = Some c' →
                   JobNcs._job_ids_in_node c'.1 ≠ {[ id ]}.
Proof.
  induction fuel as [|fuel IH]; intros l id c Hc; simpl in Hc; [done|].
  destruct (bool_decide (JobNcs._job_ids_in_node l.1 ≠ ∅)
            && bool_decide (JobNcs._job_ids_in_node l.1 = {[id]})) eqn:Hq.
  - simplify_eq. apply andb_true_iff in Hq as [_ Hq].
    apply bool_decide_eq_true_1 in Hq. exists 0.
    split_and!; [lia|done|done|]. intros j c' Hj. lia.
  - destruct (parent l) as [p|] eqn:Hp; [|by destruct fuel].
    destruct (IH p id c Hc) as (k & Hk & Hanc & Hids & Hfirst).
    exists (S k). split_and!; [lia| |done|].
    + simpl. by rewrite Hp.
    + intros j c' Hj Hj'. destruct j as [|j].
      * simpl in Hj'. simplify_eq. intros Heq.
        rewrite Heq in Hq.
        rewrite !bool_decide_eq_true_2 in Hq; [done|done|set_solver].
      * simpl in Hj'. rewrite Hp in Hj'. simpl in Hj'.
        apply (Hfirst j c'); [lia|done].
Qed.

Lemma apprenticeship_climb_first fuel :
  ∀ l ref c,
    ApprenticeshipNcs.climb fuel (Some l) ref = Some c →
    ∃ k, k < fuel ∧ ancestor_at k l = Some c
         ∧ ApprenticeshipNcs._vac_refs_in_node c.1 = {[ ref ]}
         ∧ plausible_card c.1 = true
         ∧ ∀ j c', j < k → ancestor_at j l = Some c' →
                   ¬ (ApprenticeshipNcs._vac_refs_in_node c'.1 = {[ ref ]}
                      ∧ plausible_card c'.1 = true).
Proof.
  induction fuel as [|fuel IH]; intros l ref c Hc; [done|].
  rewrite apprenticeship_climb_step in Hc.
  destruct (bool_decide (ApprenticeshipNcs._vac_refs_in_node l.1 ≠ ∅)
            && bool_decide (ApprenticeshipNcs._vac_refs_in_node l.1 = {[ref]})
            && plausible_card l.1) eqn:Hq.
  - simplify_eq. apply andb_true_iff in Hq as [Hq Hp].
    apply andb_true_iff in Hq as [_ Hq].
    apply bool_decide_eq_true_1 in Hq. exists 0.
    split_and!; [lia|done|done|done|]. intros j c' Hj. lia.
  - destruct (parent l) as [p|] eqn:Hp;
      [|by rewrite apprenticeship_climb_top in Hc].
    destruct (IH p ref c Hc) as (k & Hk & Hanc & Hids & Hpl & Hfirst).
    exists (S k). split_and!; [lia| |done|done|].
    + simpl. by rewrite Hp.
    + intros j c' Hj Hj'. destruct j as [|j].
      * simpl in Hj'. simplify_eq. intros [Heq Hpl'].
        rewrite Heq, Hpl' in Hq.
        rewrite !bool_decide_eq_true_2 in Hq; [done|done|set_solver].
      * simpl in Hj'. rewrite Hp in Hj'. simpl in Hj'.
        apply (Hfirst j c'); [lia|done].
Qed.

(** X6: the card the search returns for a link is the innermost tag
    that qualifies: it is the link or one of its first fourteen
    ancestors, and no tag between the link and the card qualifies. *)
Theorem result_card_is_innermost :
  (∀ a id card,
     JobNcs._find_result_card a id = Some card →
     ∃ k, k < 15 ∧ ancestor_at k a = Some card
          ∧ ∀ j c, j < k → ancestor_at j a = Some c →
                   JobNcs._job_ids_in_node c.1 ≠ {[ id ]})
  ∧ (∀ a ref card,
       ApprenticeshipNcs._find_result_card a ref = Some card →
       ∃ k, k < 15 ∧ ancestor_at k a = Some card
            ∧ ∀ j c, j < k → ancestor_at j a = Some c →
                     ¬ (ApprenticeshipNcs._vac_refs_in_node c.1 = {[ ref ]}
                        ∧ plausible_card c.1 = true)).
Proof.
  split.
  - intros a id card Hc.
    destruct (job_climb_first 15 a id card Hc) as (k & ? & ? & _ & ?).
    by exists k.
  - intros a ref card Hc.
    destruct (apprenticeship_climb_first 15 a ref card Hc)
      as (k & ? & ? & _ & _ & ?).
    by exists k.
Qed.

Lemma result_card_is_innermost_witness :
  ∃ card,
    ApprenticeshipNcs._find_result_card first_anchor "VAC1" = Some card
    ∧ ∃ k, k < 15 ∧ ancestor_at k first_anchor = Some card
           ∧ ∀ j c, j < k → ancestor_at j first_anchor = Some c →
                    ¬ (ApprenticeshipNcs._vac_refs_in_node c.1 = {[ "VAC1" ]}
                       ∧ plausible_card c.1 = true).
Proof.
  destruct (ApprenticeshipNcs._find_result_card first_anchor "VAC1")
    as [card|] eqn:Hc.
  - exists card. split; [done|].
    exact (proj2 result_card_is_innermost first_anchor "VAC1" card Hc).
  - vm_compute in Hc. discriminate Hc.
Defined.

End InnermostCard.

(** ** One item for each reference on a page *)

Section ListingDedupe.

Lemma dedupe_fresh {A : Type} (ref_of : A -> string) xs :
  ∀ seen x, x ∈ dedupe ref_of seen xs → ref_of x ∉ seen.
Proof.
  induction xs as [|y xs IH]; intros seen x Hx; simpl in Hx;
    [by apply elem_of_nil in Hx|].
  destruct (bool_decide (ref_of y ∈ seen)) eqn:Hy.
  - by eapply IH.
  - apply bool_decide_eq_false_1 in Hy.
    apply elem_of_cons in Hx as [->|Hx]; [done|].
    apply IH in Hx. set_solver.
Qed.

Lemma dedupe_nodup {A : Type} (ref_of : A -> string) xs :
  ∀ seen, NoDup (ref_of <$> dedupe ref_of seen xs).
Proof.
  induction xs as [|y xs IH]; intros seen; simpl; [apply NoDup_nil_2|].
  destruct (bool_decide (ref_of y ∈ seen)); [apply IH|].
  simpl. apply NoDup_cons. split; [|apply IH].
  intros Hin. apply list_elem_of_fmap in Hin as (x & Hx & Hin).
  apply dedupe_fresh in Hin. set_solver.
Qed.

Lemma dedupe_first {A : Type} (ref_of : A -> string) ref xs :
  ∀ seen, ref ∉ seen →
    first_with ref_of ref (dedupe ref_of seen xs) = first_with ref_of ref xs.
Proof.
  unfold first_with.
  induction xs as [|y xs IH]; intros seen Href; simpl; [done|].
  destruct (bool_decide (ref_of y ∈ seen)) eqn:Hy.
  - apply bool_decide_eq_true_1 in Hy.
    assert (String.eqb (ref_of y) ref = false) as ->
      by (apply String.eqb_neq; by intros <-).
    by apply IH.
  - simpl. destruct (String.eqb (ref_of y) ref) eqn:Heq; [done|].
    apply String.eqb_neq in Heq. apply IH. set_solver.
Qed.

(** X7: the items extracted from one listing page have pairwise
    distinct references, and for every reference the item kept is the
    one of the first link, in document order, that yields an item of
    that reference. *)
Theorem listing_keeps_first_of_each_reference :
  (∀ urljoin soup,
     let raw := omap (ApprenticeshipNcs.vacancy_of_anchor urljoin)
                     (Dom.select_a_href (ApprenticeshipNcs.main_of soup)) in
     let out := ApprenticeshipNcs._extract_vacancies_from_list urljoin soup in
     NoDup (ApprenticeshipNcs.vacancy_ref <$> out)
     ∧ ∀ ref, first_with ApprenticeshipNcs.vacancy_ref ref out
              = first_with ApprenticeshipNcs.vacancy_ref ref raw)
  ∧ (∀ urljoin read_card soup,
       let raw := omap (JobNcs.job_of_anchor urljoin read_card)
                       (Dom.select_a_href (JobNcs.main_of soup)) in
       let out := JobNcs._extract_jobs_from_list urljoin read_card soup in
       NoDup (JobNcs.job_id <$> out)
       ∧ ∀ ref, first_with JobNcs.job_id ref out
                = first_with JobNcs.job_id ref raw).
Proof.
  split.
  - intros urljoin soup raw out. split; [apply dedupe_nodup|].
    intros ref. apply dedupe_first. set_solver.
  - intros urljoin read_card soup raw out. split; [apply dedupe_nodup|].
    intros ref. apply dedupe_first. set_solver.
Qed.

End ListingDedupe.

(** ** [strip], on lists of characters *)

Section StripTheory.
Import PyStr.

Lemma chars_inj s t : list_ascii_of_string s = list_ascii_of_string t → s = t.
Proof.
  intros H. rewrite <-(string_of_list_ascii_of_string s),
              <-(string_of_list_ascii_of_string t). by rewrite H.
Qed.

Lemma chars_rev_app s t :
  list_ascii_of_string (String.rev_app s t)
  = rev (list_ascii_of_string s) ++ list_ascii_of_string t.
Proof.
  revert t. induction s as [|a s IH]; intros t; simpl; [done|].
  rewrite IH. simpl. by rewrite <-app_assoc.
Qed.

Lemma chars_rev s :
  list_ascii_of_string (String.rev s) = rev (list_ascii_of_string s).
Proof. unfold String.rev. rewrite chars_rev_app. simpl. by rewrite app_nil_r. Qed.

Lemma chars_app s t :
  list_ascii_of_string (s +:+ t)
  = list_ascii_of_string s ++ list_ascii_of_string t.
Proof. induction s as [|a s IH]; simpl; [done|]. by rewrite IH. Qed.

Lemma chars_lstrip s :
  list_ascii_of_string (lstrip s) = drop_spaces (list_ascii_of_string s).
Proof.
  induction s as [|a s IH]; simpl; [done|]. by destruct (is_space a).
Qed.

Lemma chars_strip s :
  list_ascii_of_string (strip s) = strip_chars (list_ascii_of_string s).
Proof.
  unfold strip, rstrip, strip_chars.
  by rewrite chars_rev, chars_lstrip, chars_rev, chars_lstrip.
Qed.

Lemma drop_spaces_head_ok l : head_ok (drop_spaces l) = true.
Proof.
  induction l as [|c l IH]; simpl; [done|].
  destruct (is_space c) eqn:Hc; [done|]. simpl. by rewrite Hc.
Qed.

Lemma drop_spaces_fixed l : head_ok l = true → drop_spaces l = l.
Proof.
  destruct l as [|c l]; simpl; [done|]. by destruct (is_space c).
Qed.

Lemma drop_spaces_snoc l x :
  is_space x = false → drop_spaces (l ++ [x]) = drop_spaces l ++ [x].
Proof.
  intros Hx. induction l as [|c l IH]; simpl; [by rewrite Hx|].
  by destruct (is_space c).
Qed.

(** Dropping the white space at the end keeps a head that is not white
    space. *)
Lemma rdrop_head_ok l :
  head_ok l = true → head_ok (rev (drop_spaces (rev l))) = true.
Proof.
  destruct l as [|x l]; [done|]. simpl. intros Hx.
  apply negb_true_iff in Hx. rewrite drop_spaces_snoc by done.
  rewrite rev_app_distr. simpl. by rewrite Hx.
Qed.

Lemma strip_chars_head_ok l : head_ok (strip_chars l) = true.
Proof. apply rdrop_head_ok, drop_spaces_head_ok. Qed.

Lemma strip_chars_last_ok l : head_ok (rev (strip_chars l)) = true.
Proof.
  unfold strip_chars. rewrite rev_involutive. apply drop_spaces_head_ok.
Qed.

Lemma strip_chars_fixed l :
  head_ok l = true → head_ok (rev l) = true → strip_chars l = l.
Proof.
  intros Hh Hl. unfold strip_chars.
  rewrite (drop_spaces_fixed l Hh), (drop_spaces_fixed _ Hl).
  apply rev_involutive.
Qed.

Lemma strip_idem s : strip (strip s) = strip s.
Proof.
  apply chars_inj. rewrite !chars_strip.
  apply strip_chars_fixed; [apply strip_chars_head_ok|apply strip_chars_last_ok].
Qed.

Lemma stripped_strip s : stripped (strip s).
Proof. apply strip_idem. Qed.

Lemma stripped_iff s :
  stripped s ↔ head_ok (list_ascii_of_string s) = true
               ∧ head_ok (rev (list_ascii_of_string s)) = true.
Proof.
  unfold stripped. split.
  - intros Hs. rewrite <-Hs, chars_strip.
    split; [apply strip_chars_head_ok|apply strip_chars_last_ok].
  - intros [Hh Hl]. apply chars_inj. rewrite chars_strip.
    by apply strip_chars_fixed.
Qed.

End StripTheory.

(** ** The loader of the category plan *)

Section Loader.
Import Categories.

Lemma clean_subcats_clean subs :
  Forall (fun s => stripped s ∧ s ≠ "") (clean_subcats subs).
Proof.
  unfold clean_subcats. apply Forall_fmap, Forall_forall. intros s Hs.
  apply list_elem_of_In, filter_In in Hs as [_ Hs]. simpl.
  apply andb_true_iff in Hs as [_ Hs].
  apply negb_true_iff, String.eqb_neq in Hs.
  split; [apply stripped_strip|done].
Qed.

Lemma set_item_keys k v out :
  ∀ k', k' ∈ (set_item k v out).*1 ↔ k' = k ∨ k' ∈ out.*1.
Proof.
  induction out as [|[k0 v0] out IH]; intros k'; simpl.
  - rewrite elem_of_cons. set_solver.
  - destruct (String.eqb_spec k0 k) as [->|Hne]; simpl.
    + rewrite !elem_of_cons. naive_solver.
    + rewrite !elem_of_cons, IH. naive_solver.
Qed.

Lemma set_item_clean k v out :
  stripped k → k ≠ "" → v ≠ [] →
  Forall (fun s => stripped s ∧ s ≠ "") v →
  clean_plan out → clean_plan (set_item k v out).
Proof.
  intros Hk Hne Hv Hall [Hnd Hout]. split.
  - clear Hout. induction out as [|[k0 v0] out IH]; simpl.
    { apply NoDup_singleton. }
    simpl in Hnd. apply NoDup_cons in Hnd as [Hk0 Hnd].
    destruct (String.eqb_spec k0 k) as [->|Hne0]; simpl.
    + by apply NoDup_cons.
    + apply NoDup_cons. split; [|by apply IH].
      rewrite set_item_keys. naive_solver.
  - clear Hnd. induction out as [|[k0 v0] out IH]; simpl.
    { by apply Forall_singleton. }
    apply Forall_cons in Hout as [H0 Hout].
    destruct (String.eqb k0 k); apply Forall_cons; split; try done.
    by apply IH.
Qed.

Lemma load_items_clean kvs :
  ∀ out plan, clean_plan out → load_items kvs out = inr plan →
              clean_plan plan.
Proof.
  induction kvs as [|[c v] kvs IH]; intros out plan Hout Hload;
    simpl in Hload; [by simplify_eq|].
  destruct (String.eqb_spec (PyStr.strip c) "") as [Hblank|Hc];
    [by eapply IH|].
  destruct (string_list v) as [subs|]; [|done].
  pose proof (clean_subcats_clean subs) as Hsubs.
  destruct (clean_subcats subs) as [|s ss]; [by eapply IH|].
  eapply IH; [|exact Hload].
  apply set_item_clean; [apply stripped_strip|done|done|done|done].
Qed.

Lemma load_clean data plan :
  _load_categories_file data = inr plan → plan ≠ [] ∧ clean_plan plan.
Proof.
  unfold _load_categories_file. intros Hload.
  destruct data as [| | | | |kvs]; try done.
  destruct (load_items kvs []) as [e|out] eqn:Hitems; [done|].
  destruct out as [|kv out]; [done|]. simplify_eq. split; [done|].
  eapply load_items_clean; [|exact Hitems].
  split; [apply NoDup_nil_2|apply Forall_nil_2].
Qed.

(** X8: a category plan the loader returns is never empty; its keys are
    pairwise distinct, stripped and not empty, and every key comes with
    at least one subcategory, each stripped and not empty. *)
Theorem loaded_plan_is_clean data plan :
  _load_categories_file data = inr plan →
  plan ≠ [] ∧ clean_plan plan.
Proof. apply load_clean. Qed.

Lemma loaded_plan_is_clean_witness :
  _load_categories_file sample_file
  = inr [("Engineering", ["Welding"]); ("Health", ["Nursing"])]
  ∧ clean_plan [("Engineering", ["Welding"]); ("Health", ["Nursing"])].
Proof.
  assert (_load_categories_file sample_file
          = inr [("Engineering", ["Welding"]); ("Health", ["Nursing"])])
    as Hload by (by vm_compute).
  split; [exact Hload|].
  exact (proj2 (loaded_plan_is_clean sample_file _ Hload)).
Defined.







End Loader.

(** ** The search URLs *)

Section SearchUrl.
Import UrlEncode.

Lemma unquote_quote_char c rest :
  unquote_plus (quote_char c +:+ rest) = String c (unquote_plus rest).
Proof. destruct c as [[] [] [] [] [] [] [] []]; reflexivity. Qed.

Lemma unquote_quote_app s rest :
  unquote_plus (quote_plus s +:+ rest) = s +:+ unquote_plus rest.
Proof.
  induction s as [|c s IH]; [done|].
  change (quote_plus (String c s)) with (quote_char c +:+ quote_plus s).
  assert (∀ a b d : string, (a +:+ b) +:+ d = a +:+ (b +:+ d)) as Hassoc.
  { intros a b d. apply chars_inj. by rewrite !chars_app, app_assoc. }
  by rewrite Hassoc, unquote_quote_char, IH.
Qed.

Lemma app_cancel_r (s t u : string) : s +:+ u = t +:+ u → s = t.
Proof.
  intros H. apply chars_inj. apply (f_equal list_ascii_of_string) in H.
  rewrite !chars_app in H. by apply app_inv_tail in H.
Qed.

Lemma quote_plus_inj_under suffix s t :
  quote_plus s +:+ suffix = quote_plus t +:+ suffix → s = t.
Proof.
  intros H. apply (f_equal unquote_plus) in H.
  rewrite !unquote_quote_app in H. by apply app_cancel_r in H.
Qed.

Lemma quote_char_plain c :
  forallb (fun x => negb (bool_decide (x ∈ delimiters)))
          (list_ascii_of_string (quote_char c)) = true.
Proof. destruct c as [[] [] [] [] [] [] [] []]; reflexivity. Qed.

Lemma quote_plus_plain s :
  forallb (fun x => negb (bool_decide (x ∈ delimiters)))
          (list_ascii_of_string (quote_plus s)) = true.
Proof.
  induction s as [|c s IH]; [done|].
  change (quote_plus (String c s)) with (quote_char c +:+ quote_plus s).
  rewrite chars_app, forallb_app, quote_char_plain, IH. done.
Qed.

(** X10: the search URL of either command determines the subcategory
    it was built from (quoting loses nothing: the term can be read
    back), and the quoted term holds no space and none of the
    characters [& = # ? /], so that a subcategory cannot add to or cut
    short the query. *)
Theorem search_url_faithful :
  (∀ s, unquote_plus (quote_plus s) = s)
  ∧ (∀ s t, _build_search_url s = _build_search_url t → s = t)
  ∧ (∀ s t, build_search_url s = build_search_url t → s = t)
  ∧ (∀ s c, c ∈ delimiters → c ∉ list_ascii_of_string (quote_plus s)).
Proof.
  split_and!.
  - intros s. pose proof (unquote_quote_app s "") as H.
    assert (∀ a : string, a +:+ "" = a) as Hnil.
    { intros a. apply chars_inj. by rewrite chars_app, app_nil_r. }
    by rewrite !Hnil in H.
  - intros s t H. unfold _build_search_url in H.
    repeat apply String.app_inj in H.
    by apply quote_plus_inj_under in H.
  - intros s t H. unfold build_search_url in H.
    repeat apply String.app_inj in H.
    by apply quote_plus_inj_under in H.
  - intros s c Hc Hin. pose proof (quote_plus_plain s) as Hall.
    rewrite forallb_forall in Hall.
    apply list_elem_of_In, Hall, negb_true_iff in Hin.
    by apply bool_decide_eq_false_1 in Hin.
Qed.

End SearchUrl.

(** ** [clean] *)

Section CleanTheory.
Import PyStr.

Lemma collapse_tidy s : ∀ b, tidy_from b (collapse_from b s) = true.
Proof.
  induction s as [|c s IH]; intros b; simpl; [done|].
  destruct (is_space c) eqn:Hc.
  - destruct b; [apply IH|]. simpl. apply IH.
  - simpl. rewrite Hc. apply IH.
Qed.

Lemma tidy_collapse_fixed s : ∀ b, tidy_from b s = true → collapse_from b s = s.
Proof.
  induction s as [|c s IH]; intros b Ht; simpl in *; [done|].
  destruct (is_space c) eqn:Hc.
  - apply andb_true_iff in Ht as [Ht Hrest].
    apply andb_true_iff in Ht as [Heq Hb].
    apply Ascii.eqb_eq in Heq. apply negb_true_iff in Hb. subst.
    by rewrite IH.
  - by rewrite IH.
Qed.

Lemma chars_collapse s :
  ∀ b, list_ascii_of_string (collapse_from b s)
       = collapse_chars b (list_ascii_of_string s).
Proof.
  induction s as [|c s IH]; intros b; simpl; [done|].
  destruct (is_space c); [destruct b|]; simpl; by rewrite IH.
Qed.

Lemma collapse_chars_snoc l x :
  is_space x = false →
  ∀ b, ∃ m, collapse_chars b (l ++ [x]) = m ++ [x].
Proof.
  intros Hx. induction l as [|c l IH]; intros b; simpl.
  - rewrite Hx. by exists [].
  - destruct (is_space c); [destruct b|].
    + apply IH.
    + destruct (IH true) as [m ->]. by exists (" "%char :: m).
    + destruct (IH false) as [m ->]. by exists (c :: m).
Qed.

Lemma collapse_chars_head_ok l :
  head_ok l = true → head_ok (collapse_chars false l) = true.
Proof.
  destruct l as [|c l]; [done|]. simpl. intros Hc.
  apply negb_true_iff in Hc. rewrite Hc. simpl. by rewrite Hc.
Qed.

Lemma collapse_chars_last_ok l :
  head_ok (rev l) = true → head_ok (rev (collapse_chars false l)) = true.
Proof.
  destruct (rev l) as [|x m] eqn:Hrev.
  - apply (f_equal (@rev ascii)) in Hrev. rewrite rev_involutive in Hrev.
    by subst.
  - apply (f_equal (@rev ascii)) in Hrev. rewrite rev_involutive in Hrev.
    simpl in Hrev. subst l. simpl. intros Hx. apply negb_true_iff in Hx.
    destruct (collapse_chars_snoc (rev m) x Hx false) as [m' ->].
    rewrite rev_app_distr. simpl. by rewrite Hx.
Qed.

Lemma clean_stripped s : stripped (clean s).
Proof.
  apply stripped_iff. unfold clean, collapse. rewrite chars_collapse.
  pose proof (stripped_strip s) as Hs. apply stripped_iff in Hs as [Hh Hl].
  split; [by apply collapse_chars_head_ok|by apply collapse_chars_last_ok].
Qed.

(** X11: [clean] puts a text in a normal form: its result has no white
    space at either end, its only white-space characters are single
    spaces, and cleaning it again changes nothing. *)
Theorem clean_normal_form s :
  stripped (clean s)
  ∧ single_spaced (clean s) = true
  ∧ clean (clean s) = clean s.
Proof.
  split; [apply clean_stripped|].
  assert (single_spaced (clean s) = true) as Htidy
    by apply collapse_tidy.
  split; [done|].
  unfold clean at 1. rewrite (clean_stripped s).
  by apply tidy_collapse_fixed.
Qed.

End CleanTheory.

(** ** [_is_emptyish] *)

Section Emptyish.
Import PyStr.

Lemma drop_spaces_app l m :
  drop_spaces (l ++ m)
  = if forallb is_space l then drop_spaces m else drop_spaces l ++ m.
Proof.
  induction l as [|c l IH]; simpl; [done|].
  destruct (is_space c); simpl; [done|done].
Qed.

Lemma drop_spaces_blank l : forallb is_space l = true → drop_spaces l = [].
Proof.
  induction l as [|c l IH]; simpl; [done|].
  destruct (is_space c); simpl; [done|done].
Qed.

Lemma strip_chars_padded pre l post :
  forallb is_space pre = true → forallb is_space post = true →
  strip_chars (pre ++ l ++ post) = strip_chars l.
Proof.
  intros Hpre Hpost. unfold strip_chars.
  rewrite drop_spaces_app, Hpre, drop_spaces_app.
  destruct (forallb is_space l) eqn:Hl.
  - by rewrite (drop_spaces_blank post), (drop_spaces_blank l).
  - rewrite rev_app_distr, drop_spaces_app.
    assert (forallb is_space (rev post) = true) as ->; [|done].
    rewrite forallb_forall in *. intros x Hx. apply Hpost.
    by apply in_rev.
Qed.

Lemma strip_padded pre s post :
  blank pre = true → blank post = true →
  strip (pre +:+ s +:+ post) = strip s.
Proof.
  intros Hpre Hpost. apply chars_inj.
  rewrite !chars_strip, !chars_app. by apply strip_chars_padded.
Qed.


Lemma chars_lower s :
  list_ascii_of_string (lower s) = map lower_char (list_ascii_of_string s).
Proof. induction s as [|c s IH]; simpl; [done|]. by rewrite IH. Qed.








End Emptyish.

(** ** A job met twice *)

Section JobTwice.
Import JobNcs Job.





(** *** The steps keep track of what they change *)






(** *** What the object holds after the comparison *)



Lemma job_compare_flag_meta (l : list (string * string)) :
  ∀ st, disability_confident (foldl compare_field st l).1
        = disability_confident st.1.
Proof.
  induction l as [|[k v] l IH]; intros st; simpl; [done|].
  rewrite IH. unfold compare_field. simpl.
  destruct (_ || _); [done|]. by destruct (String.eqb _ v).
Qed.





(** *** The image block *)








End JobTwice.

(** ** Worked instances of the category and label lemmas of the job
    command *)

Section JobInstances.
Import JobNcs Job.

Lemma job_keeps_category_witness :
  db world_with_filed_welder !! "1" = Some filed_welder_row
  ∧ ∃ row,
      db (process_listed online true 7 "Health" "Nursing" "https://q"
                         welder world_with_filed_welder).1 !! "1" = Some row
      ∧ (PyStr.strip (col filed_welder_row "category") ≠ "" →
         col row "category" = col filed_welder_row "category")
      ∧ (PyStr.strip (col filed_welder_row "subcategory") ≠ "" →
         col row "subcategory" = col filed_welder_row "subcategory").
Proof.
  split; [reflexivity|].
  exact (job_keeps_category online true 7 "Health" "Nursing" "https://q"
           welder world_with_filed_welder filed_welder_row eq_refl).
Defined.

Lemma job_find_after_label_spec_witness :
  _find_after_label ["Posting date:"; "Salary:"; "£6.40 an hour"] "Salary"
  = next_line_value ["£6.40 an hour"].
Proof.
  apply (proj2 (job_find_after_label_spec
                  ["Posting date:"; "Salary:"; "£6.40 an hour"] "Salary")
               ["Posting date:"] "Salary:" ["£6.40 an hour"] "").
  - reflexivity.
  - apply Forall_singleton. reflexivity.
  - reflexivity.
  - reflexivity.
Defined.

End JobInstances.

(** ** The shape of the references *)

Section References.
Import Dom.











End References.

(** ** A run without a row ceiling *)

Lemma dedupe_app {Item : Type} (ref_of : Item -> string) (xs ys : list Item) :
  ∀ seen,
    dedupe ref_of seen (xs ++ ys)
    = dedupe ref_of seen xs
      ++ dedupe ref_of (list_to_set (ref_of <$> xs) ∪ seen) ys.
Proof.
  induction xs as [|x xs IH]; intros seen; simpl.
  - f_equal. set_solver.
  - destruct (bool_decide (ref_of x ∈ seen)) eqn:Hx.
    + rewrite IH. f_equal. f_equal.
      apply bool_decide_eq_true_1 in Hx. set_solver.
    + simpl. rewrite IH. f_equal. f_equal. f_equal. set_solver.
Qed.

Section Uncapped.
Context {Item : Type}.
Variable ref_of : Item -> string.
Variable process : string -> string -> string -> Item -> World -> World * string.
Variable listing : string -> list Item.
Variable search_url : string -> string.
Variable max_rows : Z.
Hypothesis no_ceiling : (max_rows ≤ 0)%Z.

Lemma each_item_uncapped c s u items :
  ∀ r : Run Item,
    let r' := each_item ref_of process max_rows c s u items r in
    taken r' = taken r ++ dedupe ref_of (seen r) items
    ∧ seen r' = list_to_set (ref_of <$> items) ∪ seen r.
Proof.
  induction items as [|x items IH]; intros r; simpl.
  { split; [by rewrite app_nil_r|set_solver]. }
  rewrite (no_ceiling_never_stops max_rows r no_ceiling).
  destruct (IH (visit ref_of process c s u r x)) as [Ht Hs].
  rewrite Ht, Hs. clear Ht Hs IH.
  destruct (decide (ref_of x ∈ seen r)) as [Hin|Hin].
  - rewrite visit_seen by done. rewrite bool_decide_eq_true_2 by done.
    split; [done|set_solver].
  - rewrite visit_fresh by done. rewrite bool_decide_eq_false_2 by done.
    destruct (count_fields ref_of (process c s u x (world r)).2
                (process c s u x (world r)).1 x r) as (_ & -> & ->).
    split; [by rewrite <-app_assoc|set_solver].
Qed.

Lemma each_subcategory_uncapped c subcats :
  ∀ r : Run Item,
    let items := flat_map (fun s => listing (search_url s)) subcats in
    let r' := each_subcategory ref_of process listing search_url max_rows
                               c subcats r in
    taken r' = taken r ++ dedupe ref_of (seen r) items
    ∧ seen r' = list_to_set (ref_of <$> items) ∪ seen r.
Proof.
  induction subcats as [|s subcats IH]; intros r; simpl.
  { split; [by rewrite app_nil_r|set_solver]. }
  rewrite (no_ceiling_never_stops max_rows r no_ceiling).
  destruct (IH (each_item ref_of process max_rows c s (search_url s)
                          (listing (search_url s)) r)) as [Ht Hs].
  destruct (each_item_uncapped c s (search_url s) (listing (search_url s)) r)
    as [Ht1 Hs1].
  rewrite Ht, Hs, Ht1, Hs1, dedupe_app, fmap_app, list_to_set_app_L.
  split; [by rewrite <-app_assoc|set_solver].
Qed.

Lemma each_category_uncapped categories :
  ∀ r : Run Item,
    let items := plan_items listing search_url categories in
    let r' := each_category ref_of process listing search_url max_rows
                            categories r in
    taken r' = taken r ++ dedupe ref_of (seen r) items
    ∧ seen r' = list_to_set (ref_of <$> items) ∪ seen r.
Proof.
  induction categories as [|[c subcats] categories IH]; intros r; simpl.
  { split; [by rewrite app_nil_r|set_solver]. }
  rewrite (no_ceiling_never_stops max_rows r no_ceiling).
  destruct (IH (each_subcategory ref_of process listing search_url max_rows
                                 c subcats r)) as [Ht Hs].
  destruct (each_subcategory_uncapped c subcats r) as [Ht1 Hs1].
  unfold plan_items in *. simpl.
  rewrite Ht, Hs, Ht1, Hs1, dedupe_app, fmap_app, list_to_set_app_L.
  split; [by rewrite <-app_assoc|set_solver].
Qed.

End Uncapped.

Section UncappedRuns.

(** X17: without a row ceiling, the items a run processes are exactly
    the items of the listings of the plan (of the one listing, when the
    apprenticeship command is given a start URL), in the order they are
    yielded, each reference at its first occurrence. *)
Theorem uncapped_run_takes_first_occurrences :
  (∀ env listing max_rows start_url no_images refresh categories run w,
     (max_rows ≤ 0)%Z →
     taken (apprenticeship_handle env listing max_rows start_url no_images
                                  refresh categories run w)
     = dedupe ApprenticeshipNcs.vacancy_ref ∅
         (if String.eqb (PyStr.strip start_url) ""
          then plan_items listing (build_search_url env) categories
          else listing (PyStr.strip start_url)))
  ∧ (∀ env listing max_rows no_images categories run w,
       (max_rows ≤ 0)%Z →
       taken (job_handle env listing max_rows no_images categories run w)
       = dedupe JobNcs.job_id ∅
           (plan_items listing (build_search_url env) categories)).
Proof.
  split.
  - intros env listing max_rows start_url no_images refresh categories run w
           Hle.
    unfold apprenticeship_handle. cbn zeta.
    destruct (String.eqb (PyStr.strip start_url) ""); simpl.
    + by destruct (each_category_uncapped ApprenticeshipNcs.vacancy_ref
                     (fun c s u x =>
                        Apprenticeship._process_one env x run c s u no_images
                          refresh Apprenticeship.image_field)
                     listing (build_search_url env) max_rows Hle categories
                     (start w)) as [-> _].
    + by destruct (each_item_uncapped ApprenticeshipNcs.vacancy_ref
                     (fun c s u x =>
                        Apprenticeship._process_one env x run c s u no_images
                          refresh Apprenticeship.image_field)
                     listing (build_search_url env) max_rows Hle "" ""
                     (PyStr.strip start_url)
                     (listing (PyStr.strip start_url)) (start w)) as [-> _].
  - intros env listing max_rows no_images categories run w Hle.
    unfold job_handle.
    by destruct (each_category_uncapped JobNcs.job_id
                   (Job.process_listed env no_images run) listing
                   (build_search_url env) max_rows Hle categories
                   (start w)) as [-> _].
Qed.

Lemma uncapped_run_takes_first_occurrences_witness :
  (0 ≤ 0)%Z
  ∧ taken uncapped_run
    = dedupe ApprenticeshipNcs.vacancy_ref ∅ (two_vacancies "https://listing").
Proof.
  split; [lia|].
  exact (proj1 uncapped_run_takes_first_occurrences online two_vacancies 0%Z
               "https://listing" true false [] 7 empty_world (Z.le_refl 0)).
Defined.

End UncappedRuns.

(** ** The image block of the apprenticeship command *)

Section ImageBlock.
Import ApprenticeshipNcs Apprenticeship.

(** X18: the image block of the apprenticeship command writes nothing
    but the image column: the row of the vacancy keeps every other
    column and all of its ingestion metadata, and the image column
    either stays or takes the stripped, non-empty URL the image service
    returned. *)
Theorem image_block_writes_image_column_only env listed run cat sub
    start_url refresh w row :
  db w !! vacancy_ref listed = Some row →
  let w' := image_step env listed run cat sub start_url refresh
                       "image_url" w in
  ∃ row',
    db w' !! vacancy_ref listed = Some row'
    ∧ (∀ k, k ≠ "image_url" → col row' k = col row k)
    ∧ same_meta row' row
    ∧ (col row' "image_url" = col row "image_url"
       ∨ ∃ title employer cloud,
           generate_image env (vacancy_ref listed) title employer
           = inr cloud
           ∧ PyStr.strip cloud ≠ ""
           ∧ col row' "image_url" = PyStr.strip cloud).
Proof.
  intros Hdb w'. subst w'. unfold image_step. rewrite Hdb.
  assert (∃ row', Some row = Some row'
                  ∧ (∀ k, k ≠ "image_url" → col row' k = col row k)
                  ∧ same_meta row' row
                  ∧ (col row' "image_url" = col row "image_url"
                     ∨ ∃ title employer cloud,
                         generate_image env (vacancy_ref listed) title
                                        employer = inr cloud
                         ∧ PyStr.strip cloud ≠ ""
                         ∧ col row' "image_url" = PyStr.strip cloud))
    as Hsame.
  { exists row. split_and!; [done|done|apply same_meta_refl|by left]. }
  destruct (refresh || _); [|by rewrite Hdb].
  destruct (String.eqb _ ""); [by rewrite Hdb|].
  destruct (generate_image env (vacancy_ref listed) _ _) as [e|cloud] eqn:Hgen;
    [cbn [db append_log note_image_call]; by rewrite Hdb|].
  destruct (negb (String.eqb (PyStr.strip cloud) "") && _) eqn:Hnew;
    [|cbn [db note_image_call]; by rewrite Hdb].
  cbn [db set_db note_image_call]. rewrite lookup_insert_eq.
  eexists. split; [done|]. split_and!.
  - intros k Hk. rewrite save_fields_col.
    rewrite (bool_decide_eq_false_2 (k ∈ ["image_url"])); [done|].
    intros Hin. apply elem_of_cons in Hin as [->|Hin]; [done|].
    by apply elem_of_nil in Hin.
  - by repeat split.
  - right. eexists _, _, cloud. split; [exact Hgen|].
    apply andb_true_iff in Hnew as [Hne _].
    apply negb_true_iff, String.eqb_neq in Hne. split; [done|].
    rewrite save_fields_col. simpl. apply col_set_col_eq.
Qed.

Lemma image_block_writes_image_column_only_witness :
  db world_with_vacancy !! "VAC1" = Some filed_welder_row
  ∧ ∃ row',
      db (image_step offline stub_with_wage 7 "Engineering" "Welding"
                     "https://q" false "image_url" world_with_vacancy)
        !! "VAC1" = Some row'
      ∧ same_meta row' filed_welder_row.
Proof.
  split; [reflexivity|].
  destruct (image_block_writes_image_column_only offline stub_with_wage 7
              "Engineering" "Welding" "https://q" false world_with_vacancy
              filed_welder_row eq_refl) as (row' & H1 & _ & H2 & _).
  exact (ex_intro _ row' (conj H1 H2)).
Defined.

End ImageBlock.

(** ** A run over a loaded plan *)

Section LoadedRun.
Import Categories.

Lemma row_of_clean_plan run search_url plan e :
  clean_plan plan → row_of_plan run search_url plan e →
  log_run_id e = run
  ∧ stripped (log_category e) ∧ log_category e ≠ ""
  ∧ stripped (log_keyword e) ∧ log_keyword e ≠ "".
Proof.
  intros [_ Hall] (c & subcats & s & Hc & Hs & Hrun & Hcat & Hkey & _).
  rewrite Forall_forall in Hall.
  destruct (Hall _ Hc) as (Hc1 & Hc2 & _ & Hsubs). simpl in *.
  rewrite Forall_forall in Hsubs. destruct (Hsubs _ Hs) as [Hs1 Hs2].
  by rewrite Hcat, Hkey.
Qed.

(** X19: when the category plan comes from the loader, every audit row
    a run of either command appends carries the id of the run and a
    category and a subcategory that are stripped and not empty (the
    apprenticeship command: when no start URL is given). *)
Theorem loaded_plan_names_every_row data plan :
  _load_categories_file data = inr plan →
  (∀ env listing max_rows no_images refresh run w,
     grows_by (fun e => log_run_id e = run
                        ∧ stripped (log_category e) ∧ log_category e ≠ ""
                        ∧ stripped (log_keyword e) ∧ log_keyword e ≠ "")
       w (world (apprenticeship_handle env listing max_rows "" no_images
                                       refresh plan run w)))
  ∧ (∀ env listing max_rows no_images run w,
       grows_by (fun e => log_run_id e = run
                          ∧ stripped (log_category e) ∧ log_category e ≠ ""
                          ∧ stripped (log_keyword e) ∧ log_keyword e ≠ "")
         w (world (job_handle env listing max_rows no_images plan run w))).
Proof.
  intros Hload. destruct (load_clean data plan Hload) as [_ Hclean]. split.
  - intros env listing max_rows no_images refresh run w.
    eapply grows_by_weaken; [intros e; by apply row_of_clean_plan|].
    unfold apprenticeship_handle. cbn zeta. simpl.
    apply (each_category_grows ApprenticeshipNcs.vacancy_ref _ listing
             (build_search_url env) max_rows run).
    intros. apply process_one_query.
  - intros env listing max_rows no_images run w.
    eapply grows_by_weaken; [intros e; by apply row_of_clean_plan|].
    unfold job_handle.
    apply (each_category_grows JobNcs.job_id _ listing
             (build_search_url env) max_rows run).
    intros. apply job_process_query.
Qed.

Lemma loaded_plan_names_every_row_witness :
  _load_categories_file sample_file
  = inr [("Engineering", ["Welding"]); ("Health", ["Nursing"])]
  ∧ grows_by (fun e => log_run_id e = 7
                       ∧ stripped (log_category e) ∧ log_category e ≠ ""
                       ∧ stripped (log_keyword e) ∧ log_keyword e ≠ "")
      empty_world
      (world (job_handle online (fun _ => [welder]) 0 true
                [("Engineering", ["Welding"]); ("Health", ["Nursing"])]
                7 empty_world)).
Proof.
  assert (_load_categories_file sample_file
          = inr [("Engineering", ["Welding"]); ("Health", ["Nursing"])])
    as Hload by (by vm_compute).
  split; [exact Hload|].
  exact (proj2 (loaded_plan_names_every_row sample_file _ Hload)
               online (fun _ => [welder]) 0%Z true 7 empty_world).
Defined.

End LoadedRun.

(** ** [cleanup_lines] *)

Section SplitLines.
Import Lines.

Lemma splitlines_no_breaks_upto n :
  ∀ s, String.length s ≤ n →
       Forall (fun l => no_breaks l = true) (splitlines s).
Proof.
  induction n as [|n IH]; intros s Hlen.
  { destruct s; [apply Forall_nil_2|simpl in Hlen; lia]. }
  destruct s as [|c rest]; [apply Forall_nil_2|]. simpl in Hlen. simpl.
  destruct (Ascii.eqb c "013").
  { destruct rest as [|c' rest']; [by apply Forall_singleton|].
    simpl in Hlen.
    destruct (Ascii.eqb c' "010"); apply Forall_cons; split; try done;
      apply IH; simpl; lia. }
  destruct (ApprenticeshipNcs.is_linebreak c) eqn:Hc.
  { apply Forall_cons. split; [done|]. apply IH. lia. }
  pose proof (IH rest ltac:(lia)) as Hrest.
  destruct (splitlines rest) as [|l ls].
  - apply Forall_singleton. unfold no_breaks. simpl. by rewrite Hc.
  - apply Forall_cons in Hrest as [Hl Hls]. apply Forall_cons.
    split; [|done]. unfold no_breaks in *. simpl. by rewrite Hc.
Qed.

Lemma splitlines_no_breaks s :
  Forall (fun l => no_breaks l = true) (splitlines s).
Proof. by apply (splitlines_no_breaks_upto (String.length s)). Qed.

Lemma drop_spaces_forallb (p : ascii → bool) l :
  forallb p l = true → forallb p (drop_spaces l) = true.
Proof.
  induction l as [|c l IH]; simpl; [done|].
  intros [Hc Hl]%andb_true_iff.
  destruct (PyStr.is_space c); [by apply IH|]. simpl. by rewrite Hc, Hl.
Qed.

Lemma rev_forallb (p : ascii → bool) l :
  forallb p l = true → forallb p (rev l) = true.
Proof.
  rewrite !forallb_forall. intros H x Hx. apply H. by apply in_rev.
Qed.

Lemma strip_no_breaks l : no_breaks l = true → no_breaks (PyStr.strip l) = true.
Proof.
  unfold no_breaks. rewrite chars_strip. intros H. unfold strip_chars.
  by apply rev_forallb, drop_spaces_forallb, rev_forallb, drop_spaces_forallb.
Qed.

Lemma split_single l :
  no_breaks l = true → l ≠ "" → splitlines l = [l].
Proof.
  unfold no_breaks. induction l as [|c l IH]; [done|]. simpl.
  intros [Hc Hl]%andb_true_iff _. apply negb_true_iff in Hc.
  assert (Ascii.eqb c "013" = false) as ->.
  { apply Ascii.eqb_neq. intros ->. by vm_compute in Hc. }
  rewrite Hc. destruct l as [|c' l']; [done|].
  by rewrite IH.
Qed.

Lemma split_cons_line l rest :
  no_breaks l = true →
  splitlines (l +:+ LF +:+ rest) = l :: splitlines rest.
Proof.
  unfold no_breaks. induction l as [|c l IH]; [done|].
  intros [Hc Hl]%andb_true_iff. apply negb_true_iff in Hc.
  change (String c l +:+ LF +:+ rest) with (String c (l +:+ LF +:+ rest)).
  cbn [splitlines].
  assert (Ascii.eqb c "013" = false) as ->.
  { apply Ascii.eqb_neq. intros ->. by vm_compute in Hc. }
  rewrite Hc. by rewrite IH.
Qed.

Lemma join_cons x y r :
  Dom.join LF (x :: y :: r) = x +:+ LF +:+ Dom.join LF (y :: r).
Proof. done. Qed.

(** Splitting undoes joining, for lines without a terminator the last
    of which is not empty. *)
Lemma splitlines_join ls :
  Forall (fun l => no_breaks l = true) ls →
  (∀ l, last ls = Some l → l ≠ "") →
  splitlines (Dom.join LF ls) = ls.
Proof.
  induction ls as [|x [|y r] IH]; intros Hall Hlast.
  - done.
  - simpl. apply split_single; [by apply Forall_inv in Hall|].
    by apply Hlast.
  - apply Forall_cons in Hall as [Hx Hall].
    rewrite join_cons, split_cons_line by done. f_equal.
    apply IH; [done|]. intros l Hl. by apply Hlast.
Qed.

Lemma join_ends ls l :
  last ls = Some l →
  ∃ p, list_ascii_of_string (Dom.join LF ls) = p ++ list_ascii_of_string l.
Proof.
  induction ls as [|x [|y r] IH]; intros Hl.
  - done.
  - simpl in *. simplify_eq. by exists [].
  - destruct IH as [p Hp]; [done|]. rewrite join_cons, !chars_app, Hp.
    exists (list_ascii_of_string x ++ list_ascii_of_string LF ++ p).
    by rewrite <-!app_assoc.
Qed.

Lemma join_snoc_blank ls :
  ls ≠ [] → Dom.join LF (ls ++ [""]) = Dom.join LF ls +:+ LF.
Proof.
  induction ls as [|x [|y r] IH]; intros Hne; [done| |].
  - simpl. apply chars_inj. by rewrite !chars_app.
  - change ((x :: y :: r) ++ [""]) with (x :: y :: (r ++ [""])).
    rewrite !join_cons.
    change (y :: r ++ [""]) with ((y :: r) ++ [""]). rewrite IH by done.
    apply chars_inj. rewrite !chars_app. by rewrite <-!app_assoc.
Qed.

End SplitLines.

Section CleanupTheory.
Import Lines.
Variable keep : string -> bool.

Lemma loop_squeeze lines :
  ∀ out, cleanup_loop keep lines out
         = out ++ squeeze keep (ends_line out) lines.
Proof.
  induction lines as [|ln lines IH]; intros out; simpl.
  { by rewrite app_nil_r. }
  destruct (String.eqb ln "") eqn:E.
  - rewrite IH. unfold push_blank, ends_line.
    destruct (last out) as [l|] eqn:Hl.
    + destruct (String.eqb l "") eqn:El; simpl.
      * by rewrite Hl, El.
      * rewrite last_snoc. simpl. by rewrite <-app_assoc.
    + by rewrite Hl.
  - destruct (keep ln); [|apply IH].
    rewrite IH. unfold ends_line at 1. rewrite last_snoc, E. simpl.
    by rewrite <-app_assoc.
Qed.

Lemma squeeze_shaped lines :
  Forall (fun l => PyStr.strip l = l ∧ no_breaks l = true) lines →
  ∀ b, shaped keep b (squeeze keep b lines) = true.
Proof.
  induction 1 as [|x lines [Hx1 Hx2] _ IH]; intros b; simpl; [done|].
  destruct (String.eqb x "") eqn:E.
  - destruct b; [|apply IH]. simpl. apply IH.
  - destruct (keep x) eqn:Hk; [|apply IH]. simpl. rewrite E.
    unfold kept_line. rewrite E, Hk, Hx1, Hx2, String.eqb_refl. simpl.
    apply IH.
Qed.

Lemma shaped_squeeze_fixed ls :
  ∀ b, shaped keep b ls = true → squeeze keep b ls = ls.
Proof.
  induction ls as [|l ls IH]; intros b; simpl; [done|].
  destruct (String.eqb_spec l "") as [->|Hne].
  - intros [-> Hs]%andb_true_iff. by rewrite IH.
  - intros [Hk Hs]%andb_true_iff. unfold kept_line in Hk.
    apply andb_true_iff in Hk as [Hk _].
    apply andb_true_iff in Hk as [Hk _].
    apply andb_true_iff in Hk as [_ Hk]. rewrite Hk. by rewrite IH.
Qed.

Lemma shaped_lines ls :
  ∀ b, shaped keep b ls = true →
       Forall (fun l => l = "" ∨ kept_line keep l = true) ls.
Proof.
  induction ls as [|l ls IH]; intros b; simpl; [by intros; apply Forall_nil_2|].
  destruct (String.eqb_spec l "") as [->|Hne].
  - intros [_ Hs]%andb_true_iff. apply Forall_cons. split; [by left|].
    by eapply IH.
  - intros [Hk Hs]%andb_true_iff. apply Forall_cons. split; [by right|].
    by eapply IH.
Qed.

Lemma kept_line_facts l :
  kept_line keep l = true →
  l ≠ "" ∧ keep l = true ∧ stripped l ∧ no_breaks l = true.
Proof.
  unfold kept_line. intros H.
  apply andb_true_iff in H as [H H4]. apply andb_true_iff in H as [H H3].
  apply andb_true_iff in H as [H1 H2].
  apply negb_true_iff, String.eqb_neq in H1. apply String.eqb_eq in H3.
  done.
Qed.

Lemma shaped_strip_fixed ls b :
  shaped keep b ls = true → PyStr.strip <$> ls = ls.
Proof.
  intros Hs. apply shaped_lines in Hs.
  induction Hs as [|l ls Hl _ IH]; [done|]. rewrite fmap_cons, IH. f_equal.
  destruct Hl as [->|Hl]; [done|].
  apply kept_line_facts in Hl as (_ & _ & Hx & _). exact Hx.
Qed.

Lemma shaped_no_breaks ls b :
  shaped keep b ls = true → Forall (fun l => no_breaks l = true) ls.
Proof.
  intros Hs. apply shaped_lines in Hs.
  eapply Forall_impl; [exact Hs|]. intros l [->|Hl]; [done|].
  apply kept_line_facts in Hl as (_ & _ & _ & Hx). exact Hx.
Qed.

Lemma shaped_snoc_blank ls :
  ∀ b, shaped keep b (ls ++ [""]) = true →
       shaped keep b ls = true
       ∧ match last ls with
         | Some l => negb (String.eqb l "")
         | None => b
         end = true.
Proof.
  induction ls as [|l ls IH]; intros b; simpl.
  { intros H. by rewrite andb_true_r in H. }
  destruct (String.eqb_spec l "") as [->|Hne].
  - intros [-> Hs]%andb_true_iff. destruct (IH false Hs) as [Hs' Hl].
    split; [done|]. destruct ls as [|l' ls]; [by simpl in Hl|].
    change (last ("" :: l' :: ls)) with (last (l' :: ls)).
    by destruct (last (l' :: ls)).
  - intros [Hk Hs]%andb_true_iff. destruct (IH true Hs) as [Hs' Hl].
    rewrite Hk, Hs'. split; [done|].
    destruct ls as [|l' ls].
    + simpl. by apply negb_true_iff, String.eqb_neq.
    + change (last (l :: l' :: ls)) with (last (l' :: ls)).
      destruct (last (l' :: ls)) eqn:E; [exact Hl|].
      by apply last_None in E.
Qed.

Lemma tight_join_stripped ls :
  tight keep ls = true → stripped (Dom.join LF ls).
Proof.
  unfold tight. intros [Hs Hl]%andb_true_iff.
  apply stripped_iff. split.
  - destruct ls as [|x ls]; [done|]. simpl in Hs.
    destruct (String.eqb_spec x "") as [->|Hne]; [done|].
    apply andb_true_iff in Hs as [Hk _].
    apply kept_line_facts in Hk as (_ & _ & Hx & _).
    apply stripped_iff in Hx as [Hh _].
    destruct x as [|c x]; [done|].
    destruct ls as [|y r]; [done|]. by rewrite join_cons.
  - destruct (last ls) as [l|] eqn:Hlast.
    + destruct (join_ends ls l Hlast) as [p ->].
      rewrite rev_app_distr.
      apply negb_true_iff, String.eqb_neq in Hl.
      assert (l ∈ ls) as Hin.
      { apply last_Some in Hlast as [ls' ->]. apply elem_of_app. right.
        apply elem_of_cons. by left. }
      apply shaped_lines in Hs. rewrite Forall_forall in Hs.
      destruct (Hs l Hin) as [->|Hk]; [done|].
      apply kept_line_facts in Hk as (_ & _ & Hx & _).
      apply stripped_iff in Hx as [_ Hr].
      destruct (rev (list_ascii_of_string l)) as [|c m] eqn:Hrev; [|done].
      apply (f_equal (@rev ascii)) in Hrev. rewrite rev_involutive in Hrev.
      destruct l; [done|discriminate].
    + apply last_None in Hlast. by subst.
Qed.

(** What the loop produces, joined and stripped, is the join of a
    tight list of lines. *)
Lemma cleanup_tight lines :
  Forall (fun l => PyStr.strip l = l ∧ no_breaks l = true) lines →
  ∃ ts, tight keep ts = true
        ∧ PyStr.strip (Dom.join LF (cleanup_loop keep lines []))
          = Dom.join LF ts.
Proof.
  intros Hlines. rewrite loop_squeeze.
  change (ends_line []) with false. rewrite app_nil_l.
  pose proof (squeeze_shaped lines Hlines false) as Hs.
  remember (squeeze keep false lines) as ns eqn:Hns. clear Hns.
  destruct (last ns) as [l|] eqn:Hlast.
  - destruct (String.eqb_spec l "") as [->|Hne].
    + apply last_Some in Hlast as [ms Hms]. rewrite Hms in Hs |- *.
      destruct (shaped_snoc_blank ms false Hs) as [Hms1 Hms2].
      assert (ms ≠ []) as Hne by (intros ->; done).
      assert (tight keep ms = true) as Ht.
      { unfold tight. rewrite Hms1. simpl.
        destruct (last ms); [done|]. done. }
      exists ms. split; [done|]. rewrite join_snoc_blank by done.
      pose proof (strip_padded "" (Dom.join LF ms) LF eq_refl eq_refl) as Hp.
      change ("" +:+ Dom.join LF ms +:+ LF) with (Dom.join LF ms +:+ LF)
        in Hp.
      rewrite Hp. by apply tight_join_stripped.
    + assert (tight keep ns = true) as Ht.
      { unfold tight. rewrite Hs, Hlast. simpl.
        by apply negb_true_iff, String.eqb_neq. }
      exists ns. split; [done|]. by apply tight_join_stripped.
  - apply last_None in Hlast. exists []. by rewrite Hlast.
Qed.

Lemma cleanup_with_tight text :
  ∃ ts, tight keep ts = true ∧ cleanup_with keep text = Dom.join LF ts.
Proof.
  apply cleanup_tight. apply Forall_fmap, Forall_forall. intros l Hl. simpl.
  split; [apply strip_idem|]. apply strip_no_breaks.
  pose proof (splitlines_no_breaks text) as Hall.
  rewrite Forall_forall in Hall. by apply Hall.
Qed.

Lemma tight_split ts :
  tight keep ts = true → splitlines (Dom.join LF ts) = ts.
Proof.
  unfold tight. intros [Hs Hl]%andb_true_iff.
  apply splitlines_join; [by eapply shaped_no_breaks|].
  intros l Hlast. rewrite Hlast in Hl.
  by apply negb_true_iff, String.eqb_neq in Hl.
Qed.

(** The three facts on [cleanup_lines], for any filter. *)
Lemma cleanup_with_spec text :
  stripped (cleanup_with keep text)
  ∧ tight keep (splitlines (cleanup_with keep text)) = true
  ∧ cleanup_with keep (cleanup_with keep text) = cleanup_with keep text.
Proof.
  destruct (cleanup_with_tight text) as (ts & Ht & Heq).
  rewrite Heq. split_and!.
  - by apply tight_join_stripped.
  - by rewrite tight_split.
  - unfold cleanup_with. rewrite tight_split by done.
    assert (shaped keep false ts = true) as Hs
      by (unfold tight in Ht; by apply andb_true_iff in Ht as [? _]).
    rewrite (shaped_strip_fixed ts false Hs), loop_squeeze.
    change (ends_line []) with false. rewrite app_nil_l.
    rewrite (shaped_squeeze_fixed ts false Hs).
    by apply tight_join_stripped.
Qed.

End CleanupTheory.

Section CleanupLines.

(** X20: [cleanup_lines] of either scrapper module gives a text with no
    white space at its ends, whose lines are lines the filter of the
    module keeps, each without white space at its ends, with an empty
    line only between two of them; cleaning a cleaned text changes
    nothing. *)
Theorem cleanup_lines_normal_form :
  (∀ text,
     stripped (ApprenticeshipText.cleanup_lines text)
     ∧ Lines.tight ApprenticeshipText.keep
         (Lines.splitlines (ApprenticeshipText.cleanup_lines text)) = true
     ∧ ApprenticeshipText.cleanup_lines
         (ApprenticeshipText.cleanup_lines text)
       = ApprenticeshipText.cleanup_lines text)
  ∧ (∀ text,
       stripped (JobText.cleanup_lines text)
       ∧ Lines.tight JobText.keep
           (Lines.splitlines (JobText.cleanup_lines text)) = true
       ∧ JobText.cleanup_lines (JobText.cleanup_lines text)
         = JobText.cleanup_lines text).
Proof.
  split; intros text; apply cleanup_with_spec.
Qed.

End CleanupLines.

(** ** [_normalize_url] *)

Section NormalizeUrl.
Import Urls.

Lemma append_cons c p s : String c p +:+ s = String c (p +:+ s).
Proof. done. Qed.

Lemma stripped_prefixed c p s :
  PyStr.is_space c = false → stripped s → s ≠ "" →
  stripped (String c p +:+ s).
Proof.
  intros Hc Hs Hne. apply stripped_iff in Hs as [_ Hr]. apply stripped_iff.
  split; [by simpl; rewrite Hc|].
  rewrite chars_app, rev_app_distr.
  destruct (rev (list_ascii_of_string s)) as [|a m] eqn:Hrev; [|done].
  apply (f_equal (@rev ascii)) in Hrev. rewrite rev_involutive in Hrev.
  destruct s; [done|discriminate].
Qed.

Lemma normalize_url_settled v :
  stripped v → PyStr.startswith "//" v = false →
  PyStr.startswith "www." (PyStr.lower v) = false →
  _normalize_url v = v.
Proof.
  intros Hs H1 H2. unfold _normalize_url. cbv zeta. rewrite Hs, H1, H2.
  by destruct (String.eqb_spec v "") as [->|_].
Qed.

(** X21: [_normalize_url] gives a text with no white space at its ends
    that neither starts with two slashes nor, in lower case, with
    [www.]; normalising it again changes nothing. *)
Theorem normalize_url_normal_form u :
  stripped (_normalize_url u)
  ∧ PyStr.startswith "//" (_normalize_url u) = false
  ∧ PyStr.startswith "www." (PyStr.lower (_normalize_url u)) = false
  ∧ _normalize_url (_normalize_url u) = _normalize_url u.
Proof.
  assert (stripped (_normalize_url u)
          ∧ PyStr.startswith "//" (_normalize_url u) = false
          ∧ PyStr.startswith "www." (PyStr.lower (_normalize_url u)) = false)
    as (H1 & H2 & H3).
  { unfold _normalize_url. cbv zeta. pose proof (stripped_strip u) as Hs.
    destruct (String.eqb (PyStr.strip u) "") eqn:Hne; [done|].
    apply String.eqb_neq in Hne.
    destruct (PyStr.startswith "//" (PyStr.strip u)) eqn:E1.
    { split; [by apply stripped_prefixed|]. by rewrite !append_cons. }
    destruct (PyStr.startswith "www." (PyStr.lower (PyStr.strip u))) eqn:E2.
    { split; [by apply stripped_prefixed|]. by rewrite !append_cons. }
    done. }
  split_and!; try done. by apply normalize_url_settled.
Qed.

End NormalizeUrl.
